(** * awesome_analyzer: a shallow embedding of the scraper and the analyzer

    The repository holds two command-line programs.  [awesome_scraper.py]
    collects the GitHub repository links of a web page, asks the GitHub API
    for the popularity of each one and writes the answers to a JSON
    snapshot; [awesome_analyzer.py] loads a snapshot into a table, filters
    it with inclusive bounds and sorts it by one column.

    Python values are modelled as follows.
    - [str] is [string]; a text is carried by its UTF-8 bytes, so the ASCII
      punctuation the programs look at is one [ascii] each.  The output of
      the GitHub CLI, which is stripped of Unicode blanks, is a list of
      code points ([PyText]).
    - [int] is [Z]; its conversions from and to text refuse more than 4300
      digits.  A float time stamp is a rational [Q]: rounding is left
      out, the overflows of the conversion from [int] and of [time.sleep]
      are kept.
    - a [dict] is an association list in insertion order with unique keys
      ([PyDict]): the order is what [json.dump] writes and what pandas turns
      into row order.
    - an exception is an explicit result ([Exc], or [option] for a library
      call that raises [ValueError]).
    - the network, the clock and the file system are explicit state
      ([World], [FileSystem]).
    Calls to [print] are left out: nothing in the programs reads them back. *)

From Stdlib Require Import ZArith List Bool Arith Lia String Ascii.
From Stdlib Require Import QArith Qminmax Lqa.
From Stdlib Require Import Permutation Sorted.
From Stdlib Require Import DecimalString DecimalFacts DecimalPos DecimalZ.
Import ListNotations.

Local Open Scope string_scope.
Local Open Scope list_scope.

(* ================================================================== *)
(** * Part I. Definitions *)
(* ================================================================== *)

(** ** Python string methods used by the programs *)

Module PyStr.

(** [c in chars] for a one-character [c]. *)
Fixpoint mem (c : ascii) (chars : string) : bool :=
  match chars with
  | EmptyString => false
  | String a rest => Ascii.eqb c a || mem c rest
  end.

(** [s.lstrip(chars)] *)
Fixpoint lstrip (chars s : string) : string :=
  match s with
  | EmptyString => EmptyString
  | String a rest => if mem a chars then lstrip chars rest else s
  end.

(** [s.rstrip(chars)] *)
Fixpoint rstrip (chars s : string) : string :=
  match s with
  | EmptyString => EmptyString
  | String a rest =>
      match rstrip chars rest with
      | EmptyString => if mem a chars then EmptyString else String a EmptyString
      | String b r => String a (String b r)
      end
  end.

(** [s.strip(chars)] *)
Definition strip (chars s : string) : string := rstrip chars (lstrip chars s).

(** [s.split(sep)] for a one-character separator: never the empty list,
    [''.split('/') == ['']]. *)
Fixpoint split (sep : ascii) (s : string) : list string :=
  match s with
  | EmptyString => [EmptyString]
  | String a rest =>
      if Ascii.eqb a sep then EmptyString :: split sep rest
      else match split sep rest with
           | h :: t => String a h :: t
           | [] => [String a EmptyString]
           end
  end.

(** [s.startswith(p)] *)
Definition startswith (p s : string) : bool := String.prefix p s.

(** [s.partition(c)] cut down to what the callers need: the text before
    the first character of [seps] and the text from that character on
    (the whole of [s] and [''] when there is none). *)
Fixpoint break_at (seps s : string) : string * string :=
  match s with
  | EmptyString => (EmptyString, EmptyString)
  | String a rest =>
      if mem a seps then (EmptyString, s)
      else let '(l, r) := break_at seps rest in (String a l, r)
  end.

(** [s.replace(c, '')] for every [c] of [chars]. *)
Fixpoint remove_chars (chars s : string) : string :=
  match s with
  | EmptyString => EmptyString
  | String a rest =>
      if mem a chars then remove_chars chars rest
      else String a (remove_chars chars rest)
  end.

Definition is_lower (c : ascii) : bool :=
  (97 <=? nat_of_ascii c)%nat && (nat_of_ascii c <=? 122)%nat.
Definition is_upper (c : ascii) : bool :=
  (65 <=? nat_of_ascii c)%nat && (nat_of_ascii c <=? 90)%nat.
Definition is_digit (c : ascii) : bool :=
  (48 <=? nat_of_ascii c)%nat && (nat_of_ascii c <=? 57)%nat.
Definition is_alpha (c : ascii) : bool := is_lower c || is_upper c.

Definition lower_char (c : ascii) : ascii :=
  if is_upper c then ascii_of_nat (nat_of_ascii c + 32) else c.

(** [s.lower()] on ASCII letters. *)
Fixpoint lower (s : string) : string :=
  match s with
  | EmptyString => EmptyString
  | String a rest => String (lower_char a) (lower rest)
  end.

Fixpoint forallb (p : ascii -> bool) (s : string) : bool :=
  match s with
  | EmptyString => true
  | String a rest => p a && forallb p rest
  end.

(** [s[1:]] *)
Definition tail (s : string) : string :=
  match s with
  | EmptyString => EmptyString
  | String _ rest => rest
  end.

(** The last character of a string. *)
Fixpoint last_char (s : string) : option ascii :=
  match s with
  | EmptyString => None
  | String a EmptyString => Some a
  | String _ rest => last_char rest
  end.

(** [x in l] for a list of strings. *)
Definition elem (x : string) (l : list string) : bool :=
  existsb (String.eqb x) l.

End PyStr.

(** ** [urllib.parse.urlparse] *)

(** The six components of a [ParseResult]. *)
Record ParseResult : Type := mkParseResult {
  scheme : string;
  netloc : string;
  path : string;
  params : string;
  query : string;
  fragment : string
}.

(** A model of the standard library's [urlparse], used to run the programs
    on concrete links.  It follows [urlsplit] step by step: leading C0
    control characters and spaces are stripped, tab, CR and LF are removed,
    a leading [scheme:] is split off and lower-cased, [//netloc] extends to
    the next [/], [?] or [#], then the fragment, the query and (for the
    schemes that use them) the parameters are cut off the path.  [None] is
    [ValueError]: the library raises it for a netloc with [[] or []] that is
    not a well-formed bracketed host; the model raises it for every netloc
    that holds a bracket, and does not model the NFKC check of non-ASCII
    netlocs.  The theorems below are stated for an arbitrary [urlparse] and
    use this model only for closed examples. *)
Module Urllib.
Import PyStr.

Definition c0_control_or_space : string :=
  string_of_list_ascii (map ascii_of_nat (seq 0 33)).

Definition unsafe_url_bytes_to_remove : string :=
  String (ascii_of_nat 9) (String (ascii_of_nat 13) (String (ascii_of_nat 10) EmptyString)).

Definition is_scheme_char (c : ascii) : bool :=
  is_alpha c || is_digit c || mem c "+-.".

Definition uses_params : list string :=
  [EmptyString; "ftp"; "hdl"; "prospero"; "http"; "imap"; "https"; "shttp"; "rtsp";
   "rtspu"; "sip"; "sips"; "mms"; "sftp"; "tel"].

(** [scheme, url = url[:i].lower(), url[i+1:]] when [url] starts with a
    letter and everything before the first [:] is a scheme character. *)
Definition split_scheme (url : string) : string * string :=
  let '(before, from_colon) := break_at ":" url in
  match before, from_colon with
  | String a _, String _ rest =>
      if is_alpha a && forallb is_scheme_char before
      then (lower before, rest)
      else (EmptyString, url)
  | _, _ => (EmptyString, url)
  end.

(** [if url[:2] == '//': netloc, url = _splitnetloc(url, 2)] *)
Definition split_netloc (url : string) : string * string :=
  match url with
  | String "/" (String "/" rest) => break_at "/?#" rest
  | _ => (EmptyString, url)
  end.

(** [_splitparams]: the parameters start at the first [;] of the last
    path segment. *)
Fixpoint last_segment_semicolon (seen : bool) (s : string) : bool :=
  match s with
  | EmptyString => seen
  | String a rest =>
      if Ascii.eqb a "/" then last_segment_semicolon false rest
      else if Ascii.eqb a ";" then last_segment_semicolon true rest
      else last_segment_semicolon seen rest
  end.

Fixpoint split_params_aux (s : string) : string * string :=
  match s with
  | EmptyString => (EmptyString, EmptyString)
  | String a rest =>
      if Ascii.eqb a ";" && negb (mem "/"%char rest)
      then (EmptyString, rest)
      else let '(l, r) := split_params_aux rest in (String a l, r)
  end.

Definition split_params (url : string) : string * string :=
  if last_segment_semicolon false url then split_params_aux url
  else (url, EmptyString).

Definition urlparse (url0 : string) : option ParseResult :=
  let url := remove_chars unsafe_url_bytes_to_remove
               (lstrip c0_control_or_space url0) in
  let '(sch, url) := split_scheme url in
  let '(nl, url) := split_netloc url in
  if mem "["%char nl || mem "]"%char nl then None
  else
    let '(url, frag) := break_at "#" url in
    let '(url, qry) := break_at "?" url in
    let '(url, prm) :=
      if elem sch uses_params then split_params url else (url, EmptyString) in
    Some (mkParseResult sch nl url prm (tail qry) (tail frag)).

End Urllib.

(** ** The link extractor ([awesome_scraper.py]) *)

Definition BLACKLISTED_OWNERS : list string :=
  [ "features"; "login"; "explore"; "marketplace"; "topics"; "collections";
    "enterprise"; "solutions"; "sponsors" ].

(** A JSON value as Python holds it after [json.load] or
    [response.json()].  A float is carried by the literal that denotes it:
    no float arithmetic is modelled. *)
#[warnings="-register-all"]
Inductive json : Type :=
| JNull : json
| JBool : bool -> json
| JInt : Z -> json
| JFloat : string -> json
| JString : string -> json
| JArray : list json -> json
| JObject : list (string * json) -> json.

(** What [requests.get] hands back, as far as the programs read it:
    [json_body] is the result of [response.json()], [None] when the body is
    not JSON and the call raises. *)
Record Response : Type := mkResponse {
  status_code : Z;
  headers : list (string * string);
  text : string;
  json_body : option json
}.

Section Extractor.

(** [urllib.parse.urlparse]; [None] when it raises [ValueError]. *)
Variable urlparse : string -> option ParseResult.
(** [requests.get(url)] for the page to scrape. *)
Variable requests_get : string -> Response.
(** The [href] values of [BeautifulSoup(text, "html.parser").find_all("a",
    href=True)], in document order. *)
Variable find_all_a_href : string -> list string.

(** [is_valid_github_repo_url]; [None] when [urlparse] raises. *)
Definition is_valid_github_repo_url (url : string) : option bool :=
  match urlparse url with
  | None => None
  | Some parsed_url =>
      let path_parts := PyStr.split "/" (PyStr.strip "/" (path parsed_url)) in
      Some
        (if String.eqb (netloc parsed_url) "github.com"
            && Nat.eqb (List.length path_parts) 2
         then
           let owner := nth 0 path_parts EmptyString in
           if negb (PyStr.elem owner BLACKLISTED_OWNERS) then true else false
         else false)
  end.

(** The condition of the comprehension as a boolean. *)
Definition passes (href : string) : bool :=
  match is_valid_github_repo_url href with
  | Some true => true
  | _ => false
  end.

(** The expression of the comprehension: the target itself when it
    starts with [http], else the target behind [https://github.com]. *)
Definition link_of_href (href : string) : string :=
  if PyStr.startswith "http" href then href
  else ("https://github.com" ++ href)%string.

(** The list comprehension over [all_links]: the condition is evaluated
    on the raw [href] first, the expression only for the links that pass
    it; an exception of the condition ends the comprehension. *)
Fixpoint github_links_of (hrefs : list string) : option (list string) :=
  match hrefs with
  | [] => Some []
  | href :: rest =>
      match is_valid_github_repo_url href with
      | None => None
      | Some keep =>
          match github_links_of rest with
          | None => None
          | Some links =>
              Some (if keep then link_of_href href :: links else links)
          end
      end
  end.

(** [extract_github_links]; [None] when an exception leaves it. *)
Definition extract_github_links (url : string) : option (list string) :=
  let response := requests_get url in
  if negb (Z.eqb (status_code response) 200) then Some []
  else github_links_of (find_all_a_href (text response)).

End Extractor.

(** A page with a site-relative link, a scheme-relative link and an
    absolute link, and the targets its anchors hold. *)
Definition sample_page : Response :=
  mkResponse 200 [] "<ul> three anchors </ul>" None.

Definition sample_hrefs : list string :=
  ["/owner/repo"; "//github.com/owner/repo"; "https://github.com/rocq-prover/rocq"].

(** The reading of the specification in which relative targets are
    completed with the host of the scraped page before they are judged:
    [scheme://netloc] of the page, then the target. *)
Definition with_source_host (source : ParseResult) (href : string) : string :=
  (scheme source ++ "://" ++ netloc source ++ href)%string.

(** Under that reading every target without a host whose completed form
    qualifies appears, completed, in the output. *)
Definition relative_targets_completed (urlparse : string -> option ParseResult) : Prop :=
  forall (requests_get : string -> Response) (find_all_a_href : string -> list string)
         (u : string) (source : ParseResult) (href : string) (parsed : ParseResult),
    status_code (requests_get u) = 200%Z ->
    urlparse u = Some source ->
    In href (find_all_a_href (text (requests_get u))) ->
    urlparse href = Some parsed ->
    netloc parsed = EmptyString ->
    is_valid_github_repo_url urlparse (with_source_host source href) = Some true ->
    exists links,
      extract_github_links urlparse requests_get find_all_a_href u = Some links /\
      In (with_source_host source href) links.

(** ** Python dictionaries *)

(** A [dict] with string keys: the items in insertion order.  Assigning to
    a key that is present replaces its value in place; a new key goes to
    the end. *)
Module PyDict.
Section Dict.
Context {V : Type}.

Definition t : Type := list (string * V).

Definition empty : t := [].

(** [d.get(k)] *)
Fixpoint get (k : string) (d : t) : option V :=
  match d with
  | [] => None
  | (k', v) :: rest => if String.eqb k k' then Some v else get k rest
  end.

(** [d[k] = v] *)
Fixpoint set (k : string) (v : V) (d : t) : t :=
  match d with
  | [] => [(k, v)]
  | (k', v') :: rest =>
      if String.eqb k k' then (k, v) :: rest else (k', v') :: set k v rest
  end.

Definition keys (d : t) : list string := map fst d.

(** [dict(pairs)]: the items are assigned from left to right. *)
Definition of_pairs (pairs : list (string * V)) : t :=
  fold_left (fun d kv => set (fst kv) (snd kv) d) pairs empty.
End Dict.
Arguments t : clear implicits.
End PyDict.

(** ** The popularity fetcher ([awesome_scraper.py]) *)

(** A record of [repo_popularity]: the three values are whatever the API
    body holds under the three keys. *)
Record RepoRecord : Type := mkRepoRecord {
  rec_stars : json;
  rec_forks : json;
  rec_watchers : json
}.

(** What the fetcher does to the outside world. *)
Inductive Event : Type :=
| EvGet (url : string) (request_headers : list (string * string))
| EvSleep (seconds : Q).

(** One scripted exchange with the API: how long it takes, and the
    response, [None] when [requests.get] raises. *)
Record Exchange : Type := mkExchange {
  latency : Q;
  outcome : option Response
}.

(** The outside world of a fetcher run: the exchanges still to come (a
    request beyond the script raises), the clock read by [time.time()],
    the token found by [get_github_auth_token()], the events so far,
    oldest first, and the longest time, in whole seconds, that the sleep
    of the platform takes (CPython 3.11 on Linux adds the time to its
    monotonic clock, and the sum must fit 64 bits of nanoseconds too).
    The clock and the times are rationals: the rounding of float
    arithmetic is left out, its overflows are kept. *)
Record World : Type := mkWorld {
  network : list Exchange;
  now : Q;
  auth_token : option string;
  events : list Event;
  sleep_limit : N
}.

(** Either a value or an exception caught by [except Exception]. *)
Inductive Exc (A : Type) : Type :=
| Ok (a : A)
| Raised.
Arguments Ok {A} a.
Arguments Raised {A}.

(** Computations that act on the world and may raise; the effects made
    before an exception stay. *)
Definition M (A : Type) : Type := World -> Exc A * World.

Definition ret {A} (a : A) : M A := fun w => (Ok a, w).

Definition bind {A B} (m : M A) (f : A -> M B) : M B :=
  fun w => match m w with
           | (Ok a, w') => f a w'
           | (Raised, w') => (Raised, w')
           end.

Definition raise {A} : M A := fun w => (Raised, w).

Definition lift {A} (o : option A) : M A :=
  match o with
  | Some a => ret a
  | None => raise
  end.

Declare Scope fetch_scope.
Delimit Scope fetch_scope with fetch.
Notation "x <- m ;; k" := (bind m (fun x => k))
  (at level 61, m at next level, right associativity) : fetch_scope.

(** [requests.get(url, headers=request_headers)] *)
Definition requests_get_api (url : string) (request_headers : list (string * string))
  : M Response :=
  fun w =>
    let ev := events w ++ [EvGet url request_headers] in
    match network w with
    | [] => (Raised, mkWorld [] (now w) (auth_token w) ev (sleep_limit w))
    | x :: rest =>
        let w' := mkWorld rest (now w + latency x) (auth_token w) ev
                    (sleep_limit w) in
        match outcome x with
        | Some r => (Ok r, w')
        | None => (Raised, w')
        end
    end.

(** [time.time()] *)
Definition time_time : M Q := fun w => (Ok (now w), w).

(** [float(n)] of an [int], as the subtraction of a float from an [int]
    makes it: from [2^1024 - 2^970] on the nearest double is infinite and
    the conversion raises [OverflowError]. *)
Definition float_overflow : Z := (2 ^ 1024 - 2 ^ 970)%Z.

Definition float_of_int (n : Z) : option Q :=
  if (Z.abs n <? float_overflow)%Z then Some (inject_Z n) else None.

(** The times [time.sleep] takes: not negative ([ValueError]), less than
    [2^63] nanoseconds ([OverflowError]) and within the limit of the
    platform ([OSError]). *)
Definition can_sleep (w : World) (seconds : Q) : bool :=
  Qle_bool 0 seconds
  && negb (Qle_bool 9223372036854775808 (seconds * 1000000000))
  && Qle_bool seconds (inject_Z (Z.of_N (sleep_limit w))).

(** [time.sleep(seconds)] *)
Definition time_sleep (seconds : Q) : M unit :=
  fun w =>
    if can_sleep w seconds
    then (Ok tt, mkWorld (network w) (now w + seconds) (auth_token w)
                   (events w ++ [EvSleep seconds]) (sleep_limit w))
    else (Raised, w).

(** [response.headers.get(name)]: the headers of [requests] compare names
    without case. *)
Fixpoint headers_get (name : string) (hs : list (string * string)) : option string :=
  match hs with
  | [] => None
  | (k, v) :: rest =>
      if String.eqb (PyStr.lower k) (PyStr.lower name) then Some v
      else headers_get name rest
  end.

Section Fetcher.

(** [urllib.parse.urlparse]; [None] when it raises [ValueError]. *)
Variable urlparse : string -> option ParseResult.
(** [int(s)] on a string; [None] when it raises [ValueError]. *)
Variable int_of_str : string -> option Z.

(** [int(response.headers.get(name, default))]; [None] when [int]
    raises. *)
Definition header_int (response : Response) (name : string) (default : Z) : option Z :=
  match headers_get name (headers response) with
  | None => Some default
  | Some s => int_of_str s
  end.

Definition int_header (response : Response) (name : string) (default : Z) : M Z :=
  lift (header_int response name default).

(** [check_rate_limit] *)
Definition check_rate_limit (response : Response) : M bool :=
  (limit <- int_header response "X-RateLimit-Limit" 60 ;;
   remaining <- int_header response "X-RateLimit-Remaining" 0 ;;
   reset_time <- int_header response "X-RateLimit-Reset" 0 ;;
   if Z.eqb remaining 0 then
     t <- time_time ;;
     reset <- lift (float_of_int reset_time) ;;
     let sleep_time := Qmax (reset - t) 0 in
     _ <- time_sleep sleep_time ;;
     ret true
   else ret false)%fetch.

(** [d.get(key, default)] on the items of a JSON object: in an object
    read by the JSON decoder the last of several equal keys counts. *)
Definition field_or (items : list (string * json)) (key : string) (default : json)
  : json :=
  match PyDict.get key (PyDict.of_pairs items) with
  | Some v => v
  | None => default
  end.

(** [data.get(key, 0)]: only a JSON object has [get]. *)
Definition data_get (data : json) (key : string) (default : json) : M json :=
  match data with
  | JObject items => ret (field_or items key default)
  | _ => raise
  end.

Definition base_api_url : string := "https://api.github.com/repos".

(** [if response.status_code == 200: ... else: ...]: the record read from
    the body, or [None] for a status that only counts as a failure. *)
Definition read_metrics (response : Response) : M (option RepoRecord) :=
  (if Z.eqb (status_code response) 200 then
     data <- lift (json_body response) ;;
     stars <- data_get data "stargazers_count" (JInt 0) ;;
     forks <- data_get data "forks_count" (JInt 0) ;;
     watchers <- data_get data "watchers_count" (JInt 0) ;;
     ret (Some (mkRepoRecord stars forks watchers))
   else ret None)%fetch.

(** [f"{base_api_url}/{owner}/{repo_name}"] *)
Definition api_url_of (path_parts : list string) : string :=
  let owner := nth 0 path_parts EmptyString in
  let repo_name := nth 1 path_parts EmptyString in
  (base_api_url ++ "/" ++ owner ++ "/" ++ repo_name)%string.

(** The [try] block of the loop up to the bookkeeping of the failure
    counter: [Ok (Some r)] is the branch that stores the record [r],
    [Ok None] the two branches that only count a failure. *)
Definition fetch_metrics (request_headers : list (string * string)) (url : string)
  : M (option RepoRecord) :=
  (parsed_url <- lift (urlparse url) ;;
   let path_parts := PyStr.split "/" (PyStr.strip "/" (path parsed_url)) in
   if (2 <=? List.length path_parts)%nat then
     let api_url := api_url_of path_parts in
     response <- requests_get_api api_url request_headers ;;
     limited <- check_rate_limit response ;;
     response <- (if limited : bool
                  then requests_get_api api_url request_headers
                  else ret response) ;;
     read_metrics response
   else ret None)%fetch.

(** The state of the loop. *)
Record LoopState : Type := mkLoopState {
  repo_popularity : PyDict.t RepoRecord;
  consecutive_failures : Z
}.

(** One pass of the [for] loop: the new state and whether [break] is
    reached.  A stored record resets the counter; a counted failure and
    an exception add one to it; each of the three paths ends with the
    comparison against [max_failures]. *)
Definition iteration (max_failures : Z) (request_headers : list (string * string))
    (url : string) (st : LoopState) (w : World) : LoopState * bool * World :=
  match fetch_metrics request_headers url w with
  | (Ok (Some r), w') =>
      let st' := mkLoopState (PyDict.set url r (repo_popularity st)) 0 in
      (st', (max_failures <=? consecutive_failures st')%Z, w')
  | (Ok None, w') =>
      let st' := mkLoopState (repo_popularity st) (consecutive_failures st + 1) in
      (st', (max_failures <=? consecutive_failures st')%Z, w')
  | (Raised, w') =>
      let st' := mkLoopState (repo_popularity st) (consecutive_failures st + 1) in
      (st', (max_failures <=? consecutive_failures st')%Z, w')
  end.

(** [for url in github_urls: ...] *)
Fixpoint fetch_loop (max_failures : Z) (request_headers : list (string * string))
    (github_urls : list string) (st : LoopState) (w : World) : LoopState * World :=
  match github_urls with
  | [] => (st, w)
  | url :: rest =>
      let '(st', brk, w') := iteration max_failures request_headers url st w in
      if brk then (st', w')
      else fetch_loop max_failures request_headers rest st' w'
  end.

(** [headers = {}; if token: headers["Authorization"] = f"token {token}"]:
    an empty token is false. *)
Definition auth_headers (token : option string) : list (string * string) :=
  match token with
  | Some (String c rest) => [("Authorization", ("token " ++ String c rest)%string)]
  | _ => []
  end.

(** The record a pass stores, if it stores one. *)
Definition stored (res : Exc (option RepoRecord)) : option RepoRecord :=
  match res with
  | Ok (Some r) => Some r
  | _ => None
  end.

(** What each URL of the list leads to when the passes are made one after
    the other without a [break], and the world after them. *)
Fixpoint outcomes (request_headers : list (string * string))
    (github_urls : list string) (w : World) : list (option RepoRecord) :=
  match github_urls with
  | [] => []
  | url :: rest =>
      let '(res, w') := fetch_metrics request_headers url w in
      stored res :: outcomes request_headers rest w'
  end.

Fixpoint world_after (request_headers : list (string * string))
    (github_urls : list string) (w : World) : World :=
  match github_urls with
  | [] => w
  | url :: rest =>
      world_after request_headers rest (snd (fetch_metrics request_headers url w))
  end.

(** [get_github_repo_popularity] *)
Definition get_github_repo_popularity (github_urls : list string) (max_failures : Z)
    (w : World) : PyDict.t RepoRecord * World :=
  let request_headers := auth_headers (auth_token w) in
  let '(st, w') :=
    fetch_loop max_failures request_headers github_urls
      (mkLoopState PyDict.empty 0) w in
  (repo_popularity st, w').

End Fetcher.

(** The records of the successes among the passes made, assigned in
    order. *)
Definition store_all (passes_made : list (string * option RepoRecord))
    (d : PyDict.t RepoRecord) : PyDict.t RepoRecord :=
  fold_left (fun d p => match snd p with
                        | Some r => PyDict.set (fst p) r d
                        | None => d
                        end) passes_made d.

(** The number of failures at the head of a list of outcomes, and at its
    end: the length of the current run of consecutive failures. *)
Fixpoint leading_failures (outs : list (option RepoRecord)) : nat :=
  match outs with
  | None :: rest => S (leading_failures rest)
  | _ => O
  end.

Definition trailing_failures (outs : list (option RepoRecord)) : nat :=
  leading_failures (rev outs).

(** The events one pass of the loop may add: none, one request, or a
    request, a sleep of non-negative length and the same request again. *)
Inductive pass_events : list Event -> Prop :=
| pass_no_request : pass_events []
| pass_one_request api hdrs : pass_events [EvGet api hdrs]
| pass_retry api hdrs d :
    0 <= d -> pass_events [EvGet api hdrs; EvSleep d; EvGet api hdrs].

(** The world after the sleep of [check_rate_limit]. *)
Definition slept (reset_time : Z) (w : World) : World :=
  mkWorld (network w)
    (now w + Qmax (inject_Z reset_time - now w) 0)
    (auth_token w)
    (events w ++ [EvSleep (Qmax (inject_Z reset_time - now w) 0)])
    (sleep_limit w).

(** The reset times [check_rate_limit] can sleep up to: the subtraction
    and the sleep go through. *)
Definition reset_in_reach (reset_time : Z) (w : World) : bool :=
  (Z.abs reset_time <? float_overflow)%Z
  && can_sleep w (Qmax (inject_Z reset_time - now w) 0).

(** C7 as the specification states it: a response that reports zero
    remaining quota makes the pass sleep, for a time that is not
    negative, and send the same request once more. *)
Definition sleeps_and_retries
    (urlparse : string -> option ParseResult) (int_of_str : string -> option Z) : Prop :=
  forall hdrs u w parsed x rest response reset_time,
    urlparse u = Some parsed ->
    (2 <= List.length (PyStr.split "/" (PyStr.strip "/" (path parsed))))%nat ->
    network w = x :: rest ->
    outcome x = Some response ->
    header_int int_of_str response "X-RateLimit-Remaining" 0 = Some 0%Z ->
    header_int int_of_str response "X-RateLimit-Reset" 0 = Some reset_time ->
    exists d,
      0 <= d /\
      events (snd (fetch_metrics urlparse int_of_str hdrs u w))
      = events w ++
        [EvGet (api_url_of (PyStr.split "/" (PyStr.strip "/" (path parsed)))) hdrs;
         EvSleep d;
         EvGet (api_url_of (PyStr.split "/" (PyStr.strip "/" (path parsed)))) hdrs].

(** A non-negative integer, as the data model of the specification asks
    of each metric. *)
Definition nonneg_int (v : json) : Prop :=
  exists n : Z, v = JInt n /\ (0 <= n)%Z.

(** C9 as the specification states it: whatever the body, a stored record
    has three non-negative integers. *)
Definition records_are_nonnegative
    (urlparse : string -> option ParseResult) (int_of_str : string -> option Z) : Prop :=
  forall request_headers u w r w',
    fetch_metrics urlparse int_of_str request_headers u w = (Ok (Some r), w') ->
    nonneg_int (rec_stars r) /\ nonneg_int (rec_forks r) /\ nonneg_int (rec_watchers r).

(** Worlds to run the fetcher in.  [api_ok] answers 200 with quota left,
    [api_limited] answers 403 with no quota left until time 1700000100,
    [api_missing] answers 404. *)
Definition quota_headers (remaining reset : string) : list (string * string) :=
  [("X-RateLimit-Limit", "60"); ("X-RateLimit-Remaining", remaining);
   ("X-RateLimit-Reset", reset)].

Definition api_ok (body : json) : Exchange :=
  mkExchange (1 # 4) (Some (mkResponse 200 (quota_headers "59" "1700000100") "{...}" (Some body))).

Definition api_limited : Exchange :=
  mkExchange (1 # 4) (Some (mkResponse 403 (quota_headers "0" "1700000100") "{...}" (Some (JObject [])))).

(** No quota left until a time some three thousand years ahead. *)
Definition api_limited_far : Exchange :=
  mkExchange (1 # 4) (Some (mkResponse 403 (quota_headers "0" "99999999999") "{...}" (Some (JObject [])))).

Definition api_missing : Exchange :=
  mkExchange (1 # 4) (Some (mkResponse 404 (quota_headers "58" "1700000100") "{...}" (Some (JObject [])))).

Definition metrics_body (s f w : Z) : json :=
  JObject [("id", JInt 1); ("stargazers_count", JInt s); ("forks_count", JInt f);
           ("watchers_count", JInt w)].

(** A body with two of the three metrics. *)
Definition two_counts_body : json :=
  JObject [("stargazers_count", JInt 5); ("forks_count", JInt 2)].

(** A body whose metrics are not non-negative integers. *)
Definition odd_body : json :=
  JObject [("stargazers_count", JInt (-1)); ("forks_count", JNull);
           ("watchers_count", JString "many")].

Definition sample_repo_url : string := "https://github.com/rocq-prover/rocq".

Definition sample_api_url : string := "https://api.github.com/repos/rocq-prover/rocq".

Definition world_of (script : list Exchange) : World :=
  mkWorld script (inject_Z 1700000000) None [] 9000000000.

(** ** The [json] module: [json.dump(..., indent=4, ensure_ascii=False)] *)

Module JsonText.
Local Open Scope string_scope.

Definition dquote : ascii := "034"%char.
Definition backslash : ascii := "092"%char.
Definition newline : ascii := "010"%char.

Definition str1 (c : ascii) : string := String c EmptyString.

Definition hex_digit (n : N) : ascii :=
  if (n <? 10)%N then ascii_of_N (48 + n) else ascii_of_N (87 + n).

(** [ESCAPE_DCT]: the backslash, the quote and the control characters
    below 0x20; every other character is written as it is. *)
Definition escape_char (c : ascii) : string :=
  if Ascii.eqb c dquote then String backslash (str1 dquote)
  else if Ascii.eqb c backslash then String backslash (str1 backslash)
  else if Ascii.eqb c newline then String backslash "n"
  else if Ascii.eqb c "013" then String backslash "r"
  else if Ascii.eqb c "009" then String backslash "t"
  else if Ascii.eqb c "008" then String backslash "b"
  else if Ascii.eqb c "012" then String backslash "f"
  else if (N_of_ascii c <? 32)%N then
    String backslash
      (String "u" (String "0" (String "0"
         (String (hex_digit (N_of_ascii c / 16))
            (str1 (hex_digit (N_of_ascii c mod 16)))))))
  else str1 c.

Fixpoint escape (s : string) : string :=
  match s with
  | EmptyString => EmptyString
  | String c rest => escape_char c ++ escape rest
  end.

(** [encode_basestring] *)
Definition encode_basestring (s : string) : string :=
  String dquote (escape s ++ str1 dquote).

Fixpoint spaces (n : nat) : string :=
  match n with
  | O => EmptyString
  | S n' => String " " (spaces n')
  end.

(** ['\n' + _indent * _current_indent_level] *)
Definition newline_indent (indent level : nat) : string :=
  String newline (spaces (indent * level)).

(** The decimal form of an integer. *)
Definition intstr (z : Z) : string := NilZero.string_of_int (Z.to_int z).

(** [sys.get_int_max_str_digits()], which the programs leave at its
    default: the conversions between [int] and [str] raise [ValueError]
    for more digits, the sign not counted. *)
Definition int_max_str_digits : nat := 4300.

Definition int_digits (z : Z) : nat := String.length (intstr (Z.abs z)).

(** [int.__repr__]; [None] is its [ValueError]. *)
Definition int_repr (z : Z) : option string :=
  if (int_digits z <=? int_max_str_digits)%nat then Some (intstr z) else None.

(** The texts of the items of [l], one after the other. *)
Fixpoint concat_map {A : Type} (f : A -> string) (l : list A) : string :=
  match l with
  | [] => EmptyString
  | x :: rest => f x ++ concat_map f rest
  end.

(** [_iterencode] with an indent: the items of a non-empty list or dict
    stand one to a line, one level deeper, each but the first behind a
    comma; the key separator is a colon and a space. *)
Fixpoint iterencode (indent level : nat) (v : json) {struct v} : string :=
  match v with
  | JNull => "null"
  | JBool true => "true"
  | JBool false => "false"
  | JInt z => intstr z
  | JFloat literal => literal
  | JString s => encode_basestring s
  | JArray [] => "[]"
  | JArray (x :: xs) =>
      "[" ++ newline_indent indent (S level) ++ iterencode indent (S level) x
      ++ concat_map (fun y => "," ++ newline_indent indent (S level)
                              ++ iterencode indent (S level) y) xs
      ++ newline_indent indent level ++ "]"
  | JObject [] => "{}"
  | JObject (kx :: xs) =>
      "{" ++ newline_indent indent (S level)
      ++ encode_basestring (fst kx) ++ ": " ++ iterencode indent (S level) (snd kx)
      ++ concat_map (fun ky => "," ++ newline_indent indent (S level)
                               ++ encode_basestring (fst ky) ++ ": "
                               ++ iterencode indent (S level) (snd ky)) xs
      ++ newline_indent indent level ++ "}"
  end.

(** The text of a value none of whose integers is refused. *)
Definition dumps (indent : nat) (v : json) : string := iterencode indent 0 v.

(** What [for chunk in iterable: fp.write(chunk)] has written when it
    ends: the text, and [false] when [int.__repr__] raised and the chunks
    from that integer on are missing. *)
Definition Written : Type := string * bool.

Definition chunk (s : string) : Written := (s, true).

Definition and_then_write (a b : Written) : Written :=
  if snd a then (fst a ++ fst b, snd b) else a.

Fixpoint write_each {A : Type} (f : A -> Written) (l : list A) : Written :=
  match l with
  | [] => chunk EmptyString
  | x :: rest => and_then_write (f x) (write_each f rest)
  end.

(** [_iterencode] chunk by chunk. *)
Fixpoint iterwrite (indent level : nat) (v : json) {struct v} : Written :=
  match v with
  | JInt z =>
      match int_repr z with
      | Some s => chunk s
      | None => (EmptyString, false)
      end
  | JArray (x :: xs) =>
      and_then_write (chunk ("[" ++ newline_indent indent (S level)))
        (and_then_write (iterwrite indent (S level) x)
           (and_then_write
              (write_each
                 (fun y => and_then_write
                             (chunk ("," ++ newline_indent indent (S level)))
                             (iterwrite indent (S level) y)) xs)
              (chunk (newline_indent indent level ++ "]"))))
  | JObject (kx :: xs) =>
      and_then_write
        (chunk ("{" ++ newline_indent indent (S level)
                ++ encode_basestring (fst kx) ++ ": "))
        (and_then_write (iterwrite indent (S level) (snd kx))
           (and_then_write
              (write_each
                 (fun ky => and_then_write
                              (chunk ("," ++ newline_indent indent (S level)
                                      ++ encode_basestring (fst ky) ++ ": "))
                              (iterwrite indent (S level) (snd ky))) xs)
              (chunk (newline_indent indent level ++ "}"))))
  | _ => chunk (iterencode indent level v)
  end.

(** [json.dump(obj, fp, indent=indent, ensure_ascii=False)] on an empty
    file: the text the file holds afterwards, and whether the call
    returned. *)
Definition dump (indent : nat) (v : json) : Written := iterwrite indent 0 v.

(** *** [json.load] *)

Definition is_ws (c : ascii) : bool :=
  Ascii.eqb c " " || Ascii.eqb c "009" || Ascii.eqb c newline || Ascii.eqb c "013".

Fixpoint skip_ws (s : string) : string :=
  match s with
  | EmptyString => EmptyString
  | String c rest => if is_ws c then skip_ws rest else s
  end.

Definition hex_value (c : ascii) : option N :=
  let n := N_of_ascii c in
  if (48 <=? n)%N && (n <=? 57)%N then Some (n - 48)%N
  else if (97 <=? n)%N && (n <=? 102)%N then Some (n - 87)%N
  else if (65 <=? n)%N && (n <=? 70)%N then Some (n - 55)%N
  else None.

(** [_decode_uXXXX] *)
Definition hex4 (a b c d : ascii) : option N :=
  match hex_value a, hex_value b, hex_value c, hex_value d with
  | Some x, Some y, Some z, Some t => Some (((x * 16 + y) * 16 + z) * 16 + t)%N
  | _, _, _, _ => None
  end.

(** The UTF-8 bytes of a code point.  A lone surrogate has none: Python
    keeps it in the [str], this model rejects the text. *)
Definition utf8_encode (cp : N) : option string :=
  if (cp <? 128)%N then Some (str1 (ascii_of_N cp))
  else if (cp <? 2048)%N then
    Some (String (ascii_of_N (192 + cp / 64)) (str1 (ascii_of_N (128 + cp mod 64))))
  else if (cp <? 65536)%N then
    if (55296 <=? cp)%N && (cp <=? 57343)%N then None
    else Some (String (ascii_of_N (224 + cp / 4096))
                 (String (ascii_of_N (128 + (cp / 64) mod 64))
                    (str1 (ascii_of_N (128 + cp mod 64)))))
  else
    Some (String (ascii_of_N (240 + cp / 262144))
            (String (ascii_of_N (128 + (cp / 4096) mod 64))
               (String (ascii_of_N (128 + (cp / 64) mod 64))
                  (str1 (ascii_of_N (128 + cp mod 64)))))).

(** [BACKSLASH]: the one-character escapes. *)
Definition simple_escape (e : ascii) : option ascii :=
  if Ascii.eqb e dquote then Some dquote
  else if Ascii.eqb e backslash then Some backslash
  else if Ascii.eqb e "/" then Some "/"%char
  else if Ascii.eqb e "b" then Some "008"%char
  else if Ascii.eqb e "f" then Some "012"%char
  else if Ascii.eqb e "n" then Some newline
  else if Ascii.eqb e "r" then Some "013"%char
  else if Ascii.eqb e "t" then Some "009"%char
  else None.

Definition prepend (pre : string) (r : option (string * string))
  : option (string * string) :=
  match r with
  | Some (s, rest) => Some (pre ++ s, rest)
  | None => None
  end.

(** [scanstring] in strict mode, from the character after the opening
    quote: the decoded string and the text after the closing quote. *)
Fixpoint scanstring (s : string) : option (string * string) :=
  match s with
  | EmptyString => None
  | String c rest =>
      if Ascii.eqb c dquote then Some (EmptyString, rest)
      else if Ascii.eqb c backslash then
        match rest with
        | EmptyString => None
        | String e rest1 =>
            if Ascii.eqb e "u" then
              match rest1 with
              | String h1 (String h2 (String h3 (String h4 rest2))) =>
                  match hex4 h1 h2 h3 h4 with
                  | None => None
                  | Some uni =>
                      if (55296 <=? uni)%N && (uni <=? 56319)%N then
                        match rest2 with
                        | String b1 (String u1 (String l1 (String l2
                            (String l3 (String l4 rest3))))) =>
                            if Ascii.eqb b1 backslash && Ascii.eqb u1 "u" then
                              match hex4 l1 l2 l3 l4 with
                              | None => None
                              | Some uni2 =>
                                  if (56320 <=? uni2)%N && (uni2 <=? 57343)%N then
                                    match utf8_encode
                                            (65536 + (uni - 55296) * 1024
                                             + (uni2 - 56320))%N with
                                    | Some bytes => prepend bytes (scanstring rest3)
                                    | None => None
                                    end
                                  else None
                              end
                            else None
                        | _ => None
                        end
                      else
                        match utf8_encode uni with
                        | Some bytes => prepend bytes (scanstring rest2)
                        | None => None
                        end
                  end
              | _ => None
              end
            else
              match simple_escape e with
              | Some ch => prepend (str1 ch) (scanstring rest1)
              | None => None
              end
        end
      else if (N_of_ascii c <? 32)%N then None
      else prepend (str1 c) (scanstring rest)
  end.

(** The longest prefix of digits and what follows it. *)
Fixpoint span_digits (s : string) : string * string :=
  match s with
  | EmptyString => (EmptyString, EmptyString)
  | String c rest =>
      if PyStr.is_digit c
      then let '(d, r) := span_digits rest in (String c d, r)
      else (EmptyString, s)
  end.

(** The integer part of [NUMBER_RE]: [0] or a digit from 1 to 9 followed
    by digits. *)
Definition scan_int_part (s : string) : option (string * string) :=
  match s with
  | EmptyString => None
  | String c rest =>
      if Ascii.eqb c "0" then Some ("0", rest)
      else if PyStr.is_digit c then
        let '(d, r) := span_digits rest in Some (String c d, r)
      else None
  end.

(** The optional fraction of [NUMBER_RE]: a dot and at least one digit. *)
Definition scan_frac (s : string) : string * string :=
  match s with
  | String c rest =>
      if Ascii.eqb c "." then
        match span_digits rest with
        | (EmptyString, _) => (EmptyString, s)
        | (d, r) => (String c d, r)
        end
      else (EmptyString, s)
  | EmptyString => (EmptyString, s)
  end.

(** The optional exponent of [NUMBER_RE]. *)
Definition scan_exp (s : string) : string * string :=
  match s with
  | String c rest =>
      if Ascii.eqb c "e" || Ascii.eqb c "E" then
        let '(sign, rest1) :=
          match rest with
          | String g rest' =>
              if Ascii.eqb g "+" || Ascii.eqb g "-"
              then (str1 g, rest') else (EmptyString, rest)
          | EmptyString => (EmptyString, rest)
          end in
        match span_digits rest1 with
        | (EmptyString, _) => (EmptyString, s)
        | (d, r) => (String c (sign ++ d), r)
        end
      else (EmptyString, s)
  | EmptyString => (EmptyString, s)
  end.

(** A number: an [int] when it has neither fraction nor exponent, and
    then [int] refuses more than [int_max_str_digits] digits. *)
Definition scan_number (s : string) : option (json * string) :=
  let '(sign, s1) :=
    match s with
    | String c rest => if Ascii.eqb c "-" then ("-", rest) else (EmptyString, s)
    | EmptyString => (EmptyString, s)
    end in
  match scan_int_part s1 with
  | None => None
  | Some (digits, s2) =>
      let '(frac, s3) := scan_frac s2 in
      let '(exp, s4) := scan_exp s3 in
      match frac, exp with
      | EmptyString, EmptyString =>
          if (String.length digits <=? int_max_str_digits)%nat then
            match NilZero.int_of_string (sign ++ digits) with
            | Some d => Some (JInt (Z.of_int d), s4)
            | None => None
            end
          else None
      | _, _ => Some (JFloat (sign ++ digits ++ frac ++ exp), s4)
      end
  end.

(** [s] starts with [word]: the value and the text after the word. *)
Definition scan_word (word : string) (v : json) (s : string) : option (json * string) :=
  if String.prefix word s
  then Some (v, String.substring (String.length word)
                  (String.length s - String.length word) s)
  else None.

(** [scan_once], [JSONObject] and [JSONArray].  The decoder recurses
    into nested values; [fuel] bounds the depth of the nested calls, and
    [loads] starts with the length of the text.  An object
    becomes a [dict]: of several equal keys the last value counts. *)
Fixpoint scan_once (fuel : nat) (s : string) {struct fuel} : option (json * string) :=
  match fuel with
  | O => None
  | S fuel' =>
      match s with
      | EmptyString => None
      | String c rest =>
          if Ascii.eqb c dquote then
            match scanstring rest with
            | Some (str, r) => Some (JString str, r)
            | None => None
            end
          else if Ascii.eqb c "{" then
            match skip_ws rest with
            | String c1 r1 =>
                if Ascii.eqb c1 "}" then Some (JObject [], r1)
                else if Ascii.eqb c1 dquote then
                  match object_members fuel' r1 with
                  | Some (pairs, r) => Some (JObject (PyDict.of_pairs pairs), r)
                  | None => None
                  end
                else None
            | EmptyString => None
            end
          else if Ascii.eqb c "[" then
            match skip_ws rest with
            | String c1 r1 =>
                if Ascii.eqb c1 "]" then Some (JArray [], r1)
                else
                  match array_items fuel' (String c1 r1) with
                  | Some (vs, r) => Some (JArray vs, r)
                  | None => None
                  end
            | EmptyString => None
            end
          else if Ascii.eqb c "n" then scan_word "null" JNull s
          else if Ascii.eqb c "t" then scan_word "true" (JBool true) s
          else if Ascii.eqb c "f" then scan_word "false" (JBool false) s
          else
            match scan_number s with
            | Some r => Some r
            | None =>
                if Ascii.eqb c "N" then scan_word "NaN" (JFloat "NaN") s
                else if Ascii.eqb c "I" then scan_word "Infinity" (JFloat "Infinity") s
                else if Ascii.eqb c "-" then scan_word "-Infinity" (JFloat "-Infinity") s
                else None
            end
      end
  end

(** From the character after the opening quote of a key. *)
with object_members (fuel : nat) (s : string) {struct fuel}
  : option (list (string * json) * string) :=
  match fuel with
  | O => None
  | S fuel' =>
      match scanstring s with
      | None => None
      | Some (key, s1) =>
          match skip_ws s1 with
          | String c s2 =>
              if Ascii.eqb c ":" then
                match scan_once fuel' (skip_ws s2) with
                | None => None
                | Some (value, s3) =>
                    match skip_ws s3 with
                    | String d s4 =>
                        if Ascii.eqb d "}" then Some ([(key, value)], s4)
                        else if Ascii.eqb d "," then
                          match skip_ws s4 with
                          | String q s5 =>
                              if Ascii.eqb q dquote then
                                match object_members fuel' s5 with
                                | Some (pairs, r) => Some ((key, value) :: pairs, r)
                                | None => None
                                end
                              else None
                          | EmptyString => None
                          end
                        else None
                    | EmptyString => None
                    end
                end
              else None
          | EmptyString => None
          end
      end
  end

(** From the first character of an item. *)
with array_items (fuel : nat) (s : string) {struct fuel}
  : option (list json * string) :=
  match fuel with
  | O => None
  | S fuel' =>
      match scan_once fuel' s with
      | None => None
      | Some (value, s1) =>
          match skip_ws s1 with
          | String d s2 =>
              if Ascii.eqb d "]" then Some ([value], s2)
              else if Ascii.eqb d "," then
                match array_items fuel' (skip_ws s2) with
                | Some (vs, r) => Some (value :: vs, r)
                | None => None
                end
              else None
          | EmptyString => None
          end
      end
  end.

(** The UTF-8 form of the byte order mark. *)
Definition bom : string :=
  String (ascii_of_nat 239) (String (ascii_of_nat 187) (str1 (ascii_of_nat 191))).

(** [json.loads]; [None] is a [ValueError]: the [JSONDecodeError] of a
    text that is not JSON, or the refusal of an integer of too many
    digits. *)
Definition loads (s : string) : option json :=
  if String.prefix bom s then None
  else
    match scan_once (String.length s) (skip_ws s) with
    | Some (v, rest) =>
        match skip_ws rest with
        | EmptyString => Some v
        | String _ _ => None
        end
    | None => None
    end.

End JsonText.

(** ** The snapshot writer ([awesome_scraper.py]) *)

(** The files the two programs see: the text of each existing file, and
    the paths at which opening for writing fails. *)
Record FileSystem : Type := mkFileSystem {
  files : string -> option string;
  read_only : string -> bool
}.

Definition write_file (fs : FileSystem) (file_path content : string) : FileSystem :=
  mkFileSystem
    (fun p => if String.eqb p file_path then Some content else files fs p)
    (read_only fs).

(** The value of a record of [repo_popularity] as [json.dump] sees it. *)
Definition json_of_record (r : RepoRecord) : json :=
  JObject [("stars", rec_stars r); ("forks", rec_forks r); ("watchers", rec_watchers r)].

Definition json_of_data (data : PyDict.t RepoRecord) : json :=
  JObject (map (fun kv => (fst kv, json_of_record (snd kv))) data).

(** [save_to_json]: an exception is printed, not raised.  A failure to
    open the file leaves the files as they were; an exception of
    [json.dump] leaves the file with the text written before it. *)
Definition save_to_json (data : PyDict.t RepoRecord) (file_path : string)
    (fs : FileSystem) : FileSystem :=
  if read_only fs file_path then fs
  else write_file fs file_path (fst (JsonText.dump 4 (json_of_data data))).

(** ** The analyzer ([awesome_analyzer.py]) *)

(** A row of the table: the [url] column made from the index, and the
    three metric columns. *)
Record Row : Type := mkRow {
  url : string;
  stars : Z;
  forks : Z;
  watchers : Z
}.

(** The frames the analyzer works on.  [pd.DataFrame.from_dict({},
    orient="index")] has no column at all, so the frame of an empty
    snapshot has the [url] column only: [NoMetricColumns].  Every other
    frame here has the four columns; its row labels are not modelled (the
    table is printed with [index=False]). *)
Inductive DataFrame : Type :=
| NoMetricColumns
| Frame (rows : list Row).

Inductive Column : Type := Stars | Forks | Watchers.

Definition column_name (c : Column) : string :=
  match c with
  | Stars => "stars"
  | Forks => "forks"
  | Watchers => "watchers"
  end.

Definition cell (c : Column) (r : Row) : Z :=
  match c with
  | Stars => stars r
  | Forks => forks r
  | Watchers => watchers r
  end.

Inductive LoadError : Type :=
| FileNotFoundError
| ValueError
| NotIntegerRecords.

Inductive AnalyzerError : Type :=
| KeyError (column : string).

(** One row of [from_dict(data, orient="index")]: the record must hold
    exactly the three integer metrics. *)
Definition row_of_item (kv : string * json) : option Row :=
  match snd kv with
  | JObject fields =>
      match PyDict.get "stars" fields, PyDict.get "forks" fields,
            PyDict.get "watchers" fields with
      | Some (JInt s), Some (JInt f), Some (JInt w) =>
          if Nat.eqb (List.length fields) 3 then Some (mkRow (fst kv) s f w)
          else None
      | _, _, _ => None
      end
  | _ => None
  end.

Fixpoint rows_of_items (items : list (string * json)) : option (list Row) :=
  match items with
  | [] => Some []
  | kv :: rest =>
      match row_of_item kv, rows_of_items rest with
      | Some r, Some rs => Some (r :: rs)
      | _, _ => None
      end
  end.

(** [pd.DataFrame.from_dict(data, orient="index")], [reset_index] and the
    renaming of the index column to [url], for the snapshots this model
    covers: a JSON object whose values are records of three integers.
    Pandas builds frames with other column types from other data; they are
    reported as [NotIntegerRecords]. *)
Definition frame_of_json (data : json) : LoadError + DataFrame :=
  match data with
  | JObject [] => inr NoMetricColumns
  | JObject items =>
      match rows_of_items items with
      | Some rows => inr (Frame rows)
      | None => inl NotIntegerRecords
      end
  | _ => inl NotIntegerRecords
  end.

(** [load_json_data] *)
Definition load_json_data (file_path : string) (fs : FileSystem)
  : LoadError + DataFrame :=
  match files fs file_path with
  | None => inl FileNotFoundError
  | Some content =>
      match JsonText.loads content with
      | None => inl ValueError
      | Some data => frame_of_json data
      end
  end.

(** [df[name]] *)
Definition get_column (c : Column) (df : DataFrame) : AnalyzerError + list Z :=
  match df with
  | NoMetricColumns => inl (KeyError (column_name c))
  | Frame rows => inr (map (cell c) rows)
  end.

(** [df[mask]] for a boolean series [mask] aligned with the rows. *)
Fixpoint select_rows (rows : list Row) (mask : list bool) : list Row :=
  match rows, mask with
  | r :: rows', b :: mask' =>
      if b then r :: select_rows rows' mask' else select_rows rows' mask'
  | _, _ => []
  end.

(** [if bound is not None: df = df[df[name] >= bound]] (or [<=]). *)
Definition apply_bound (c : Column) (cmp : Z -> Z -> bool) (bound : option Z)
    (df : DataFrame) : AnalyzerError + DataFrame :=
  match bound with
  | None => inr df
  | Some b =>
      match df with
      | NoMetricColumns => inl (KeyError (column_name c))
      | Frame rows => inr (Frame (select_rows rows (map (fun v => cmp v b) (map (cell c) rows))))
      end
  end.

Definition and_then {E A B} (x : E + A) (f : A -> E + B) : E + B :=
  match x with
  | inl e => inl e
  | inr a => f a
  end.

(** The six keyword arguments of [filter_data]; [None] is Python's
    [None]. *)
Record Bounds : Type := mkBounds {
  min_stars : option Z;
  max_stars : option Z;
  min_forks : option Z;
  max_forks : option Z;
  min_watchers : option Z;
  max_watchers : option Z
}.

(** [filter_data] *)
Definition filter_data (df : DataFrame) (b : Bounds) : AnalyzerError + DataFrame :=
  and_then (apply_bound Stars Z.geb (min_stars b) df) (fun df =>
  and_then (apply_bound Stars Z.leb (max_stars b) df) (fun df =>
  and_then (apply_bound Forks Z.geb (min_forks b) df) (fun df =>
  and_then (apply_bound Forks Z.leb (max_forks b) df) (fun df =>
  and_then (apply_bound Watchers Z.geb (min_watchers b) df) (fun df =>
  apply_bound Watchers Z.leb (max_watchers b) df))))).

(** The mappings of the round trip: URL keys to triples of integers
    (stars, forks, watchers), the records the writer is given for them,
    and the associations a loaded table holds. *)
Definition record_of_metrics (m : Z * Z * Z) : RepoRecord :=
  let '(s, f, w) := m in mkRepoRecord (JInt s) (JInt f) (JInt w).

Definition records_of (d : list (string * (Z * Z * Z))) : PyDict.t RepoRecord :=
  map (fun kv => (fst kv, record_of_metrics (snd kv))) d.

Definition associations (df : DataFrame) : list (string * (Z * Z * Z)) :=
  match df with
  | NoMetricColumns => []
  | Frame rows => map (fun r => (url r, (stars r, forks r, watchers r))) rows
  end.

Definition row_of_metrics (kv : string * (Z * Z * Z)) : Row :=
  let '(k, (s, f, w)) := kv in mkRow k s f w.

(** The integers [int.__repr__] and [int] take: at most
    [int_max_str_digits] digits. *)
Definition printable (z : Z) : Prop :=
  (JsonText.int_digits z <=? JsonText.int_max_str_digits)%nat = true.

Definition printable_metrics (m : Z * Z * Z) : Prop :=
  let '(s, f, w) := m in printable s /\ printable f /\ printable w.

(** C6 as the specification states it: every mapping from distinct URL
    keys to triples of integers comes back from the file it is written
    to. *)
Definition snapshot_comes_back : Prop :=
  forall (d : list (string * (Z * Z * Z))) (file_path : string) (fs : FileSystem),
    NoDup (map fst d) ->
    read_only fs file_path = false ->
    exists df,
      load_json_data file_path (save_to_json (records_of d) file_path fs) = inr df /\
      associations df = d.

(** A mapping with a count of 4301 digits. *)
Definition huge_metrics : list (string * (Z * Z * Z)) :=
  [("a/b", (10 ^ 4300, 2, 1)%Z)].

(** The mapping of the example in the specification, and a file system
    without files. *)
Definition sample_metrics : list (string * (Z * Z * Z)) :=
  [("a/b", (10, 2, 1)%Z); ("c/d", (5, 9, 0)%Z)].

Definition empty_fs : FileSystem := mkFileSystem (fun _ => None) (fun _ => false).

(** What may follow a value in the text [json.dump] writes: a comma or a
    line break. *)
Definition value_end (rest : string) : Prop :=
  exists r, rest = String "," r \/ rest = String JsonText.newline r.

(** A rest that does not start with a digit. *)
Definition no_digit_head (rest : string) : Prop :=
  match rest with
  | EmptyString => True
  | String c _ => PyStr.is_digit c = false
  end.

(** The text of the members of an object from the character after the
    opening quote of the first key, up to the closing brace and [close]. *)
Fixpoint members_text (indent level : nat) (kx : string * json)
    (items : list (string * json)) (close : string) {struct items} : string :=
  (JsonText.escape (fst kx) ++
   String JsonText.dquote (String ":" (String " "
     (JsonText.iterencode indent (S level) (snd kx) ++
      match items with
      | [] => JsonText.newline_indent indent level ++ String "}" close
      | ky :: items' =>
          String "," (JsonText.newline_indent indent (S level) ++
                      String JsonText.dquote (members_text indent level ky items' close))
      end))))%string.

(** The value of an item written at depth [S level] is read back, given
    [need] units of fuel. *)
Definition value_reads_back (indent level need : nat) (kx : string * json) : Prop :=
  forall fuel rest,
    (need <= fuel)%nat -> value_end rest ->
    JsonText.scan_once fuel
      (JsonText.skip_ws (JsonText.iterencode indent (S level) (snd kx) ++ rest)%string)
    = Some (snd kx, rest).

(** The item of the snapshot object written for one association. *)
Definition item_of (kv : string * (Z * Z * Z)) : string * json :=
  (fst kv, json_of_record (record_of_metrics (snd kv))).

(** The rule the specification gives for the filter: a row is kept when
    it meets every bound that is given, each as an inclusive comparison. *)
Definition meets_min (bound : option Z) (v : Z) : bool :=
  match bound with
  | None => true
  | Some m => (m <=? v)%Z
  end.

Definition meets_max (bound : option Z) (v : Z) : bool :=
  match bound with
  | None => true
  | Some m => (v <=? m)%Z
  end.

Definition within (b : Bounds) (r : Row) : bool :=
  meets_min (min_stars b) (stars r) && meets_max (max_stars b) (stars r)
  && meets_min (min_forks b) (forks r) && meets_max (max_forks b) (forks r)
  && meets_min (min_watchers b) (watchers r) && meets_max (max_watchers b) (watchers r).

(** [tighter_min lo lo']: the lower bound [lo'] is [lo], or [lo] raised, or
    given where [lo] was not.  [tighter_max] is the same for an upper
    bound that is lowered. *)
Definition tighter_min (lo lo' : option Z) : Prop :=
  match lo, lo' with
  | None, _ => True
  | Some m, Some m' => (m <= m')%Z
  | Some _, None => False
  end.

Definition tighter_max (hi hi' : option Z) : Prop :=
  match hi, hi' with
  | None, _ => True
  | Some m, Some m' => (m' <= m)%Z
  | Some _, None => False
  end.

Definition tightens (b b' : Bounds) : Prop :=
  tighter_min (min_stars b) (min_stars b') /\
  tighter_max (max_stars b) (max_stars b') /\
  tighter_min (min_forks b) (min_forks b') /\
  tighter_max (max_forks b) (max_forks b') /\
  tighter_min (min_watchers b) (min_watchers b') /\
  tighter_max (max_watchers b) (max_watchers b').

(** [a[indexer]]: the items of [a] at the positions of [indexer]. *)
Fixpoint take {A} (a : list A) (indexer : list nat) : list A :=
  match indexer with
  | [] => []
  | i :: rest =>
      match nth_error a i with
      | Some x => x :: take a rest
      | None => take a rest
      end
  end.

Section Sorting.

(** [numpy.argsort] of an integer array with the kind the caller asks
    for: [sort_data] passes none, so pandas asks for its default,
    [quicksort]. *)
Variable argsort : list Z -> list nat.

(** [pandas.core.sorting.nargsort] on a column without missing values:
    for a descending sort the values and their positions are reversed,
    sorted ascending, and the result is reversed again. *)
Definition nargsort (items : list Z) (ascending : bool) : list nat :=
  let idx := seq 0 (List.length items) in
  if ascending then take idx (argsort items)
  else rev (take (rev idx) (argsort (rev items))).

(** [sort_data]: [df.sort_values(by=sort_by, ascending=ascending)] *)
Definition sort_data (df : DataFrame) (sort_by : Column) (ascending : bool)
  : AnalyzerError + DataFrame :=
  match df with
  | NoMetricColumns => inl (KeyError (column_name sort_by))
  | Frame rows =>
      inr (Frame (take rows (nargsort (map (cell sort_by) rows) ascending)))
  end.

End Sorting.

(** A sorting kernel to run [sort_data] with: it inserts the positions
    from the last to the first into a list kept sorted by value, each
    before the positions of equal value. *)
Fixpoint insert_position (before : Z -> Z -> bool) (items : list Z) (i : nat)
    (sorted : list nat) : list nat :=
  match sorted with
  | [] => [i]
  | j :: rest =>
      if before (nth i items 0%Z) (nth j items 0%Z) then i :: j :: rest
      else j :: insert_position before items i rest
  end.

Definition argsort_by (before : Z -> Z -> bool) (items : list Z) : list nat :=
  fold_right (insert_position before items) [] (seq 0 (List.length items)).

Definition insertion_argsort : list Z -> list nat := argsort_by Z.leb.

(** What [numpy.argsort] promises for every kind: [q] holds each position
    of [items] once, and the values read in the order of [q] do not
    decrease. *)
Fixpoint nondecreasing (l : list Z) : bool :=
  match l with
  | [] => true
  | x :: rest =>
      match rest with
      | [] => true
      | y :: _ => (x <=? y)%Z && nondecreasing rest
      end
  end.

Definition is_permutation_of_range (q : list nat) (n : nat) : bool :=
  Nat.eqb (List.length q) n
  && forallb (fun i => existsb (Nat.eqb i) q) (seq 0 n).

Definition is_argsort (items : list Z) (q : list nat) : bool :=
  is_permutation_of_range q (List.length items) && nondecreasing (take items q).

(** What a stable kind promises on top: positions of equal value follow
    each other in increasing order. *)
Fixpoint ties_in_order (items : list Z) (q : list nat) : bool :=
  match q with
  | [] => true
  | i :: rest =>
      match rest with
      | [] => true
      | j :: _ =>
          (negb (nth i items 0 =? nth j items 0)%Z || (i <? j)%nat)
          && ties_in_order items rest
      end
  end.

(** The value at a position of the column. *)
Definition key_at (items : list Z) (i : nat) : Z := nth i items 0%Z.

(** The order by value, then by position. *)
Definition lex_lt (items : list Z) (i j : nat) : Prop :=
  (nth i items 0 < nth j items 0)%Z \/
  (nth i items 0%Z = nth j items 0%Z /\ (i < j)%nat).

(** The column an [argsort] is asked to sort: the values of the sort key,
    reversed for a descending sort. *)
Definition kernel_input (rows : list Row) (sort_by : Column) (ascending : bool)
  : list Z :=
  if ascending then map (cell sort_by) rows else rev (map (cell sort_by) rows).

(** The order the specification asks of the sorted column. *)
Definition ordered_by (sort_by : Column) (ascending : bool) (rows : list Row) : Prop :=
  if ascending then Sorted Z.le (map (cell sort_by) rows)
  else Sorted Z.ge (map (cell sort_by) rows).

(** Rows of equal key keep their relative order: for every value, the rows
    with that key are the same list before and after. *)
Definition ties_keep_order (sort_by : Column) (rows sorted : list Row) : Prop :=
  forall v : Z,
    filter (fun r => (cell sort_by r =? v)%Z) sorted
    = filter (fun r => (cell sort_by r =? v)%Z) rows.

(** A kernel that keeps the promise of [numpy.argsort] on every input. *)
Definition sorting_kernel (argsort : list Z -> list nat) : Prop :=
  forall items, is_argsort items (argsort items) = true.

(** A run of four URLs against an API that answers the first, misses the
    next two and would answer the fourth. *)
Definition four_urls : list string :=
  ["https://github.com/rocq-prover/rocq"; "https://github.com/a/gone";
   "https://github.com/b/gone"; "https://github.com/rocq-community/coq-art"].

Definition four_exchanges : list Exchange :=
  [api_ok (metrics_body 5 2 5); api_missing; api_missing; api_ok (metrics_body 9 9 9)].

(** The table of the example in the specification, and one with a tie. *)
Definition sample_rows : list Row :=
  [mkRow "a/b" 10 2 1; mkRow "c/d" 5 9 0].

Definition tied_rows : list Row :=
  [mkRow "a/b" 7 2 1; mkRow "c/d" 7 9 0; mkRow "e/f" 3 1 1].

Definition no_bounds : Bounds := mkBounds None None None None None None.

Definition stars_from_6 : Bounds := mkBounds (Some 6%Z) None None None None None.

(** A model of [int(s)] on plain decimal strings (an optional sign and
    digits), to run the fetcher with; the theorems hold for every
    [int_of_str]. *)
Definition decimal_int (s : string) : option Z :=
  match s with
  | EmptyString => None
  | _ => option_map Z.of_int (NilZero.int_of_string s)
  end.

(** ** The analysis run ([main] of [awesome_analyzer.py]) *)

(** The parsed command line: the input path, [--sort-by] (one of the
    three choices, [stars] when absent), [--ascending] and the six
    bounds. *)
Record AnalyzerArgs : Type := mkAnalyzerArgs {
  args_input : string;
  args_sort_by : Column;
  args_ascending : bool;
  args_bounds : Bounds
}.

(** The exception that ends an analysis run. *)
Inductive AnalysisError : Type :=
| LoadFailure (e : LoadError)
| FrameFailure (e : AnalyzerError).

(** [main] up to the frame it prints with [to_string(index=False)]: load,
    filter, sort.  Nothing is caught: the first exception ends the run. *)
Definition analyzer_main (argsort : list Z -> list nat) (args : AnalyzerArgs)
    (fs : FileSystem) : AnalysisError + DataFrame :=
  match load_json_data (args_input args) fs with
  | inl e => inl (LoadFailure e)
  | inr df =>
      match filter_data df (args_bounds args) with
      | inl e => inl (FrameFailure e)
      | inr df =>
          match sort_data argsort df (args_sort_by args) (args_ascending args) with
          | inl e => inl (FrameFailure e)
          | inr df => inr df
          end
      end
  end.

(** The rows of a frame. *)
Definition frame_rows (df : DataFrame) : list Row :=
  match df with
  | NoMetricColumns => []
  | Frame rows => rows
  end.

(** ** Further notions about a fetcher run *)

(** The record of the last success for [u] among the passes made. *)
Fixpoint last_success (u : string) (passes_made : list (string * option RepoRecord))
  : option RepoRecord :=
  match passes_made with
  | [] => None
  | p :: rest =>
      match last_success u rest with
      | Some r => Some r
      | None => if String.eqb u (fst p) then snd p else None
      end
  end.

(** An event of a run that keeps to the API: a request under
    [base_api_url] with the headers of the run, or a sleep that is not
    negative. *)
Definition api_event (request_headers : list (string * string)) (e : Event) : Prop :=
  match e with
  | EvGet u h =>
      h = request_headers /\ String.prefix (base_api_url ++ "/")%string u = true
  | EvSleep d => 0 <= d
  end.

(** ** [pathlib] on POSIX, as far as the scraper uses it *)

Module PosixPath.

(** [posixpath.join(a, b)] *)
Definition join (a b : string) : string :=
  if PyStr.startswith "/" b then b
  else if String.eqb a EmptyString
          || match PyStr.last_char a with
             | Some c => Ascii.eqb c "/"
             | None => false
             end
       then (a ++ b)%string
       else (a ++ "/" ++ b)%string.

(** [posixpath.splitroot]: the root ([''], ['/'] or, for exactly two
    leading slashes, ['//']) and the rest. *)
Definition splitroot (p : string) : string * string :=
  match p with
  | EmptyString => (EmptyString, p)
  | String c1 rest1 =>
      if Ascii.eqb c1 "/" then
        match rest1 with
        | EmptyString => ("/", rest1)
        | String c2 rest2 =>
            if Ascii.eqb c2 "/" then
              match rest2 with
              | EmptyString => ("//", rest2)
              | String c3 _ =>
                  if Ascii.eqb c3 "/" then ("/", rest1) else ("//", rest2)
              end
            else ("/", rest1)
        end
      else (EmptyString, p)
  end.

(** The parts of the rest: its segments but the empty ones and the
    dots. *)
Definition parts (rel : string) : list string :=
  filter (fun x => negb (String.eqb x EmptyString) && negb (String.eqb x "."))
    (PyStr.split "/" rel).

(** [str(PurePosixPath(p))] *)
Definition str (p : string) : string :=
  let '(root, rel) := splitroot p in
  match root, parts rel with
  | EmptyString, [] => "."
  | _, tail => (root ++ String.concat "/" tail)%string
  end.

(** [str(Path(a) / b)] *)
Definition str_joined (a b : string) : string := str (join a b).

End PosixPath.

(** ** The rest of the scraper ([awesome_scraper.py]) *)

(** The decoded output of the GitHub CLI: a [str] as the list of its code
    points. *)
Module PyText.

Definition t : Type := list N.

(** The code points of an ASCII literal. *)
Definition of_string (s : string) : t := map N_of_ascii (list_ascii_of_string s).

(** [c.isspace()], the characters [str.strip()] removes: the ASCII blanks
    and separators, and the blanks beyond ASCII (U+0085, U+00A0, U+1680,
    U+2000 to U+200A, U+2028, U+2029, U+202F, U+205F, U+3000). *)
Definition is_space (c : N) : bool :=
  ((9 <=? c) && (c <=? 13) || (28 <=? c) && (c <=? 32)
   || (c =? 133) || (c =? 160) || (c =? 5760)
   || (8192 <=? c) && (c <=? 8202)
   || (c =? 8232) || (c =? 8233) || (c =? 8239) || (c =? 8287)
   || (c =? 12288))%N.

(** [s.lstrip()] *)
Fixpoint lstrip (s : t) : t :=
  match s with
  | [] => []
  | c :: rest => if is_space c then lstrip rest else s
  end.

(** [s.rstrip()] *)
Fixpoint rstrip (s : t) : t :=
  match s with
  | [] => []
  | c :: rest =>
      match rstrip rest with
      | [] => if is_space c then [] else [c]
      | b :: r => c :: b :: r
      end
  end.

(** [s.strip()] *)
Definition strip (s : t) : t := rstrip (lstrip s).

(** [s.startswith(p)] *)
Fixpoint startswith (p s : t) : bool :=
  match p, s with
  | [], _ => true
  | _ :: _, [] => false
  | a :: p', b :: s' => (a =? b)%N && startswith p' s'
  end.

(** [s.split(sep, 1)[1]]; [None] is the [IndexError] of a text without
    [sep]. *)
Fixpoint after_first (sep : N) (s : t) : option t :=
  match s with
  | [] => None
  | c :: rest => if (c =? sep)%N then Some rest else after_first sep rest
  end.

End PyText.

(** What running [gh auth status --show-token] with [subprocess.run]
    gives: the program is not there ([FileNotFoundError]); another
    exception, which the function does not catch ([PermissionError] and
    other errors of starting the program, [UnicodeDecodeError] for an
    output that is no text); or the return code and the lines of the
    output ([result.stdout.splitlines()]). *)
Inductive GhRun : Type :=
| GhNotFound
| GhRaised
| GhExit (returncode : Z) (stdout_lines : list PyText.t).

Definition token_mark : PyText.t := PyText.of_string "- Token:".

Definition colon : N := 58.

(** The loop over the lines: the first line that starts, once stripped,
    with [- Token:] ends it. *)
Fixpoint token_of_lines (lines : list PyText.t) : Exc (option PyText.t) :=
  match lines with
  | [] => Ok None
  | line :: rest =>
      if PyText.startswith token_mark (PyText.strip line) then
        match PyText.after_first colon line with
        | Some text => Ok (Some (PyText.strip text))
        | None => Raised
        end
      else token_of_lines rest
  end.

(** [get_github_auth_token]; [Raised] is an exception other than the
    [FileNotFoundError] the function catches. *)
Definition get_github_auth_token (gh : GhRun) : Exc (option PyText.t) :=
  match gh with
  | GhNotFound => Ok None
  | GhRaised => Raised
  | GhExit returncode lines =>
      if Z.eqb returncode 0 then token_of_lines lines else Ok None
  end.

(** [generate_output_path_from_url]; [None] when [urlparse] raises. *)
Definition generate_output_path_from_url
    (urlparse : string -> option ParseResult) (u : string) : option string :=
  match urlparse u with
  | None => None
  | Some parsed_url =>
      Some (PosixPath.str_joined (netloc parsed_url)
              (PyStr.strip "/" (path parsed_url)) ++ ".json")%string
  end.

(** The parsed command line of the scraper: the page, [--output] and
    [--max-failures]. *)
Record ScraperArgs : Type := mkScraperArgs {
  sargs_url : string;
  sargs_output : option string;
  sargs_max_failures : Z
}.

Section ScraperMain.

Variable urlparse : string -> option ParseResult.
Variable requests_get : string -> Response.
Variable find_all_a_href : string -> list string.
Variable int_of_str : string -> option Z.

(** [args.output if args.output else generate_output_path_from_url(args.url)]:
    an empty [--output] is false. *)
Definition output_path_of (args : ScraperArgs) : option string :=
  match sargs_output args with
  | Some (String c rest) => Some (String c rest)
  | _ => generate_output_path_from_url urlparse (sargs_url args)
  end.

(** [main]: the files and the world after the run; [Raised] when an
    exception ends it (nothing is caught here), with the world as the
    exception leaves it. *)
Definition scraper_main (args : ScraperArgs) (w : World) (fs : FileSystem)
  : Exc FileSystem * World :=
  match extract_github_links urlparse requests_get find_all_a_href (sargs_url args) with
  | None => (Raised, w)
  | Some [] => (Ok fs, w)
  | Some (link :: links) =>
      let '(popularity_data, w') :=
        get_github_repo_popularity urlparse int_of_str (link :: links)
          (sargs_max_failures args) w in
      match output_path_of args with
      | None => (Raised, w')
      | Some output_path => (Ok (save_to_json popularity_data output_path fs), w')
      end
  end.

End ScraperMain.

(** A path segment that [pathlib] keeps as it is. *)
Definition plain_segment (s : string) : Prop :=
  s <> EmptyString /\ s <> "." /\ PyStr.mem "/" s = false.

(** The output of an authenticated GitHub CLI; the token line has a
    no-break space before it and after it. *)
Definition gh_status_lines : list PyText.t :=
  [PyText.of_string "github.com";
   (160 :: PyText.of_string " - Token: gho_ab:cd " ++ [160])%N%list;
   PyText.of_string "  - Token scopes: repo"].

(** A page that answers every request with three anchors, two of them
    repositories, and the interface answering each with its metrics. *)
Definition page_of_two (_ : string) : Response := sample_page.

Definition hrefs_of_two (_ : string) : list string :=
  ["/owner/repo"; "https://github.com/rocq-prover/rocq";
   "https://github.com/rocq-community/coq-art/"].

Definition two_exchanges : list Exchange :=
  [api_ok (metrics_body 5 2 5); api_ok (metrics_body 9 9 9)].

Definition two_metrics : list (string * (Z * Z * Z)) :=
  [("https://github.com/rocq-prover/rocq", (5, 2, 5)%Z);
   ("https://github.com/rocq-community/coq-art/", (9, 9, 9)%Z)].

(* ================================================================== *)
(** * Part II. Properties *)
(* ================================================================== *)

(** ** Strings *)

Module PyStrFacts.
Import PyStr.

Lemma lstrip_head chars s a r :
  lstrip chars s = String a r -> mem a chars = false.
Proof.
  induction s as [|c s IH]; simpl; [discriminate|].
  destruct (mem c chars) eqn:E; [exact IH|].
  intros H; injection H as -> _; exact E.
Qed.

Lemma rstrip_head chars s a r :
  rstrip chars s = String a r -> exists r', s = String a r'.
Proof.
  destruct s as [|c s]; simpl; [discriminate|].
  destruct (rstrip chars s) as [|b t].
  - destruct (mem c chars); [discriminate|].
    intros H; injection H as -> _; eauto.
  - intros H; injection H as -> _; eauto.
Qed.

Lemma rstrip_last chars s a :
  last_char (rstrip chars s) = Some a -> mem a chars = false.
Proof.
  induction s as [|c s IH]; simpl; [discriminate|].
  destruct (rstrip chars s) as [|b t] eqn:E.
  - destruct (mem c chars) eqn:M; simpl; [discriminate|].
    intros H; injection H as <-; exact M.
  - intros H; apply IH. exact H.
Qed.

Lemma strip_head chars s a r :
  strip chars s = String a r -> mem a chars = false.
Proof.
  unfold strip; intros H.
  destruct (rstrip_head _ _ _ _ H) as [r' E].
  exact (lstrip_head _ _ _ _ E).
Qed.

Lemma strip_last chars s a :
  last_char (strip chars s) = Some a -> mem a chars = false.
Proof. apply rstrip_last. Qed.

Lemma split_nonnil sep s : split sep s <> [].
Proof.
  induction s as [|c s IH]; simpl; [discriminate|].
  destruct (Ascii.eqb c sep); [discriminate|].
  destruct (split sep s); [contradiction|discriminate].
Qed.

(** An empty first field: the string is empty or starts with the
    separator. *)
Lemma split_head_empty sep s t :
  split sep s = EmptyString :: t ->
  s = EmptyString \/ exists r, s = String sep r.
Proof.
  destruct s as [|c s]; simpl; [now left|].
  destruct (Ascii.eqb_spec c sep) as [->|_]; [right; eauto|].
  destruct (split sep s); discriminate.
Qed.

(** An empty last field: the string is empty or ends with the
    separator. *)
Lemma split_last_empty sep s :
  last (split sep s) (String sep EmptyString) = EmptyString ->
  s = EmptyString \/ last_char s = Some sep.
Proof.
  induction s as [|c s IH]; simpl; [now left|].
  destruct (Ascii.eqb_spec c sep) as [->|N].
  - intros H. right.
    destruct (split sep s) as [|h t] eqn:E; [now destruct (split_nonnil sep s)|].
    destruct (IH H) as [->|L]; [reflexivity|].
    destruct s; [discriminate|exact L].
  - destruct (split sep s) as [|h t] eqn:E; [now destruct (split_nonnil sep s)|].
    destruct t as [|h' t'].
    + simpl. discriminate.
    + intros H. right.
      assert (H' : last (h :: h' :: t') (String sep EmptyString) = EmptyString)
        by exact H.
      destruct (IH H') as [->|L]; [discriminate|].
      destruct s; [discriminate|exact L].
Qed.

(** Exactly two fields of a stripped path are both non-empty. *)
Lemma split_strip_two p owner repo :
  split "/" (strip "/" p) = [owner; repo] ->
  owner <> EmptyString /\ repo <> EmptyString.
Proof.
  intros H; split; intros ->.
  - destruct (split_head_empty _ _ _ H) as [E|[r E]].
    + rewrite E in H; discriminate.
    + pose proof (strip_head _ _ _ _ E) as M. discriminate.
  - assert (L : last (split "/" (strip "/" p)) (String "/" EmptyString) = EmptyString)
      by (rewrite H; reflexivity).
    destruct (split_last_empty _ _ L) as [E|E].
    + rewrite E in H; discriminate.
    + pose proof (strip_last _ _ _ E) as M. discriminate.
Qed.

Lemma elem_In x l : elem x l = true <-> In x l.
Proof.
  unfold elem. rewrite existsb_exists. split.
  - intros [y [Hy E]]. apply String.eqb_eq in E. now subst.
  - intros H. exists x. split; [exact H|apply String.eqb_refl].
Qed.

End PyStrFacts.

(** ** The link extractor *)

Section ExtractorFacts.

Variable urlparse : string -> option ParseResult.
Variable requests_get : string -> Response.
Variable find_all_a_href : string -> list string.

Lemma is_valid_true_inv u :
  is_valid_github_repo_url urlparse u = Some true ->
  exists parsed owner repo,
    urlparse u = Some parsed /\ netloc parsed = "github.com" /\
    PyStr.split "/" (PyStr.strip "/" (path parsed)) = [owner; repo] /\
    PyStr.elem owner BLACKLISTED_OWNERS = false.
Proof.
  unfold is_valid_github_repo_url.
  destruct (urlparse u) as [p|]; [|discriminate].
  destruct (String.eqb_spec (netloc p) "github.com") as [Hn|]; [|discriminate].
  destruct (PyStr.split "/" (PyStr.strip "/" (path p))) as [|a [|b [|c t]]] eqn:E;
    try discriminate.
  cbn [andb List.length Nat.eqb nth].
  destruct (PyStr.elem a BLACKLISTED_OWNERS) eqn:B; [discriminate|].
  intros _. exists p, a, b. auto.
Qed.

Lemma is_valid_true_intro u parsed owner repo :
  urlparse u = Some parsed -> netloc parsed = "github.com" ->
  PyStr.split "/" (PyStr.strip "/" (path parsed)) = [owner; repo] ->
  PyStr.elem owner BLACKLISTED_OWNERS = false ->
  is_valid_github_repo_url urlparse u = Some true.
Proof.
  unfold is_valid_github_repo_url. intros -> -> -> B.
  cbn [List.length Nat.eqb nth]. rewrite String.eqb_refl.
  cbn [andb]. now rewrite B.
Qed.

(** A link without a host does not pass. *)
Lemma is_valid_no_host u parsed :
  urlparse u = Some parsed -> netloc parsed = EmptyString ->
  is_valid_github_repo_url urlparse u = Some false.
Proof.
  unfold is_valid_github_repo_url. intros -> ->. reflexivity.
Qed.

(** The comprehension, when no exception leaves it, is a filter on the
    raw targets followed by a map. *)
Lemma github_links_of_filter_map hrefs links :
  github_links_of urlparse hrefs = Some links ->
  links = map link_of_href (filter (passes urlparse) hrefs).
Proof.
  revert links. induction hrefs as [|h hrefs IH]; simpl; intros links.
  - now intros [= <-].
  - unfold passes at 1.
    destruct (is_valid_github_repo_url urlparse h) as [keep|]; [|discriminate].
    destruct (github_links_of urlparse hrefs) as [ls|]; [|discriminate].
    intros [= <-]. rewrite (IH ls eq_refl).
    now destruct keep.
Qed.

Lemma extract_github_links_ok u links :
  status_code (requests_get u) = 200%Z ->
  extract_github_links urlparse requests_get find_all_a_href u = Some links ->
  links = map link_of_href (filter (passes urlparse) (find_all_a_href (text (requests_get u)))).
Proof.
  unfold extract_github_links. intros ->. simpl.
  apply github_links_of_filter_map.
Qed.

End ExtractorFacts.

(** C1.  The validity check accepts a URL exactly when [urlparse] gives the
    host [github.com], the path stripped of slashes splits into exactly two
    segments, both non-empty, and the first is none of the nine blacklisted
    names. *)
Theorem is_valid_github_repo_url_iff (urlparse : string -> option ParseResult)
    (u : string) :
  List.length BLACKLISTED_OWNERS = 9%nat /\
  (is_valid_github_repo_url urlparse u = Some true <->
   exists parsed owner repo,
     urlparse u = Some parsed /\
     netloc parsed = "github.com" /\
     PyStr.split "/" (PyStr.strip "/" (path parsed)) = [owner; repo] /\
     owner <> EmptyString /\ repo <> EmptyString /\
     ~ In owner BLACKLISTED_OWNERS).
Proof.
  split; [reflexivity|]. split.
  - intros H.
    destruct (is_valid_true_inv _ _ H) as (p & a & b & Hp & Hn & Hs & Hb).
    exists p, a, b. repeat split; try assumption.
    + exact (proj1 (PyStrFacts.split_strip_two _ _ _ Hs)).
    + exact (proj2 (PyStrFacts.split_strip_two _ _ _ Hs)).
    + intros Hin. apply PyStrFacts.elem_In in Hin. congruence.
  - intros (p & a & b & Hp & Hn & Hs & _ & _ & Hb).
    apply (is_valid_true_intro _ _ p a b); try assumption.
    destruct (PyStr.elem a BLACKLISTED_OWNERS) eqn:E; [|reflexivity].
    apply PyStrFacts.elem_In in E. contradiction.
Qed.

(** C10.  The extractor tests the raw target before it builds the link: its
    output is the image of the targets that pass the validity check, a
    target whose parsed host is empty does not pass, and every link of the
    output comes from a target with host [github.com], kept as it is when
    it starts with [http] and put behind [https://github.com] only when it
    does not. *)
Theorem extract_checks_raw_target
    (urlparse : string -> option ParseResult)
    (requests_get : string -> Response)
    (find_all_a_href : string -> list string)
    (u : string) (links : list string)
    (Hstatus : status_code (requests_get u) = 200%Z)
    (Hrun : extract_github_links urlparse requests_get find_all_a_href u = Some links) :
  let hrefs := find_all_a_href (text (requests_get u)) in
  links = map link_of_href (filter (passes urlparse) hrefs) /\
  (forall href parsed,
      urlparse href = Some parsed -> netloc parsed = EmptyString ->
      passes urlparse href = false) /\
  (forall link, In link links ->
      exists href parsed,
        In href hrefs /\ urlparse href = Some parsed /\
        netloc parsed = "github.com" /\
        ((PyStr.startswith "http" href = true /\ link = href) \/
         (PyStr.startswith "http" href = false /\
          link = ("https://github.com" ++ href)%string))).
Proof.
  intros hrefs.
  pose proof (extract_github_links_ok _ _ _ _ _ Hstatus Hrun) as E.
  fold hrefs in E. split; [exact E|]. split.
  - intros href parsed Hp Hn. unfold passes.
    now rewrite (is_valid_no_host _ _ _ Hp Hn).
  - intros link Hin. rewrite E in Hin. apply in_map_iff in Hin.
    destruct Hin as (href & <- & Hf). apply filter_In in Hf.
    destruct Hf as [Hin Hpass]. unfold passes in Hpass.
    destruct (is_valid_github_repo_url urlparse href) as [[|]|] eqn:V;
      try discriminate.
    destruct (is_valid_true_inv _ _ V) as (p & a & b & Hp & Hn & _).
    exists href, p. repeat split; try assumption.
    unfold link_of_href.
    destruct (PyStr.startswith "http" href); [left|right]; split; reflexivity.
Qed.

Lemma extract_checks_raw_target_witness :
  extract_github_links Urllib.urlparse (fun _ => sample_page) (fun _ => sample_hrefs)
    "https://github.com/sindresorhus/awesome"
  = Some ["https://github.com//github.com/owner/repo";
          "https://github.com/rocq-prover/rocq"] /\
  passes Urllib.urlparse "/owner/repo" = false.
Proof.
  assert (Hrun : extract_github_links Urllib.urlparse (fun _ => sample_page)
                   (fun _ => sample_hrefs) "https://github.com/sindresorhus/awesome"
                 = Some ["https://github.com//github.com/owner/repo";
                         "https://github.com/rocq-prover/rocq"])
    by reflexivity.
  split; [exact Hrun|].
  destruct (extract_checks_raw_target Urllib.urlparse (fun _ => sample_page)
              (fun _ => sample_hrefs) "https://github.com/sindresorhus/awesome"
              _ eq_refl Hrun) as (_ & Hno & _).
  apply (Hno "/owner/repo"
           (mkParseResult EmptyString EmptyString "/owner/repo"
              EmptyString EmptyString EmptyString)); reflexivity.
Defined.

(** The reading of the specification in which relative targets are
    completed with the host of the page fails on a page of [github.com]:
    the site-relative target [/owner/repo] has no host, its completed
    form qualifies, and the extractor leaves it out. *)
Lemma relative_targets_completed_fails :
  ~ relative_targets_completed Urllib.urlparse.
Proof.
  intros H.
  destruct (H (fun _ => sample_page) (fun _ => sample_hrefs)
              "https://github.com/sindresorhus/awesome"
              (mkParseResult "https" "github.com" "/sindresorhus/awesome"
                 EmptyString EmptyString EmptyString)
              "/owner/repo"
              (mkParseResult EmptyString EmptyString "/owner/repo"
                 EmptyString EmptyString EmptyString)
              eq_refl eq_refl (or_introl eq_refl) eq_refl eq_refl eq_refl)
    as (links & Hrun & Hin).
  vm_compute in Hrun. injection Hrun as <-.
  simpl in Hin. destruct Hin as [E|[E|[]]]; discriminate E.
Qed.

(** C8.  On a page of [github.com] whose one anchor holds the
    site-relative target [/owner/repo], the extractor checks the target
    as it stands, finds no host in it and returns no link.  The
    expression of the comprehension would complete the target to
    [https://github.com/owner/repo], which is the target behind the host
    of the page and passes the check, but it is evaluated only for
    targets that passed already. *)
Theorem relative_target_dropped :
  extract_github_links Urllib.urlparse (fun _ => sample_page)
    (fun _ => ["/owner/repo"]) "https://github.com/sindresorhus/awesome"
  = Some [] /\
  is_valid_github_repo_url Urllib.urlparse "/owner/repo" = Some false /\
  link_of_href "/owner/repo" = "https://github.com/owner/repo" /\
  with_source_host
    (mkParseResult "https" "github.com" "/sindresorhus/awesome"
       EmptyString EmptyString EmptyString) "/owner/repo"
  = "https://github.com/owner/repo" /\
  Urllib.urlparse "https://github.com/sindresorhus/awesome"
  = Some (mkParseResult "https" "github.com" "/sindresorhus/awesome"
            EmptyString EmptyString EmptyString) /\
  is_valid_github_repo_url Urllib.urlparse "https://github.com/owner/repo"
  = Some true.
Proof. repeat split. Qed.

(** ** The filter *)

Lemma select_rows_filter (f : Row -> bool) (rows : list Row) :
  select_rows rows (map f rows) = filter f rows.
Proof.
  induction rows as [|r rows IH]; simpl; [reflexivity|].
  rewrite IH. reflexivity.
Qed.

Lemma apply_bound_min c bound rows :
  apply_bound c Z.geb bound (Frame rows)
  = inr (Frame (filter (fun r => meets_min bound (cell c r)) rows)).
Proof.
  destruct bound as [m|]; simpl.
  - rewrite map_map, select_rows_filter. do 2 f_equal.
    apply filter_ext. intros r. now rewrite Z.geb_leb.
  - f_equal. f_equal. induction rows as [|r rows IH]; simpl; congruence.
Qed.

Lemma apply_bound_max c bound rows :
  apply_bound c Z.leb bound (Frame rows)
  = inr (Frame (filter (fun r => meets_max bound (cell c r)) rows)).
Proof.
  destruct bound as [m|]; simpl.
  - now rewrite map_map, select_rows_filter.
  - f_equal. f_equal. induction rows as [|r rows IH]; simpl; congruence.
Qed.

Lemma filter_filter {A} (f g : A -> bool) (l : list A) :
  filter g (filter f l) = filter (fun x => f x && g x) l.
Proof.
  induction l as [|x l IH]; simpl; [reflexivity|].
  destruct (f x); simpl; [destruct (g x)|]; now rewrite IH.
Qed.

Lemma filter_data_filter rows b :
  filter_data (Frame rows) b = inr (Frame (filter (within b) rows)).
Proof.
  unfold filter_data.
  rewrite apply_bound_min; cbn [and_then].
  rewrite apply_bound_max; cbn [and_then].
  rewrite apply_bound_min; cbn [and_then].
  rewrite apply_bound_max; cbn [and_then].
  rewrite apply_bound_min; cbn [and_then].
  rewrite apply_bound_max.
  rewrite !filter_filter. do 2 f_equal.
  apply filter_ext. intros r. unfold within, cell.
  now rewrite !andb_assoc.
Qed.

Lemma meets_min_spec bound v :
  meets_min bound v = true <-> (forall m, bound = Some m -> (m <= v)%Z).
Proof.
  destruct bound as [m|]; simpl.
  - rewrite Z.leb_le. split; [now intros H ? [= <-]|eauto].
  - split; [discriminate|reflexivity].
Qed.

Lemma meets_max_spec bound v :
  meets_max bound v = true <-> (forall m, bound = Some m -> (v <= m)%Z).
Proof.
  destruct bound as [m|]; simpl.
  - rewrite Z.leb_le. split; [now intros H ? [= <-]|eauto].
  - split; [discriminate|reflexivity].
Qed.

Lemma filter_length_le {A} (f g : A -> bool) (l : list A) :
  (forall x, g x = true -> f x = true) ->
  (List.length (filter g l) <= List.length (filter f l))%nat.
Proof.
  intros H. induction l as [|x l IH]; simpl; [lia|].
  destruct (g x) eqn:G.
  - rewrite (H x G). simpl. lia.
  - destruct (f x); simpl; lia.
Qed.

Lemma tighter_min_meets lo lo' v :
  tighter_min lo lo' -> meets_min lo' v = true -> meets_min lo v = true.
Proof.
  destruct lo as [m|], lo' as [m'|]; simpl; try tauto.
  rewrite !Z.leb_le. lia.
Qed.

Lemma tighter_max_meets hi hi' v :
  tighter_max hi hi' -> meets_max hi' v = true -> meets_max hi v = true.
Proof.
  destruct hi as [m|], hi' as [m'|]; simpl; try tauto.
  rewrite !Z.leb_le. lia.
Qed.

Lemma tightens_within b b' r :
  tightens b b' -> within b' r = true -> within b r = true.
Proof.
  intros (H1 & H2 & H3 & H4 & H5 & H6). unfold within.
  rewrite !andb_true_iff.
  intros (((((A1 & A2) & A3) & A4) & A5) & A6).
  repeat split;
    eauto using tighter_min_meets, tighter_max_meets.
Qed.

(** C4.  On a table of records the filter keeps exactly the rows that meet
    every given bound, each as an inclusive comparison; a bound that is
    not given constrains nothing. *)
Theorem filter_data_keeps_iff (rows : list Row) (b : Bounds) :
  exists kept,
    filter_data (Frame rows) b = inr (Frame kept) /\
    kept = filter (within b) rows /\
    forall r,
      In r kept <->
      In r rows /\
      (forall m, min_stars b = Some m -> (m <= stars r)%Z) /\
      (forall m, max_stars b = Some m -> (stars r <= m)%Z) /\
      (forall m, min_forks b = Some m -> (m <= forks r)%Z) /\
      (forall m, max_forks b = Some m -> (forks r <= m)%Z) /\
      (forall m, min_watchers b = Some m -> (m <= watchers r)%Z) /\
      (forall m, max_watchers b = Some m -> (watchers r <= m)%Z).
Proof.
  exists (filter (within b) rows). split; [apply filter_data_filter|].
  split; [reflexivity|]. intros r.
  rewrite filter_In. unfold within. rewrite !andb_true_iff.
  rewrite !meets_min_spec, !meets_max_spec. tauto.
Qed.

(** C5.  Tightening bounds never lets more rows through: when every bound
    of the second setting is the bound of the first, or a raised minimum,
    or a lowered maximum, or a bound the first left out, the second
    filtering returns at most as many rows as the first. *)
Theorem filter_data_monotone (rows : list Row) (b b' : Bounds)
    (Htight : tightens b b') :
  exists kept kept',
    filter_data (Frame rows) b = inr (Frame kept) /\
    filter_data (Frame rows) b' = inr (Frame kept') /\
    (List.length kept' <= List.length kept)%nat.
Proof.
  exists (filter (within b) rows), (filter (within b') rows).
  rewrite !filter_data_filter. repeat split.
  apply filter_length_le. intros r. now apply tightens_within.
Qed.

Lemma filter_data_monotone_witness :
  exists kept kept',
    filter_data (Frame sample_rows) no_bounds = inr (Frame kept) /\
    filter_data (Frame sample_rows) stars_from_6 = inr (Frame kept') /\
    (List.length kept' <= List.length kept)%nat.
Proof.
  apply (filter_data_monotone sample_rows no_bounds stars_from_6).
  unfold tightens; simpl; tauto.
Defined.

(** The example of the specification: with [min_stars=6] only [a/b] is
    left. *)
Example filter_data_sample :
  filter_data (Frame sample_rows) stars_from_6 = inr (Frame [mkRow "a/b" 10 2 1]).
Proof. reflexivity. Qed.

(** The frame of an empty snapshot has no metric column: a bound on it
    raises [KeyError]. *)
Example filter_data_no_columns :
  filter_data NoMetricColumns stars_from_6 = inl (KeyError "stars").
Proof. reflexivity. Qed.

(** ** The sort *)

Section TakeFacts.

Context {A : Type}.

Lemma take_app (a : list A) (q1 q2 : list nat) :
  take a (q1 ++ q2) = take a q1 ++ take a q2.
Proof.
  induction q1 as [|i q1 IH]; simpl; [reflexivity|].
  destruct (nth_error a i); simpl; now rewrite IH.
Qed.

Lemma take_rev (a : list A) (q : list nat) :
  take a (rev q) = rev (take a q).
Proof.
  induction q as [|i q IH]; simpl; [reflexivity|].
  rewrite take_app, IH. simpl.
  destruct (nth_error a i); simpl; [reflexivity|now rewrite List.app_nil_r].
Qed.

Lemma take_seq_app (pre a : list A) :
  take (pre ++ a) (seq (List.length pre) (List.length a)) = a.
Proof.
  revert pre. induction a as [|x a IH]; intros pre; simpl; [reflexivity|].
  rewrite nth_error_app2, Nat.sub_diag by lia. simpl.
  f_equal.
  specialize (IH (pre ++ [x])).
  rewrite <- app_assoc, length_app in IH. simpl in IH.
  rewrite Nat.add_1_r in IH. exact IH.
Qed.

Lemma take_seq (a : list A) : take a (seq 0 (List.length a)) = a.
Proof. exact (take_seq_app [] a). Qed.

Lemma take_Permutation (a : list A) (q q' : list nat) :
  Permutation q q' -> Permutation (take a q) (take a q').
Proof.
  induction 1 as [|i q q' _ IH|i j q|q1 q2 q3 _ IH1 _ IH2]; simpl.
  - constructor.
  - destruct (nth_error a i); [now constructor|exact IH].
  - destruct (nth_error a i), (nth_error a j);
      try apply Permutation_refl. apply perm_swap.
  - now transitivity (take a q2).
Qed.

Lemma take_filter (g : A -> bool) (a : list A) (q : list nat) :
  filter g (take a q)
  = take a (filter (fun i => match nth_error a i with
                             | Some x => g x
                             | None => false
                             end) q).
Proof.
  induction q as [|i q IH]; simpl; [reflexivity|].
  destruct (nth_error a i) as [x|] eqn:E; simpl.
  - destruct (g x); simpl; [rewrite E|]; now rewrite IH.
  - exact IH.
Qed.

Lemma take_length_in_range (a : list A) (q : list nat) :
  Forall (fun i => (i < List.length a)%nat) q ->
  List.length (take a q) = List.length q.
Proof.
  induction 1 as [|i q Hi _ IH]; simpl; [reflexivity|].
  destruct (nth_error a i) eqn:E.
  - simpl. now rewrite IH.
  - apply nth_error_None in E. lia.
Qed.

End TakeFacts.

Lemma take_map {A B} (f : A -> B) (a : list A) (q : list nat) :
  map f (take a q) = take (map f a) q.
Proof.
  induction q as [|i q IH]; simpl; [reflexivity|].
  rewrite nth_error_map. destruct (nth_error a i); simpl; now rewrite IH.
Qed.

(** Positions looked up in a list of positions: [a[b[q]] = (a[b])[q]]
    when every position of [b] is in [a]. *)
Lemma nth_error_take {A} (a : list A) (b : list nat) (i : nat) :
  Forall (fun j => (j < List.length a)%nat) b ->
  nth_error (take a b) i
  = match nth_error b i with
    | Some j => nth_error a j
    | None => None
    end.
Proof.
  intros H. revert i. induction H as [|j b Hj _ IH]; intros i; simpl.
  - now destruct i.
  - destruct (nth_error a j) as [x|] eqn:E.
    + destruct i; simpl; [now rewrite E|apply IH].
    + apply nth_error_None in E. lia.
Qed.

Lemma take_take {A} (a : list A) (b q : list nat) :
  Forall (fun j => (j < List.length a)%nat) b ->
  take a (take b q) = take (take a b) q.
Proof.
  intros H. induction q as [|i q IH]; simpl; [reflexivity|].
  rewrite (nth_error_take a b i H).
  destruct (nth_error b i) as [j|]; simpl; [|exact IH].
  destruct (nth_error a j); now rewrite IH.
Qed.

Lemma nondecreasing_Sorted (l : list Z) :
  nondecreasing l = true <-> Sorted Z.le l.
Proof.
  induction l as [|x [|y l] IH].
  - split; [constructor|reflexivity].
  - split; [repeat constructor|reflexivity].
  - change (nondecreasing (x :: y :: l))
      with ((x <=? y)%Z && nondecreasing (y :: l)).
    rewrite andb_true_iff, Z.leb_le, IH. split.
    + intros [Hxy Hs]. constructor; [exact Hs|now constructor].
    + intros H. inversion H as [|? ? Hs Hh]; subst.
      inversion Hh; subst. now split.
Qed.

Lemma is_permutation_of_range_Permutation (q : list nat) (n : nat) :
  is_permutation_of_range q n = true <-> Permutation q (seq 0 n).
Proof.
  unfold is_permutation_of_range.
  rewrite andb_true_iff, Nat.eqb_eq, forallb_forall. split.
  - intros [Hlen Hall]. symmetry.
    apply NoDup_Permutation_bis.
    + apply seq_NoDup.
    + rewrite length_seq. lia.
    + intros i Hi. specialize (Hall i Hi).
      apply existsb_exists in Hall. destruct Hall as (j & Hj & E).
      apply Nat.eqb_eq in E. now subst.
  - intros P. split.
    + rewrite (Permutation_length P). apply length_seq.
    + intros i Hi. apply existsb_exists. exists i. split.
      * apply (Permutation_in _ (Permutation_sym P) Hi).
      * apply Nat.eqb_refl.
Qed.

Lemma Permutation_range_Forall (q : list nat) (n : nat) :
  Permutation q (seq 0 n) -> Forall (fun i => (i < n)%nat) q.
Proof.
  intros P. apply Forall_forall. intros i Hi.
  apply (Permutation_in _ P) in Hi. apply in_seq in Hi. lia.
Qed.

Lemma Permutation_filter {A} (f : A -> bool) (l l' : list A) :
  Permutation l l' -> Permutation (filter f l) (filter f l').
Proof.
  induction 1 as [|x l l' _ IH|x y l|l1 l2 l3 _ IH1 _ IH2]; simpl.
  - constructor.
  - destruct (f x); [now constructor|exact IH].
  - destruct (f x), (f y); try apply Permutation_refl. apply perm_swap.
  - now transitivity (filter f l2).
Qed.

Lemma StronglySorted_filter {A} (R : A -> A -> Prop) (f : A -> bool) (l : list A) :
  StronglySorted R l -> StronglySorted R (filter f l).
Proof.
  induction 1 as [|x l _ IH Hx]; simpl; [constructor|].
  destruct (f x); [|exact IH].
  constructor; [exact IH|].
  apply Forall_forall. intros y Hy. apply filter_In in Hy.
  rewrite Forall_forall in Hx. now apply Hx.
Qed.

Lemma StronglySorted_impl {A} (R R' : A -> A -> Prop) (l : list A) :
  (forall x y, In x l -> In y l -> R x y -> R' x y) ->
  StronglySorted R l -> StronglySorted R' l.
Proof.
  intros H S. induction S as [|x l _ IH Hx]; [constructor|].
  constructor.
  - apply IH. intros a b Ha Hb. apply H; now right.
  - rewrite Forall_forall in *. intros y Hy.
    apply H; [now left|now right|now apply Hx].
Qed.

(** Two strictly increasing lists with the same members are equal. *)
Lemma StronglySorted_lt_unique (l l' : list nat) :
  StronglySorted lt l -> StronglySorted lt l' -> Permutation l l' -> l = l'.
Proof.
  revert l'. induction l as [|x l IH]; intros l' S S' P.
  - apply Permutation_nil in P. now subst.
  - destruct l' as [|y l'].
    + apply Permutation_sym, Permutation_nil in P. discriminate.
    + apply StronglySorted_inv in S, S'.
      destruct S as [S Hx], S' as [S' Hy].
      rewrite Forall_forall in Hx, Hy.
      assert (E : x = y).
      { destruct (Nat.eq_dec x y) as [|N]; [assumption|exfalso].
        assert (Hx' : In x (y :: l')) by (apply (Permutation_in _ P); now left).
        assert (Hy' : In y (x :: l))
          by (apply (Permutation_in _ (Permutation_sym P)); now left).
        destruct Hx' as [|Hx']; [congruence|].
        destruct Hy' as [|Hy']; [congruence|].
        specialize (Hx _ Hy'). specialize (Hy _ Hx'). lia. }
      subst y. f_equal. apply IH; try assumption.
      now apply Permutation_cons_inv in P.
Qed.

Lemma StronglySorted_seq (start len : nat) : StronglySorted lt (seq start len).
Proof.
  revert start. induction len as [|len IH]; intros start; simpl; constructor.
  - apply IH.
  - apply Forall_forall. intros i Hi. apply in_seq in Hi. lia.
Qed.

Lemma StronglySorted_snoc {A} (R : A -> A -> Prop) (l : list A) (x : A) :
  StronglySorted R l -> Forall (fun y => R y x) l -> StronglySorted R (l ++ [x]).
Proof.
  induction 1 as [|y l _ IH Hy]; intros F; simpl.
  - repeat constructor.
  - inversion F as [|? ? Ryx F']; subst. constructor; [now apply IH|].
    apply Forall_app. split; [exact Hy|now constructor].
Qed.

Lemma Sorted_le_rev (l : list Z) : Sorted Z.le l -> Sorted Z.ge (rev l).
Proof.
  intros S. apply StronglySorted_Sorted.
  apply Sorted_StronglySorted in S; [|intros x y z; apply Z.le_trans].
  induction S as [|x l _ IH Hx]; simpl; [constructor|].
  apply StronglySorted_snoc; [exact IH|].
  apply Forall_rev. rewrite Forall_forall in *. intros y Hy.
  specialize (Hx y Hy). lia.
Qed.

Lemma lex_lt_trans items : Relations_1.Transitive (lex_lt items).
Proof. intros i j k. unfold lex_lt. lia. Qed.

Lemma take_map_nth (items : list Z) (q : list nat) :
  Forall (fun i => (i < List.length items)%nat) q ->
  take items q = map (fun i => nth i items 0%Z) q.
Proof.
  induction 1 as [|i q Hi _ IH]; simpl; [reflexivity|].
  destruct (nth_error items i) as [x|] eqn:E.
  - rewrite IH. f_equal. symmetry. now apply nth_error_nth.
  - apply nth_error_None in E. lia.
Qed.

Lemma ties_in_order_Sorted (items : list Z) (q : list nat) :
  nondecreasing (map (fun i => nth i items 0%Z) q) = true ->
  ties_in_order items q = true ->
  Sorted (lex_lt items) q.
Proof.
  induction q as [|i [|j q] IH]; intros Hs Ht.
  - constructor.
  - repeat constructor.
  - change (((nth i items 0 <=? nth j items 0)%Z
             && nondecreasing (map (fun i => nth i items 0%Z) (j :: q))) = true) in Hs.
    change ((negb (nth i items 0 =? nth j items 0)%Z || (i <? j)%nat)
            && ties_in_order items (j :: q) = true) in Ht.
    apply andb_true_iff in Hs, Ht. destruct Hs as [Hle Hs], Ht as [Htie Ht].
    constructor; [now apply IH|]. constructor.
    apply Z.leb_le in Hle. apply orb_true_iff in Htie. unfold lex_lt.
    destruct Htie as [Hne|Hlt].
    + apply negb_true_iff, Z.eqb_neq in Hne. lia.
    + apply Nat.ltb_lt in Hlt. lia.
Qed.

Section SortFacts.

Variable c : Column.

Lemma take_permutation_sorted (l : list Row) (q : list nat) :
  is_argsort (map (cell c) l) q = true ->
  Permutation l (take l q) /\ Sorted Z.le (map (cell c) (take l q)).
Proof.
  unfold is_argsort. rewrite andb_true_iff, length_map.
  rewrite is_permutation_of_range_Permutation, nondecreasing_Sorted.
  intros [P S]. split.
  - rewrite <- (take_seq l) at 1. apply take_Permutation. now symmetry.
  - now rewrite take_map.
Qed.

Lemma key_of_position (l : list Row) (v : Z) (i : nat) :
  match nth_error l i with
  | Some r => (cell c r =? v)%Z
  | None => false
  end = true ->
  nth i (map (cell c) l) 0%Z = v.
Proof.
  destruct (nth_error l i) as [r|] eqn:E; [|discriminate].
  intros H. apply Z.eqb_eq in H. subst v.
  apply nth_error_nth. rewrite nth_error_map, E. reflexivity.
Qed.

Lemma take_ties (l : list Row) (q : list nat) :
  is_argsort (map (cell c) l) q = true ->
  ties_in_order (map (cell c) l) q = true ->
  forall v : Z,
    filter (fun r => (cell c r =? v)%Z) (take l q)
    = filter (fun r => (cell c r =? v)%Z) l.
Proof.
  unfold is_argsort. rewrite andb_true_iff, length_map.
  rewrite is_permutation_of_range_Permutation.
  intros [P S] T v.
  assert (R : Forall (fun i => (i < List.length (map (cell c) l))%nat) q)
    by (rewrite length_map; now apply Permutation_range_Forall).
  rewrite (take_map_nth _ _ R) in S.
  pose proof (ties_in_order_Sorted _ _ S T) as L.
  apply Sorted_StronglySorted in L; [|apply lex_lt_trans].
  rewrite take_filter.
  set (gi := fun i => match nth_error l i with
                      | Some x => (cell c x =? v)%Z
                      | None => false
                      end).
  assert (E : filter gi q = filter gi (seq 0 (List.length l))).
  { apply StronglySorted_lt_unique.
    - apply (StronglySorted_impl (lex_lt (map (cell c) l))).
      + intros x y Hx Hy. apply filter_In in Hx, Hy.
        destruct Hx as [_ Hx], Hy as [_ Hy].
        apply key_of_position in Hx, Hy. unfold lex_lt. lia.
      + now apply StronglySorted_filter.
    - apply StronglySorted_filter, StronglySorted_seq.
    - now apply Permutation_filter. }
  rewrite E. unfold gi. rewrite <- take_filter. now rewrite take_seq.
Qed.

Variable argsort : list Z -> list nat.

(** What [sort_values] returns, with the positions composed away. *)
Lemma sort_data_take (rows : list Row) (ascending : bool) :
  sort_data argsort (Frame rows) c ascending
  = inr (Frame (if ascending
                then take rows (argsort (map (cell c) rows))
                else rev (take (rev rows) (argsort (rev (map (cell c) rows)))))).
Proof.
  unfold sort_data, nargsort. rewrite length_map.
  assert (R : Forall (fun j => (j < List.length rows)%nat) (seq 0 (List.length rows))).
  { apply Forall_forall. intros i Hi. apply in_seq in Hi. lia. }
  destruct ascending; do 2 f_equal.
  - rewrite take_take by exact R. now rewrite take_seq.
  - rewrite take_rev. f_equal.
    rewrite take_take by (apply Forall_rev; exact R).
    now rewrite take_rev, take_seq.
Qed.

End SortFacts.

(** X18.  With a kernel that keeps the promise of [numpy.argsort] on the
    column it is given, sorting by a key returns a permutation of the
    rows whose key does not increase (the default, descending) or does
    not decrease (ascending); rows of equal key keep their input order
    when the kernel orders ties by position, as a stable kind does. *)
Theorem sort_data_permutation_ordered
    (argsort : list Z -> list nat) (rows : list Row)
    (sort_by : Column) (ascending : bool)
    (Hkernel : is_argsort (kernel_input rows sort_by ascending)
                 (argsort (kernel_input rows sort_by ascending)) = true) :
  exists sorted,
    sort_data argsort (Frame rows) sort_by ascending = inr (Frame sorted) /\
    Permutation rows sorted /\
    ordered_by sort_by ascending sorted /\
    (ties_in_order (kernel_input rows sort_by ascending)
       (argsort (kernel_input rows sort_by ascending)) = true ->
     ties_keep_order sort_by rows sorted).
Proof.
  eexists. split; [apply sort_data_take|].
  unfold kernel_input, ordered_by in *. destruct ascending.
  - destruct (take_permutation_sorted _ _ _ Hkernel) as [P S].
    repeat split; try assumption.
    intros T v. now apply take_ties.
  - rewrite <- map_rev in *.
    destruct (take_permutation_sorted _ _ _ Hkernel) as [P S].
    repeat split.
    + rewrite <- Permutation_rev. rewrite (Permutation_rev rows) at 1. exact P.
    + rewrite map_rev. now apply Sorted_le_rev.
    + intros T v. rewrite filter_rev.
      rewrite (take_ties _ _ _ Hkernel T v).
      now rewrite filter_rev, rev_involutive.
Qed.

Lemma sort_data_permutation_ordered_witness :
  exists sorted,
    sort_data insertion_argsort (Frame tied_rows) Stars false = inr (Frame sorted) /\
    Permutation tied_rows sorted /\
    ordered_by Stars false sorted /\
    (ties_in_order (kernel_input tied_rows Stars false)
       (insertion_argsort (kernel_input tied_rows Stars false)) = true ->
     ties_keep_order Stars tied_rows sorted).
Proof.
  apply (sort_data_permutation_ordered insertion_argsort tied_rows Stars false).
  vm_compute. reflexivity.
Defined.

(** By default the table of the example comes out with the most starred
    row first. *)
Example sort_data_sample :
  sort_data insertion_argsort (Frame (rev sample_rows)) Stars false
  = inr (Frame sample_rows).
Proof. reflexivity. Qed.

(** *** The insertion kernel keeps the promise of [argsort] *)

Section InsertionKernel.

Variable before : Z -> Z -> bool.
Hypothesis before_true : forall a b, before a b = true -> (a <= b)%Z.
Hypothesis before_false : forall a b, before a b = false -> (b <= a)%Z.

Variable items : list Z.

Lemma insert_position_Permutation (i : nat) (s : list nat) :
  Permutation (insert_position before items i s) (i :: s).
Proof.
  induction s as [|j s IH]; simpl; [apply Permutation_refl|].
  destruct (before _ _); [apply Permutation_refl|].
  rewrite IH. apply perm_swap.
Qed.

Lemma insert_position_HdRel (i j : nat) (s : list nat) :
  (key_at items j <= key_at items i)%Z ->
  HdRel Z.le (key_at items j) (map (key_at items) s) ->
  HdRel Z.le (key_at items j) (map (key_at items) (insert_position before items i s)).
Proof.
  intros Hji H. destruct s as [|k s]; simpl.
  - now constructor.
  - destruct (before _ _); simpl; constructor; [exact Hji|].
    now inversion H.
Qed.

Lemma insert_position_Sorted (i : nat) (s : list nat) :
  Sorted Z.le (map (key_at items) s) ->
  Sorted Z.le (map (key_at items) (insert_position before items i s)).
Proof.
  induction s as [|j s IH]; simpl; intros S.
  - repeat constructor.
  - destruct (before (nth i items 0%Z) (nth j items 0%Z)) eqn:B; simpl.
    + constructor; [exact S|]. constructor. now apply before_true.
    + inversion S as [|? ? S' Hd]; subst.
      constructor; [now apply IH|].
      apply insert_position_HdRel; [now apply before_false|exact Hd].
Qed.

Lemma argsort_by_Permutation (l : list nat) :
  Permutation (fold_right (insert_position before items) [] l) l.
Proof.
  induction l as [|i l IH]; simpl; [constructor|].
  rewrite insert_position_Permutation. now constructor.
Qed.

Lemma argsort_by_Sorted (l : list nat) :
  Sorted Z.le (map (key_at items) (fold_right (insert_position before items) [] l)).
Proof.
  induction l as [|i l IH]; simpl; [constructor|].
  now apply insert_position_Sorted.
Qed.

Lemma argsort_by_is_argsort :
  is_argsort items (argsort_by before items) = true.
Proof.
  unfold is_argsort. apply andb_true_iff.
  assert (P : Permutation (argsort_by before items) (seq 0 (List.length items)))
    by apply argsort_by_Permutation.
  split.
  - now apply is_permutation_of_range_Permutation.
  - apply nondecreasing_Sorted.
    rewrite take_map_nth by (now apply Permutation_range_Forall).
    apply argsort_by_Sorted.
Qed.

End InsertionKernel.

Lemma insertion_argsort_kernel : sorting_kernel insertion_argsort.
Proof.
  intros items. apply argsort_by_is_argsort; intros a b H.
  - now apply Z.leb_le.
  - apply Z.leb_gt in H. lia.
Qed.

(** ** The popularity fetcher *)

Lemma bind_Ok {A B} (m : M A) (f : A -> M B) (w w' : World) (b : B) :
  bind m f w = (Ok b, w') ->
  exists a w1, m w = (Ok a, w1) /\ f a w1 = (Ok b, w').
Proof.
  unfold bind. destruct (m w) as [[a|] w1]; [eauto|discriminate].
Qed.

Lemma sleep_time_nonneg (reset_time : Z) (t : Q) :
  0 <= Qmax (inject_Z reset_time - t) 0.
Proof. apply Q.le_max_r. Qed.

Lemma requests_get_api_events api hdrs w :
  events (snd (requests_get_api api hdrs w)) = events w ++ [EvGet api hdrs].
Proof.
  unfold requests_get_api. destruct (network w) as [|x rest]; [reflexivity|].
  destruct (outcome x); reflexivity.
Qed.

Section FetcherFacts.

Variable urlparse : string -> option ParseResult.
Variable int_of_str : string -> option Z.

(** With no quota left, [check_rate_limit] sleeps when the reset is in
    reach, and raises before any sleep when it is not. *)
Lemma check_rate_limit_zero_cases response w limit reset_time :
  header_int int_of_str response "X-RateLimit-Limit" 60 = Some limit ->
  header_int int_of_str response "X-RateLimit-Remaining" 0 = Some 0%Z ->
  header_int int_of_str response "X-RateLimit-Reset" 0 = Some reset_time ->
  check_rate_limit int_of_str response w
  = if reset_in_reach reset_time w then (Ok true, slept reset_time w)
    else (Raised, w).
Proof.
  intros Hl Hr Ht.
  unfold check_rate_limit, int_header, bind, lift, ret, raise, time_time,
    time_sleep, reset_in_reach, float_of_int.
  rewrite Hl, Hr, Ht. change (0 =? 0)%Z with true. cbv iota beta.
  destruct (Z.abs reset_time <? float_overflow)%Z; [|reflexivity].
  cbv iota beta. rewrite andb_true_l.
  destruct (can_sleep w (Qmax (inject_Z reset_time - now w) 0)); reflexivity.
Qed.

Lemma check_rate_limit_zero response w limit reset_time :
  header_int int_of_str response "X-RateLimit-Limit" 60 = Some limit ->
  header_int int_of_str response "X-RateLimit-Remaining" 0 = Some 0%Z ->
  header_int int_of_str response "X-RateLimit-Reset" 0 = Some reset_time ->
  reset_in_reach reset_time w = true ->
  check_rate_limit int_of_str response w = (Ok true, slept reset_time w).
Proof.
  intros Hl Hr Ht Hreach.
  rewrite (check_rate_limit_zero_cases response w limit reset_time Hl Hr Ht).
  now rewrite Hreach.
Qed.

Lemma check_rate_limit_far response w limit reset_time :
  header_int int_of_str response "X-RateLimit-Limit" 60 = Some limit ->
  header_int int_of_str response "X-RateLimit-Remaining" 0 = Some 0%Z ->
  header_int int_of_str response "X-RateLimit-Reset" 0 = Some reset_time ->
  reset_in_reach reset_time w = false ->
  check_rate_limit int_of_str response w = (Raised, w).
Proof.
  intros Hl Hr Ht Hreach.
  rewrite (check_rate_limit_zero_cases response w limit reset_time Hl Hr Ht).
  now rewrite Hreach.
Qed.

Lemma check_rate_limit_nonzero response w limit remaining reset_time :
  header_int int_of_str response "X-RateLimit-Limit" 60 = Some limit ->
  header_int int_of_str response "X-RateLimit-Remaining" 0 = Some remaining ->
  header_int int_of_str response "X-RateLimit-Reset" 0 = Some reset_time ->
  remaining <> 0%Z ->
  check_rate_limit int_of_str response w = (Ok false, w).
Proof.
  intros Hl Hr Ht Hn.
  unfold check_rate_limit, int_header, bind, lift, ret.
  rewrite Hl, Hr, Ht. cbn.
  apply Z.eqb_neq in Hn. now rewrite Hn.
Qed.

(** [check_rate_limit] asks for a retry exactly when it has slept, and
    does nothing else to the world. *)
Lemma check_rate_limit_cases response w :
  (exists reset_time, check_rate_limit int_of_str response w = (Ok true, slept reset_time w)) \/
  check_rate_limit int_of_str response w = (Ok false, w) \/
  check_rate_limit int_of_str response w = (Raised, w).
Proof.
  destruct (header_int int_of_str response "X-RateLimit-Limit" 60) as [limit|] eqn:Hl.
  2:{ right; right.
      unfold check_rate_limit, int_header, bind, lift, raise.
      now rewrite Hl. }
  destruct (header_int int_of_str response "X-RateLimit-Remaining" 0) as [remaining|] eqn:Hr.
  2:{ right; right.
      unfold check_rate_limit, int_header, bind, lift, raise, ret.
      now rewrite Hl, Hr. }
  destruct (header_int int_of_str response "X-RateLimit-Reset" 0) as [reset_time|] eqn:Ht.
  2:{ right; right.
      unfold check_rate_limit, int_header, bind, lift, raise, ret.
      now rewrite Hl, Hr, Ht. }
  destruct (Z.eq_dec remaining 0) as [->|Hn].
  - rewrite (check_rate_limit_zero_cases response w limit reset_time Hl Hr Ht).
    destruct (reset_in_reach reset_time w); [left; now exists reset_time|now right; right].
  - right; left. eapply check_rate_limit_nonzero; eassumption.
Qed.

(** [check_rate_limit] asks for a retry only when the response reports
    no quota left. *)
Lemma check_rate_limit_true response w w' :
  check_rate_limit int_of_str response w = (Ok true, w') ->
  header_int int_of_str response "X-RateLimit-Remaining" 0 = Some 0%Z.
Proof.
  unfold check_rate_limit, int_header, bind, lift, ret, raise.
  destruct (header_int int_of_str response "X-RateLimit-Limit" 60) as [l|];
    [|discriminate].
  destruct (header_int int_of_str response "X-RateLimit-Remaining" 0) as [r|];
    [|discriminate].
  destruct (header_int int_of_str response "X-RateLimit-Reset" 0) as [t|];
    [|discriminate].
  destruct (Z.eqb_spec r 0) as [->|_]; [reflexivity|discriminate].
Qed.

End FetcherFacts.

Lemma read_metrics_world response w : snd (read_metrics response w) = w.
Proof.
  unfold read_metrics.
  destruct (Z.eqb (status_code response) 200); [|reflexivity].
  destruct (json_body response) as [data|]; [|reflexivity].
  destruct data; reflexivity.
Qed.

(** A stored record holds what the body of a 200 response has under the
    three keys, and 0 where the body has none. *)
Lemma read_metrics_record response w r w' :
  read_metrics response w = (Ok (Some r), w') ->
  status_code response = 200%Z /\
  exists items,
    json_body response = Some (JObject items) /\
    r = mkRepoRecord (field_or items "stargazers_count" (JInt 0))
                     (field_or items "forks_count" (JInt 0))
                     (field_or items "watchers_count" (JInt 0)).
Proof.
  unfold read_metrics.
  destruct (Z.eqb_spec (status_code response) 200) as [E|]; [|discriminate].
  destruct (json_body response) as [data|]; [|discriminate].
  destruct data; try discriminate.
  intros [= <- <-]. split; [exact E|]. eauto.
Qed.

Section PassFacts.

Variable urlparse : string -> option ParseResult.
Variable int_of_str : string -> option Z.

(** A pass that reaches the API: the first exchange, the verdict of
    [check_rate_limit] on it, the retry if one is asked for, and the
    reading of the last response. *)
Lemma fetch_metrics_request hdrs u w parsed :
  urlparse u = Some parsed ->
  (2 <= List.length (PyStr.split "/" (PyStr.strip "/" (path parsed))))%nat ->
  let api := api_url_of (PyStr.split "/" (PyStr.strip "/" (path parsed))) in
  fetch_metrics urlparse int_of_str hdrs u w
  = match requests_get_api api hdrs w with
    | (Ok response, w1) =>
        match check_rate_limit int_of_str response w1 with
        | (Ok true, w2) =>
            match requests_get_api api hdrs w2 with
            | (Ok response', w3) => read_metrics response' w3
            | (Raised, w3) => (Raised, w3)
            end
        | (Ok false, w2) => read_metrics response w2
        | (Raised, w2) => (Raised, w2)
        end
    | (Raised, w1) => (Raised, w1)
    end.
Proof.
  intros Hp Hlen api. unfold fetch_metrics, bind at 1, lift. rewrite Hp.
  unfold ret at 1. apply Nat.leb_le in Hlen. rewrite Hlen. fold api.
  unfold bind.
  destruct (requests_get_api api hdrs w) as [[response|] w1]; [|reflexivity].
  destruct (check_rate_limit int_of_str response w1) as [[[|]|] w2]; reflexivity.
Qed.

Lemma fetch_metrics_no_request hdrs u w :
  (urlparse u = None \/
   exists parsed, urlparse u = Some parsed /\
     (List.length (PyStr.split "/" (PyStr.strip "/" (path parsed))) < 2)%nat) ->
  snd (fetch_metrics urlparse int_of_str hdrs u w) = w /\
  stored (fst (fetch_metrics urlparse int_of_str hdrs u w)) = None.
Proof.
  intros H.
  assert (E : fetch_metrics urlparse int_of_str hdrs u w = (Raised, w) \/
              fetch_metrics urlparse int_of_str hdrs u w = (Ok None, w)).
  { destruct H as [Hp|(parsed & Hp & Hlen)].
    - left. unfold fetch_metrics, bind, lift. rewrite Hp. reflexivity.
    - right. unfold fetch_metrics, bind at 1, lift. rewrite Hp.
      unfold ret at 1. apply Nat.leb_gt in Hlen. rewrite Hlen. reflexivity. }
  destruct E as [-> | ->]; split; reflexivity.
Qed.

(** Each pass adds no event, one request, or a request, a sleep and the
    same request again. *)
Lemma fetch_metrics_events hdrs u w :
  exists evs,
    events (snd (fetch_metrics urlparse int_of_str hdrs u w)) = events w ++ evs /\
    pass_events evs.
Proof.
  destruct (urlparse u) as [parsed|] eqn:Hp.
  2:{ exists []. rewrite (proj1 (fetch_metrics_no_request hdrs u w (or_introl Hp))).
      split; [now rewrite List.app_nil_r|constructor]. }
  destruct (Nat.leb_spec 2 (List.length (PyStr.split "/" (PyStr.strip "/" (path parsed)))))
    as [Hlen|Hlen].
  2:{ exists [].
      rewrite (proj1 (fetch_metrics_no_request hdrs u w
                        (or_intror (ex_intro _ parsed (conj Hp Hlen))))).
      split; [now rewrite List.app_nil_r|constructor]. }
  rewrite (fetch_metrics_request hdrs u w parsed Hp Hlen).
  set (api := api_url_of _).
  pose proof (requests_get_api_events api hdrs w) as E1.
  destruct (requests_get_api api hdrs w) as [[response|] w1]; simpl in E1.
  2:{ exists [EvGet api hdrs]. split; [exact E1|constructor]. }
  destruct (check_rate_limit_cases int_of_str response w1) as [[t C]|[C|C]];
    rewrite C.
  - pose proof (requests_get_api_events api hdrs (slept t w1)) as E2.
    destruct (requests_get_api api hdrs (slept t w1)) as [[response'|] w3];
      simpl in E2;
      exists [EvGet api hdrs; EvSleep (Qmax (inject_Z t - now w1) 0); EvGet api hdrs];
      (split; [|constructor; apply sleep_time_nonneg]).
    + rewrite read_metrics_world, E2. simpl. rewrite E1.
      now rewrite <- !app_assoc.
    + simpl. rewrite E2. simpl. rewrite E1. now rewrite <- !app_assoc.
  - exists [EvGet api hdrs]. rewrite read_metrics_world.
    split; [exact E1|constructor].
  - exists [EvGet api hdrs]. split; [exact E1|constructor].
Qed.

End PassFacts.

Lemma slept_until_reset (reset_time : Z) (w : World) :
  inject_Z reset_time <= now (slept reset_time w).
Proof.
  unfold slept; simpl.
  pose proof (Q.le_max_l (inject_Z reset_time - now w) 0) as H. lra.
Qed.

Section LoopFacts.

Variable urlparse : string -> option ParseResult.
Variable int_of_str : string -> option Z.
Variable max_failures : Z.
Variable hdrs : list (string * string).

Lemma iteration_world u st w :
  snd (iteration urlparse int_of_str max_failures hdrs u st w)
  = snd (fetch_metrics urlparse int_of_str hdrs u w).
Proof.
  unfold iteration.
  destruct (fetch_metrics urlparse int_of_str hdrs u w) as [[[r|]|] w']; reflexivity.
Qed.

Lemma fetch_loop_events urls st w :
  exists groups,
    events (snd (fetch_loop urlparse int_of_str max_failures hdrs urls st w))
    = events w ++ List.concat groups /\
    Forall pass_events groups /\
    (List.length groups <= List.length urls)%nat.
Proof.
  revert st w. induction urls as [|u urls IH]; intros st w; simpl.
  - exists []. simpl. rewrite List.app_nil_r. repeat split; [constructor|lia].
  - pose proof (iteration_world u st w) as Ew.
    destruct (fetch_metrics_events urlparse int_of_str hdrs u w) as (evs & Eevs & Hevs).
    destruct (iteration urlparse int_of_str max_failures hdrs u st w)
      as [[st' brk] w'] eqn:It.
    simpl in Ew. rewrite <- Ew in Eevs.
    destruct brk.
    + exists [evs]. simpl. rewrite List.app_nil_r.
      repeat split; [exact Eevs|repeat constructor; exact Hevs|lia].
    + destruct (IH st' w') as (groups & Eg & Hg & Hl).
      exists (evs :: groups). simpl. rewrite Eg, Eevs, <- app_assoc.
      repeat split; [now constructor|lia].
Qed.

End LoopFacts.

Section QuotaFacts.

Variable urlparse : string -> option ParseResult.
Variable int_of_str : string -> option Z.

Lemma check_rate_limit_unreadable response w :
  header_int int_of_str response "X-RateLimit-Limit" 60 = None \/
  header_int int_of_str response "X-RateLimit-Remaining" 0 = None \/
  header_int int_of_str response "X-RateLimit-Reset" 0 = None ->
  check_rate_limit int_of_str response w = (Raised, w).
Proof.
  intros H.
  destruct (check_rate_limit_cases int_of_str response w) as [[t C]|[C|C]];
    [exfalso|exfalso|exact C];
    revert C; unfold check_rate_limit, int_header, bind, lift, ret, raise,
              time_time, time_sleep;
    destruct (header_int int_of_str response "X-RateLimit-Limit" 60) as [l|];
    try discriminate;
    destruct (header_int int_of_str response "X-RateLimit-Remaining" 0) as [r|];
    try discriminate;
    destruct (header_int int_of_str response "X-RateLimit-Reset" 0) as [t'|];
    try discriminate;
    destruct H as [H|[H|H]]; discriminate H.
Qed.

Lemma header_int_absent response name default :
  headers_get name (headers response) = None ->
  header_int int_of_str response name default = Some default.
Proof. unfold header_int. now intros ->. Qed.

End QuotaFacts.

(** C7, as the specification states it, fails: a reset that lies further
    ahead than [time.sleep] takes makes the pass end with an exception
    after its first request, without sleep or retry. *)
Lemma sleeps_and_retries_fails :
  ~ sleeps_and_retries Urllib.urlparse decimal_int.
Proof.
  intros H.
  destruct (H [] sample_repo_url (world_of [api_limited_far; api_ok (metrics_body 5 2 5)])
              (mkParseResult "https" "github.com" "/rocq-prover/rocq"
                 EmptyString EmptyString EmptyString)
              api_limited_far [api_ok (metrics_body 5 2 5)]
              (mkResponse 403 (quota_headers "0" "99999999999") "{...}"
                 (Some (JObject [])))
              99999999999%Z
              eq_refl (le_n 2) eq_refl eq_refl eq_refl eq_refl) as (d & _ & E).
  assert (L : events (snd (fetch_metrics Urllib.urlparse decimal_int [] sample_repo_url
                             (world_of [api_limited_far; api_ok (metrics_body 5 2 5)])))
              = [EvGet sample_api_url []]) by (vm_compute; reflexivity).
  rewrite L in E. discriminate E.
Qed.

(** C7, amended.  When the three rate-limit headers of a response read
    as integers, the response reports zero remaining quota and the reset
    is in reach (the subtraction and the sleep go through),
    [check_rate_limit] sleeps for [max(reset - now, 0)] seconds, never a
    negative time, after which the clock is at or past the reset time,
    and the fetcher sends the same request once more; with a reset out
    of reach, or a limit or reset header that does not read as an
    integer, the pass ends with an exception after its one request,
    without sleep or retry; a response that reports another quota causes
    neither sleep nor retry; a pass of the loop sends its request at most
    twice, and so does every pass of a run. *)
Theorem rate_limit_policy
    (urlparse : string -> option ParseResult) (int_of_str : string -> option Z) :
  (forall response w limit reset_time,
      header_int int_of_str response "X-RateLimit-Limit" 60 = Some limit ->
      header_int int_of_str response "X-RateLimit-Remaining" 0 = Some 0%Z ->
      header_int int_of_str response "X-RateLimit-Reset" 0 = Some reset_time ->
      reset_in_reach reset_time w = true ->
      exists w',
        check_rate_limit int_of_str response w = (Ok true, w') /\
        events w' = events w ++ [EvSleep (Qmax (inject_Z reset_time - now w) 0)] /\
        0 <= Qmax (inject_Z reset_time - now w) 0 /\
        inject_Z reset_time <= now w') /\
  (forall hdrs u w parsed x rest response limit reset_time,
      urlparse u = Some parsed ->
      (2 <= List.length (PyStr.split "/" (PyStr.strip "/" (path parsed))))%nat ->
      network w = x :: rest ->
      outcome x = Some response ->
      header_int int_of_str response "X-RateLimit-Limit" 60 = Some limit ->
      header_int int_of_str response "X-RateLimit-Remaining" 0 = Some 0%Z ->
      header_int int_of_str response "X-RateLimit-Reset" 0 = Some reset_time ->
      let api := api_url_of (PyStr.split "/" (PyStr.strip "/" (path parsed))) in
      let w1 := mkWorld rest (now w + latency x) (auth_token w)
                  (events w ++ [EvGet api hdrs]) (sleep_limit w) in
      if reset_in_reach reset_time w1
      then events (snd (fetch_metrics urlparse int_of_str hdrs u w))
           = events w ++
             [EvGet api hdrs; EvSleep (Qmax (inject_Z reset_time - now w1) 0);
              EvGet api hdrs]
      else fetch_metrics urlparse int_of_str hdrs u w = (Raised, w1)) /\
  (forall hdrs u w parsed x rest response,
      urlparse u = Some parsed ->
      (2 <= List.length (PyStr.split "/" (PyStr.strip "/" (path parsed))))%nat ->
      network w = x :: rest ->
      outcome x = Some response ->
      header_int int_of_str response "X-RateLimit-Remaining" 0 = Some 0%Z ->
      header_int int_of_str response "X-RateLimit-Limit" 60 = None \/
      header_int int_of_str response "X-RateLimit-Reset" 0 = None ->
      let api := api_url_of (PyStr.split "/" (PyStr.strip "/" (path parsed))) in
      fetch_metrics urlparse int_of_str hdrs u w
      = (Raised, mkWorld rest (now w + latency x) (auth_token w)
                   (events w ++ [EvGet api hdrs]) (sleep_limit w))) /\
  (forall hdrs u w parsed x rest response remaining,
      urlparse u = Some parsed ->
      (2 <= List.length (PyStr.split "/" (PyStr.strip "/" (path parsed))))%nat ->
      network w = x :: rest ->
      outcome x = Some response ->
      header_int int_of_str response "X-RateLimit-Remaining" 0 = Some remaining ->
      remaining <> 0%Z ->
      let api := api_url_of (PyStr.split "/" (PyStr.strip "/" (path parsed))) in
      events (snd (fetch_metrics urlparse int_of_str hdrs u w))
      = events w ++ [EvGet api hdrs]) /\
  (forall hdrs u w,
      exists evs,
        events (snd (fetch_metrics urlparse int_of_str hdrs u w)) = events w ++ evs /\
        pass_events evs) /\
  (forall github_urls max_failures w,
      exists groups,
        events (snd (get_github_repo_popularity urlparse int_of_str
                       github_urls max_failures w))
        = events w ++ List.concat groups /\
        Forall pass_events groups /\
        (List.length groups <= List.length github_urls)%nat).
Proof.
  split; [|split; [|split; [|split; [|split]]]].
  - intros response w limit reset_time Hl Hr Ht Hreach.
    exists (slept reset_time w). repeat split.
    + eapply check_rate_limit_zero; eassumption.
    + apply sleep_time_nonneg.
    + apply slept_until_reset.
  - intros hdrs u w parsed x rest response limit reset_time
      Hp Hlen Hnet Hout Hl Hr Ht api w1.
    pose proof (check_rate_limit_zero_cases int_of_str response w1 limit
                  reset_time Hl Hr Ht) as C.
    destruct (reset_in_reach reset_time w1);
      rewrite (fetch_metrics_request urlparse int_of_str hdrs u w parsed Hp Hlen);
      fold api; unfold requests_get_api at 1; rewrite Hnet, Hout; fold w1;
      rewrite C; [|reflexivity].
    pose proof (requests_get_api_events api hdrs (slept reset_time w1)) as E2.
    destruct (requests_get_api api hdrs (slept reset_time w1)) as [[r'|] w3];
      simpl in E2; [rewrite read_metrics_world|]; simpl; rewrite E2;
      simpl; now rewrite <- !app_assoc.
  - intros hdrs u w parsed x rest response Hp Hlen Hnet Hout Hr Hbad api.
    rewrite (fetch_metrics_request urlparse int_of_str hdrs u w parsed Hp Hlen).
    fold api. unfold requests_get_api. rewrite Hnet, Hout.
    rewrite (check_rate_limit_unreadable int_of_str response _
               (match Hbad with
                | or_introl H => or_introl H
                | or_intror H => or_intror (or_intror H)
                end)).
    reflexivity.
  - intros hdrs u w parsed x rest response remaining Hp Hlen Hnet Hout Hr Hn api.
    rewrite (fetch_metrics_request urlparse int_of_str hdrs u w parsed Hp Hlen).
    fold api. unfold requests_get_api at 1. rewrite Hnet, Hout.
    set (w1 := mkWorld rest (now w + latency x) (auth_token w)
                 (events w ++ [EvGet api hdrs]) (sleep_limit w)).
    destruct (header_int int_of_str response "X-RateLimit-Limit" 60)
      as [limit|] eqn:Hl.
    2:{ rewrite (check_rate_limit_unreadable int_of_str response w1
                   (or_introl Hl)). reflexivity. }
    destruct (header_int int_of_str response "X-RateLimit-Reset" 0)
      as [reset_time|] eqn:Ht.
    2:{ rewrite (check_rate_limit_unreadable int_of_str response w1
                   (or_intror (or_intror Ht))). reflexivity. }
    rewrite (check_rate_limit_nonzero int_of_str response w1 limit remaining
               reset_time Hl Hr Ht Hn).
    now rewrite read_metrics_world.
  - intros. apply fetch_metrics_events.
  - intros github_urls max_failures w.
    unfold get_github_repo_popularity.
    destruct (fetch_loop_events urlparse int_of_str max_failures
                (auth_headers (auth_token w)) github_urls
                (mkLoopState PyDict.empty 0) w) as (groups & E & F & L).
    destruct (fetch_loop _ _ _ _ _ _ _) as [st w'].
    exists groups. simpl in *. repeat split; assumption.
Qed.

Lemma rate_limit_policy_witness :
  events (snd (fetch_metrics Urllib.urlparse decimal_int [] sample_repo_url
                 (world_of [api_limited; api_ok (metrics_body 5 2 5)])))
  = [EvGet sample_api_url [];
     EvSleep (Qmax (inject_Z 1700000100 - (inject_Z 1700000000 + (1 # 4))) 0);
     EvGet sample_api_url []].
Proof.
  destruct (rate_limit_policy Urllib.urlparse decimal_int) as (_ & H & _).
  exact (H [] sample_repo_url (world_of [api_limited; api_ok (metrics_body 5 2 5)])
           (mkParseResult "https" "github.com" "/rocq-prover/rocq"
              EmptyString EmptyString EmptyString)
           api_limited [api_ok (metrics_body 5 2 5)]
           (mkResponse 403 (quota_headers "0" "1700000100") "{...}" (Some (JObject [])))
           60%Z 1700000100%Z
           eq_refl (le_n 2) eq_refl eq_refl eq_refl eq_refl eq_refl).
Defined.

(** ** The records *)

Lemma requests_get_api_Ok api hdrs w response w1 :
  requests_get_api api hdrs w = (Ok response, w1) ->
  exists x, network w = x :: network w1 /\ outcome x = Some response.
Proof.
  unfold requests_get_api. destruct (network w) as [|x rest]; [discriminate|].
  destruct (outcome x) as [r0|] eqn:O; [|discriminate].
  intros [= <- <-]. exists x. now split.
Qed.

Lemma check_rate_limit_network int_of_str response w b w' :
  check_rate_limit int_of_str response w = (Ok b, w') -> network w' = network w.
Proof.
  destruct (check_rate_limit_cases int_of_str response w) as [[t C]|[C|C]];
    rewrite C; intros [= <- <-]; reflexivity.
Qed.

(** A pass that stores a record has read it from the response of the last
    exchange it took from the network: the first one, or the second one
    after a first response without quota. *)
Lemma fetch_metrics_stored
    (urlparse : string -> option ParseResult) (int_of_str : string -> option Z)
    hdrs u w r w' :
  fetch_metrics urlparse int_of_str hdrs u w = (Ok (Some r), w') ->
  exists used x response,
    network w = (used ++ x :: network w')%list /\
    (List.length used <= 1)%nat /\
    Forall (fun x0 => exists r0,
                outcome x0 = Some r0 /\
                header_int int_of_str r0 "X-RateLimit-Remaining" 0 = Some 0%Z) used /\
    outcome x = Some response /\
    read_metrics response w' = (Ok (Some r), w').
Proof.
  intros H.
  destruct (urlparse u) as [parsed|] eqn:Hp.
  2:{ pose proof (proj2 (fetch_metrics_no_request urlparse int_of_str hdrs u w
                           (or_introl Hp))) as E.
      rewrite H in E. discriminate. }
  destruct (Nat.leb_spec 2 (List.length (PyStr.split "/" (PyStr.strip "/" (path parsed)))))
    as [Hlen|Hlen].
  2:{ pose proof (proj2 (fetch_metrics_no_request urlparse int_of_str hdrs u w
                           (or_intror (ex_intro _ parsed (conj Hp Hlen))))) as E.
      rewrite H in E. discriminate. }
  rewrite (fetch_metrics_request urlparse int_of_str hdrs u w parsed Hp Hlen) in H.
  destruct (requests_get_api _ hdrs w) as [[response|] w1] eqn:G1; [|discriminate].
  destruct (requests_get_api_Ok _ _ _ _ _ G1) as (x1 & N1 & O1).
  destruct (check_rate_limit int_of_str response w1) as [[[|]|] w2] eqn:C;
    [| |discriminate].
  - pose proof (check_rate_limit_network _ _ _ _ _ C) as N2.
    pose proof (check_rate_limit_true _ _ _ _ C) as Hzero.
    destruct (requests_get_api _ hdrs w2) as [[response'|] w3] eqn:G2; [|discriminate].
    destruct (requests_get_api_Ok _ _ _ _ _ G2) as (x2 & N3 & O2).
    pose proof (read_metrics_world response' w3) as W. rewrite H in W.
    cbn [snd] in W. subst w3.
    exists [x1], x2, response'. repeat split.
    + cbn [app]. rewrite N1, <- N2, N3. reflexivity.
    + simpl. lia.
    + apply Forall_cons; [|apply Forall_nil]. exists response. now split.
    + exact O2.
    + exact H.
  - pose proof (check_rate_limit_network _ _ _ _ _ C) as N2.
    pose proof (read_metrics_world response w2) as W. rewrite H in W.
    cbn [snd] in W. subst w2.
    exists [], x1, response. repeat split.
    + cbn [app]. rewrite N1, N2. reflexivity.
    + simpl. lia.
    + apply Forall_nil.
    + exact O1.
    + exact H.
Qed.

(** C9, as the specification states it, fails: the fetcher stores what the
    body holds, and a body may hold a negative number, [null] or a
    string. *)
Lemma records_are_nonnegative_fails :
  ~ records_are_nonnegative Urllib.urlparse decimal_int.
Proof.
  intros H.
  destruct (H [] sample_repo_url (world_of [api_ok odd_body])
              (mkRepoRecord (JInt (-1)) JNull (JString "many"))
              (snd (fetch_metrics Urllib.urlparse decimal_int [] sample_repo_url
                      (world_of [api_ok odd_body])))
              eq_refl) as ((n & E & Hn) & _).
  injection E as <-. lia.
Qed.

(** C9, amended.  A record stored by the fetcher copies the values that
    the body of the response it read holds under [stargazers_count],
    [forks_count] and [watchers_count], with 0 for a key the body lacks.
    That response is the answer of the last exchange the pass took from
    the network (the first, or the second after a first answer without
    quota); it has status 200 and a JSON object for body.  The three
    fields are non-negative integers whenever the metrics present in that
    body are. *)
Theorem stored_record_copies_body
    (urlparse : string -> option ParseResult) (int_of_str : string -> option Z)
    (hdrs : list (string * string)) (u : string) (w w' : World) (r : RepoRecord)
    (Hrun : fetch_metrics urlparse int_of_str hdrs u w = (Ok (Some r), w')) :
  exists used x response items,
    network w = (used ++ x :: network w')%list /\
    (List.length used <= 1)%nat /\
    Forall (fun x0 => exists r0,
                outcome x0 = Some r0 /\
                header_int int_of_str r0 "X-RateLimit-Remaining" 0 = Some 0%Z) used /\
    outcome x = Some response /\
    status_code response = 200%Z /\
    json_body response = Some (JObject items) /\
    rec_stars r = field_or items "stargazers_count" (JInt 0) /\
    rec_forks r = field_or items "forks_count" (JInt 0) /\
    rec_watchers r = field_or items "watchers_count" (JInt 0) /\
    (forall key, PyDict.get key (PyDict.of_pairs items) = None ->
                 field_or items key (JInt 0) = JInt 0) /\
    ((forall key v,
         In key ["stargazers_count"; "forks_count"; "watchers_count"] ->
         PyDict.get key (PyDict.of_pairs items) = Some v -> nonneg_int v) ->
     nonneg_int (rec_stars r) /\ nonneg_int (rec_forks r) /\
     nonneg_int (rec_watchers r)).
Proof.
  destruct (fetch_metrics_stored _ _ _ _ _ _ _ Hrun)
    as (used & x & response & Hnet & Hlen & Hused & Hout & Hread).
  destruct (read_metrics_record _ _ _ _ Hread) as (Hst & items & Hbody & ->).
  exists used, x, response, items. simpl.
  split; [exact Hnet|]. split; [exact Hlen|]. split; [exact Hused|].
  split; [exact Hout|]. split; [exact Hst|]. split; [exact Hbody|].
  split; [reflexivity|]. split; [reflexivity|]. split; [reflexivity|].
  split.
  - intros key Hk. unfold field_or. now rewrite Hk.
  - intros H. unfold field_or. repeat split.
    + destruct (PyDict.get "stargazers_count" (PyDict.of_pairs items)) as [v|] eqn:E.
      * apply (H "stargazers_count"); simpl; auto.
      * exists 0%Z. split; [reflexivity|lia].
    + destruct (PyDict.get "forks_count" (PyDict.of_pairs items)) as [v|] eqn:E.
      * apply (H "forks_count"); simpl; auto.
      * exists 0%Z. split; [reflexivity|lia].
    + destruct (PyDict.get "watchers_count" (PyDict.of_pairs items)) as [v|] eqn:E.
      * apply (H "watchers_count"); simpl; auto.
      * exists 0%Z. split; [reflexivity|lia].
Qed.

Lemma stored_record_copies_body_witness :
  exists used x response items,
    network (world_of [api_limited; api_ok two_counts_body])
    = (used ++ x :: network (snd (fetch_metrics Urllib.urlparse decimal_int []
                                     sample_repo_url
                                     (world_of [api_limited; api_ok two_counts_body]))))%list /\
    (List.length used <= 1)%nat /\
    Forall (fun x0 => exists r0,
                outcome x0 = Some r0 /\
                header_int decimal_int r0 "X-RateLimit-Remaining" 0 = Some 0%Z) used /\
    outcome x = Some response /\
    status_code response = 200%Z /\
    json_body response = Some (JObject items) /\
    rec_stars (mkRepoRecord (JInt 5) (JInt 2) (JInt 0))
    = field_or items "stargazers_count" (JInt 0) /\
    rec_forks (mkRepoRecord (JInt 5) (JInt 2) (JInt 0))
    = field_or items "forks_count" (JInt 0) /\
    rec_watchers (mkRepoRecord (JInt 5) (JInt 2) (JInt 0))
    = field_or items "watchers_count" (JInt 0) /\
    (forall key, PyDict.get key (PyDict.of_pairs items) = None ->
                 field_or items key (JInt 0) = JInt 0) /\
    ((forall key v,
         In key ["stargazers_count"; "forks_count"; "watchers_count"] ->
         PyDict.get key (PyDict.of_pairs items) = Some v -> nonneg_int v) ->
     nonneg_int (JInt 5) /\ nonneg_int (JInt 2) /\ nonneg_int (JInt 0)).
Proof.
  apply (stored_record_copies_body Urllib.urlparse decimal_int [] sample_repo_url
           (world_of [api_limited; api_ok two_counts_body])
           (snd (fetch_metrics Urllib.urlparse decimal_int [] sample_repo_url
                   (world_of [api_limited; api_ok two_counts_body])))).
  reflexivity.
Defined.

(** ** The failure budget *)

Lemma trailing_failures_snoc (pre : list (option RepoRecord)) (o : option RepoRecord) :
  trailing_failures (pre ++ [o])
  = match o with
    | Some _ => O
    | None => S (trailing_failures pre)
    end.
Proof.
  unfold trailing_failures. rewrite rev_app_distr. simpl. now destruct o.
Qed.

Section BudgetFacts.

Variable urlparse : string -> option ParseResult.
Variable int_of_str : string -> option Z.
Variable max_failures : Z.
Variable hdrs : list (string * string).
Hypothesis budget_positive : (1 <= max_failures)%Z.

(** One pass: a stored record resets the counter, anything else adds one
    to it, and the loop breaks exactly when the counter has reached the
    budget. *)
Lemma iteration_counts u st w :
  let res := fetch_metrics urlparse int_of_str hdrs u w in
  iteration urlparse int_of_str max_failures hdrs u st w
  = (match stored (fst res) with
     | Some r => mkLoopState (PyDict.set u r (repo_popularity st)) 0
     | None => mkLoopState (repo_popularity st) (consecutive_failures st + 1)
     end,
     match stored (fst res) with
     | Some _ => false
     | None => (max_failures <=? consecutive_failures st + 1)%Z
     end,
     snd res).
Proof.
  unfold iteration. simpl.
  destruct (fetch_metrics urlparse int_of_str hdrs u w) as [[[r|]|] w']; simpl;
    try reflexivity.
  replace (max_failures <=? 0)%Z with false; [reflexivity|].
  symmetry. apply Z.leb_gt. lia.
Qed.

Lemma fetch_loop_budget urls :
  forall (pre : list (option RepoRecord)) (st : LoopState) (w : World),
    consecutive_failures st = Z.of_nat (trailing_failures pre) ->
    (consecutive_failures st < max_failures)%Z ->
    let outs := outcomes urlparse int_of_str hdrs urls w in
    exists k,
      (k <= List.length urls)%nat /\
      fetch_loop urlparse int_of_str max_failures hdrs urls st w
      = (mkLoopState
           (store_all (firstn k (combine urls outs)) (repo_popularity st))
           (Z.of_nat (trailing_failures (pre ++ firstn k outs))),
         world_after urlparse int_of_str hdrs (firstn k urls) w) /\
      (forall j, (j < k)%nat ->
                 (Z.of_nat (trailing_failures (pre ++ firstn j outs)) < max_failures)%Z) /\
      (k = List.length urls \/
       Z.of_nat (trailing_failures (pre ++ firstn k outs)) = max_failures).
Proof.
  induction urls as [|u urls IH]; intros pre st w Hcf Hlt outs.
  - exists O. simpl. rewrite List.app_nil_r, <- Hcf.
    repeat split; [lia|now destruct st|lia|now left].
  - subst outs. cbn [outcomes fetch_loop].
    rewrite iteration_counts.
    destruct (fetch_metrics urlparse int_of_str hdrs u w) as [res w1] eqn:Hres.
    cbn [fst snd].
    destruct (stored res) as [r|] eqn:Hst.
    + destruct (IH (pre ++ [Some r])
                  (mkLoopState (PyDict.set u r (repo_popularity st)) 0) w1)
        as (k & Hk & Hrun & Hbefore & Hstop).
      { rewrite trailing_failures_snoc. reflexivity. }
      { simpl. lia. }
      exists (S k). cbn [firstn combine List.length world_after].
      rewrite Hres. cbn [snd].
      rewrite <- !app_assoc in *. cbn [app] in *.
      repeat split.
      * lia.
      * exact Hrun.
      * intros [|j] Hj; cbn [firstn].
        -- rewrite List.app_nil_r. lia.
        -- assert (Hj' : (j < k)%nat) by lia.
           specialize (Hbefore j Hj'). rewrite <- app_assoc in Hbefore.
           exact Hbefore.
      * destruct Hstop as [->|Hstop]; [now left|now right].
    + destruct (Z.leb_spec max_failures (consecutive_failures st + 1)) as [Hbrk|Hgo].
      * exists 1%nat. cbn [firstn combine List.length world_after].
        rewrite Hres. cbn [snd].
        assert (E : Z.of_nat (trailing_failures (pre ++ [None]))
                    = (consecutive_failures st + 1)%Z).
        { rewrite trailing_failures_snoc, Nat2Z.inj_succ. lia. }
        repeat split.
        -- lia.
        -- unfold store_all. simpl. now rewrite E.
        -- intros j Hj. assert (j = O) as -> by lia. simpl.
           rewrite List.app_nil_r. lia.
        -- right. lia.
      * destruct (IH (pre ++ [None])
                    (mkLoopState (repo_popularity st) (consecutive_failures st + 1)) w1)
          as (k & Hk & Hrun & Hbefore & Hstop).
        { rewrite trailing_failures_snoc, Nat2Z.inj_succ. simpl. lia. }
        { simpl. lia. }
        exists (S k). cbn [firstn combine List.length world_after].
        rewrite Hres. cbn [snd].
        rewrite <- !app_assoc in *. cbn [app] in *.
        repeat split.
        -- lia.
        -- exact Hrun.
        -- intros [|j] Hj; cbn [firstn].
           ++ rewrite List.app_nil_r. lia.
           ++ assert (Hj' : (j < k)%nat) by lia.
              specialize (Hbefore j Hj'). rewrite <- app_assoc in Hbefore.
              exact Hbefore.
        -- destruct Hstop as [->|Hstop]; [now left|now right].
Qed.

End BudgetFacts.

(** C2.  With a budget of at least one, the fetcher goes through the URLs
    in order; a pass that stores a record sets the counter to zero and any
    other pass adds one to it; the loop stops at the first pass after
    which the counter has reached the budget, that is after exactly that
    many consecutive failures, and the result holds exactly the records of
    the successes among the passes made. *)
Theorem fetcher_stops_at_budget
    (urlparse : string -> option ParseResult) (int_of_str : string -> option Z)
    (github_urls : list string) (max_failures : Z) (w : World)
    (Hbudget : (1 <= max_failures)%Z) :
  let hdrs := auth_headers (auth_token w) in
  let outs := outcomes urlparse int_of_str hdrs github_urls w in
  (forall u st w0,
      let res := fetch_metrics urlparse int_of_str hdrs u w0 in
      iteration urlparse int_of_str max_failures hdrs u st w0
      = (match stored (fst res) with
         | Some r => mkLoopState (PyDict.set u r (repo_popularity st)) 0
         | None => mkLoopState (repo_popularity st) (consecutive_failures st + 1)
         end,
         match stored (fst res) with
         | Some _ => false
         | None => (max_failures <=? consecutive_failures st + 1)%Z
         end,
         snd res)) /\
  exists k,
    (k <= List.length github_urls)%nat /\
    fetch_loop urlparse int_of_str max_failures hdrs github_urls
      (mkLoopState PyDict.empty 0) w
    = (mkLoopState (store_all (firstn k (combine github_urls outs)) PyDict.empty)
         (Z.of_nat (trailing_failures (firstn k outs))),
       world_after urlparse int_of_str hdrs (firstn k github_urls) w) /\
    get_github_repo_popularity urlparse int_of_str github_urls max_failures w
    = (store_all (firstn k (combine github_urls outs)) PyDict.empty,
       world_after urlparse int_of_str hdrs (firstn k github_urls) w) /\
    (forall j, (j < k)%nat ->
               (Z.of_nat (trailing_failures (firstn j outs)) < max_failures)%Z) /\
    (k = List.length github_urls \/
     Z.of_nat (trailing_failures (firstn k outs)) = max_failures).
Proof.
  intros hdrs outs. split.
  - intros u st w0. now apply iteration_counts.
  - destruct (fetch_loop_budget urlparse int_of_str max_failures hdrs Hbudget
                github_urls [] (mkLoopState PyDict.empty 0) w eq_refl)
      as (k & Hk & Hrun & Hbefore & Hstop).
    { simpl. lia. }
    exists k. fold outs in Hrun, Hbefore, Hstop. simpl in Hrun, Hbefore, Hstop.
    repeat split; try assumption.
    unfold get_github_repo_popularity. fold hdrs. now rewrite Hrun.
Qed.

Lemma fetcher_stops_at_budget_witness :
  get_github_repo_popularity Urllib.urlparse decimal_int four_urls 2
    (world_of four_exchanges)
  = ([("https://github.com/rocq-prover/rocq",
       mkRepoRecord (JInt 5) (JInt 2) (JInt 5))],
     world_after Urllib.urlparse decimal_int [] (firstn 3 four_urls)
       (world_of four_exchanges)) /\
  trailing_failures
    (firstn 3 (outcomes Urllib.urlparse decimal_int [] four_urls
                 (world_of four_exchanges))) = 2%nat.
Proof.
  destruct (fetcher_stops_at_budget Urllib.urlparse decimal_int four_urls 2
              (world_of four_exchanges)) as (_ & k & _ & _ & Hrun & _ & _).
  - lia.
  - split; reflexivity.
Defined.

(** ** The snapshot text *)

Module JsonFacts.
Import JsonText.
Local Open Scope string_scope.

Lemma append_assoc (a b c : string) : (a ++ b) ++ c = a ++ (b ++ c).
Proof. induction a as [|x a IH]; simpl; [reflexivity|now rewrite IH]. Qed.

Lemma length_append (a b : string) :
  String.length (a ++ b) = (String.length a + String.length b)%nat.
Proof. induction a as [|x a IH]; simpl; [reflexivity|now rewrite IH]. Qed.

Lemma skip_ws_spaces (n : nat) (rest : string) :
  skip_ws (spaces n ++ rest) = skip_ws rest.
Proof. induction n as [|n IH]; simpl; [reflexivity|exact IH]. Qed.

Lemma skip_ws_newline_indent (indent level : nat) (rest : string) :
  skip_ws (newline_indent indent level ++ rest) = skip_ws rest.
Proof. unfold newline_indent. simpl. apply skip_ws_spaces. Qed.

(** Reading back one escaped character. *)
Lemma scanstring_escape_char (c : ascii) (text : string) :
  scanstring (escape_char c ++ text) = prepend (str1 c) (scanstring text).
Proof.
  destruct c as [[|] [|] [|] [|] [|] [|] [|] [|]]; reflexivity.
Qed.

(** [scanstring] reads back what [encode_basestring] writes. *)
Lemma scanstring_escape (s rest : string) :
  scanstring (escape s ++ String dquote rest) = Some (s, rest).
Proof.
  induction s as [|c s IH].
  - reflexivity.
  - cbn [escape]. rewrite append_assoc, scanstring_escape_char, IH. reflexivity.
Qed.

Lemma span_digits_uint (d : Decimal.uint) (rest : string) :
  no_digit_head rest ->
  span_digits (NilEmpty.string_of_uint d ++ rest) = (NilEmpty.string_of_uint d, rest).
Proof.
  intros H. induction d; cbn [NilEmpty.string_of_uint append];
    try (cbn [span_digits]; rewrite IHd; reflexivity).
  destruct rest as [|c r]; [reflexivity|].
  simpl in H. cbn [span_digits]. now rewrite H.
Qed.

(** The decimal form of a positive number does not start with a zero. *)
Lemma to_uint_no_leading_zero (p : positive) (d : Decimal.uint) :
  Pos.to_uint p <> Decimal.D0 d.
Proof.
  intros E.
  assert (U : Decimal.unorm (Pos.to_uint p) = Pos.to_uint p).
  { rewrite <- DecimalPos.Unsigned.to_of, DecimalPos.Unsigned.of_to. reflexivity. }
  rewrite E in U. rewrite unorm_D0 in U. unfold Decimal.unorm in U.
  destruct (Decimal.nzhead d) eqn:Hd; try discriminate U.
  - injection U as <-. now apply (Unsigned.to_uint_nonzero p).
  - apply (nzhead_nonzero d d). now rewrite Hd, U.
Qed.

Lemma value_end_no_digit (rest : string) : value_end rest -> no_digit_head rest.
Proof. intros [r [-> | ->]]; reflexivity. Qed.

Lemma scan_frac_value_end (rest : string) :
  value_end rest -> scan_frac rest = (EmptyString, rest).
Proof. intros [r [-> | ->]]; reflexivity. Qed.

Lemma scan_exp_value_end (rest : string) :
  value_end rest -> scan_exp rest = (EmptyString, rest).
Proof. intros [r [-> | ->]]; reflexivity. Qed.

Lemma is_digit_nonzero_head (p : positive) :
  exists c digits,
    NilEmpty.string_of_uint (Pos.to_uint p) = String c digits /\
    Ascii.eqb c "0" = false /\ Ascii.eqb c "-" = false /\
    PyStr.is_digit c = true /\
    exists d', digits = NilEmpty.string_of_uint d'.
Proof.
  pose proof (to_uint_no_leading_zero p) as Hz.
  pose proof (Unsigned.to_uint_nonnil p) as Hn.
  destruct (Pos.to_uint p) as [|d'|d'|d'|d'|d'|d'|d'|d'|d'|d'];
    [contradiction| now destruct (Hz d') |..];
    cbn [NilEmpty.string_of_uint]; do 2 eexists;
    (split; [reflexivity|]); repeat split; eauto.
Qed.

(** The integer part of a positive number's decimal form. *)
Lemma scan_int_part_pos (p : positive) (rest : string) :
  value_end rest ->
  scan_int_part (NilEmpty.string_of_uint (Pos.to_uint p) ++ rest)
  = Some (NilEmpty.string_of_uint (Pos.to_uint p), rest).
Proof.
  intros H.
  destruct (is_digit_nonzero_head p) as (c & digits & E & H0 & _ & Hd & d' & ->).
  rewrite E. cbn [append scan_int_part]. rewrite H0, Hd.
  rewrite span_digits_uint by now apply value_end_no_digit.
  reflexivity.
Qed.

Lemma string_of_uint_pos (p : positive) :
  NilZero.string_of_uint (Pos.to_uint p) = NilEmpty.string_of_uint (Pos.to_uint p).
Proof.
  pose proof (Unsigned.to_uint_nonnil p).
  now destruct (Pos.to_uint p).
Qed.

Lemma int_digits_pos (p : positive) :
  int_digits (Zpos p) = String.length (NilEmpty.string_of_uint (Pos.to_uint p)).
Proof.
  unfold int_digits, intstr. cbn [Z.abs Z.to_int NilZero.string_of_int Pos.to_int].
  now rewrite string_of_uint_pos.
Qed.

Lemma int_digits_neg (p : positive) : int_digits (Zneg p) = int_digits (Zpos p).
Proof. reflexivity. Qed.

(** [scan_number] reads back the decimal form of an integer that [int]
    takes. *)
Lemma scan_number_intstr (z : Z) (rest : string) :
  printable z ->
  value_end rest ->
  scan_number (intstr z ++ rest) = Some (JInt z, rest).
Proof.
  intros Hdigits H. unfold printable in Hdigits.
  unfold intstr.
  assert (Hint : NilZero.int_of_string (NilZero.string_of_int (Z.to_int z))
                 = Some (Z.to_int z)).
  { apply NilZero.isi; destruct z; simpl; try discriminate;
      intros [= E]; now apply (Unsigned.to_uint_nonnil p). }
  destruct z as [|p|p].
  - destruct H as [r [-> | ->]]; reflexivity.
  - cbn [Z.to_int NilZero.string_of_int Pos.to_int] in *.
    rewrite string_of_uint_pos in *.
    unfold scan_number.
    assert (Hsign :
      match NilEmpty.string_of_uint (Pos.to_uint p) ++ rest with
      | EmptyString => (EmptyString, NilEmpty.string_of_uint (Pos.to_uint p) ++ rest)
      | String c r =>
          if Ascii.eqb c "-" then ("-", r)
          else (EmptyString, NilEmpty.string_of_uint (Pos.to_uint p) ++ rest)
      end = (EmptyString, NilEmpty.string_of_uint (Pos.to_uint p) ++ rest)).
    { destruct (is_digit_nonzero_head p) as (c & digits & E & _ & Hm & _).
      rewrite E. cbn [append]. now rewrite Hm. }
    rewrite Hsign.
    rewrite (scan_int_part_pos p rest H).
    rewrite (scan_frac_value_end rest H), (scan_exp_value_end rest H).
    cbn [append]. rewrite int_digits_pos in Hdigits. rewrite Hdigits, Hint.
    f_equal. f_equal. f_equal. exact (DecimalZ.of_to (Zpos p)).
  - cbn [Z.to_int NilZero.string_of_int] in *.
    rewrite string_of_uint_pos in *.
    unfold scan_number. cbn [append].
    change (Ascii.eqb "-" "-") with true. cbv iota.
    rewrite (scan_int_part_pos p rest H).
    rewrite (scan_frac_value_end rest H), (scan_exp_value_end rest H).
    cbn [append] in *.
    rewrite int_digits_neg, int_digits_pos in Hdigits. rewrite Hdigits, Hint.
    f_equal. f_equal. f_equal. exact (DecimalZ.of_to (Zneg p)).
Qed.

Lemma members_tail_text (indent level : nat) (items : list (string * json))
    (close : string) :
  concat_map (fun ky => "," ++ newline_indent indent (S level)
                        ++ encode_basestring (fst ky) ++ ": "
                        ++ iterencode indent (S level) (snd ky)) items
  ++ newline_indent indent level ++ "}" ++ close
  = match items with
    | [] => newline_indent indent level ++ String "}" close
    | ky :: items' =>
        String "," (newline_indent indent (S level) ++
                    String dquote (members_text indent level ky items' close))
    end.
Proof.
  set (g := fun ky : string * json =>
              "," ++ newline_indent indent (S level)
              ++ encode_basestring (fst ky) ++ ": "
              ++ iterencode indent (S level) (snd ky)).
  induction items as [|ky items IH]; [reflexivity|].
  cbn [concat_map]. rewrite append_assoc, IH. clear IH.
  unfold g, encode_basestring, str1.
  repeat (rewrite !append_assoc; cbn [append]).
  destruct items; reflexivity.
Qed.

Lemma object_text (indent level : nat) (kx : string * json)
    (items : list (string * json)) (close : string) :
  iterencode indent level (JObject (kx :: items)) ++ close
  = String "{" (newline_indent indent (S level) ++
                String dquote (members_text indent level kx items close)).
Proof.
  cbn [iterencode].
  set (g := fun ky : string * json =>
              "," ++ newline_indent indent (S level)
              ++ encode_basestring (fst ky) ++ ": "
              ++ iterencode indent (S level) (snd ky)).
  rewrite !append_assoc.
  change (concat_map g items ++ newline_indent indent level ++ "}" ++ close)
    with (concat_map g items ++ newline_indent indent level ++ "}" ++ close).
  unfold g. rewrite members_tail_text.
  unfold encode_basestring, str1. cbn [append].
  repeat (rewrite !append_assoc; cbn [append]).
  destruct items; reflexivity.
Qed.

Lemma skip_ws_nonws (c : ascii) (r : string) :
  is_ws c = false -> skip_ws (String c r) = String c r.
Proof. intros H. simpl. now rewrite H. Qed.

Lemma skip_ws_space (r : string) : skip_ws (String " " r) = skip_ws r.
Proof. reflexivity. Qed.

Section Members.

Variables indent level need : nat.

Lemma object_members_text (items : list (string * json)) :
  forall (kx : string * json) (fuel : nat) (close : string),
    Forall (value_reads_back indent level need) (kx :: items) ->
    (List.length (kx :: items) + need <= fuel)%nat ->
    object_members fuel (members_text indent level kx items close)
    = Some (kx :: items, close).
Proof.
  induction items as [|ky items IH]; intros [k v] fuel close HF Hfuel;
    (destruct fuel as [|fuel]; [simpl in Hfuel; lia|]);
    inversion HF as [|? ? Hv HF']; subst;
    unfold value_reads_back in Hv; cbn [snd] in Hv;
    cbn [members_text object_members fst snd];
    rewrite scanstring_escape;
    rewrite (skip_ws_nonws ":") by reflexivity;
    rewrite Ascii.eqb_refl; rewrite skip_ws_space.
  - rewrite (Hv fuel) by
      (simpl in *; first [lia | eexists; right; reflexivity]).
    rewrite skip_ws_newline_indent.
    rewrite (skip_ws_nonws "}") by reflexivity.
    rewrite Ascii.eqb_refl. reflexivity.
  - rewrite (Hv fuel) by
      (simpl in *; first [lia | eexists; left; reflexivity]).
    rewrite (skip_ws_nonws ",") by reflexivity.
    simpl (Ascii.eqb "," "}"). cbv iota.
    rewrite Ascii.eqb_refl.
    rewrite skip_ws_newline_indent.
    rewrite (skip_ws_nonws dquote) by reflexivity.
    rewrite Ascii.eqb_refl.
    rewrite (IH ky fuel close HF') by (simpl in *; lia).
    reflexivity.
Qed.

End Members.

Lemma append_nil_r (a : string) : a ++ EmptyString = a.
Proof. induction a as [|x a IH]; simpl; [reflexivity|now rewrite IH]. Qed.

(** A text that starts with a digit or a minus sign is scanned as a
    number. *)
Lemma scan_once_number (fuel : nat) (c : ascii) (r : string) (v : json) (rest : string) :
  PyStr.is_digit c = true \/ c = "-"%char ->
  scan_number (String c r) = Some (v, rest) ->
  scan_once (S fuel) (skip_ws (String c r)) = Some (v, rest).
Proof.
  intros Hc Hn.
  assert (Hws : is_ws c = false /\ Ascii.eqb c dquote = false /\
                Ascii.eqb c "{" = false /\ Ascii.eqb c "[" = false /\
                Ascii.eqb c "n" = false /\ Ascii.eqb c "t" = false /\
                Ascii.eqb c "f" = false).
  { destruct Hc as [Hc | ->]; [|repeat split; reflexivity].
    destruct c as [[|] [|] [|] [|] [|] [|] [|] [|]];
      try discriminate Hc; repeat split; reflexivity. }
  destruct Hws as (H1 & H2 & H3 & H4 & H5 & H6 & H7).
  rewrite (skip_ws_nonws c r H1).
  cbn [scan_once]. rewrite H2, H3, H4, H5, H6, H7, Hn. reflexivity.
Qed.

Lemma intstr_head (z : Z) :
  exists c r, intstr z = String c r /\ (PyStr.is_digit c = true \/ c = "-"%char).
Proof.
  unfold intstr. destruct z as [|p|p]; cbn [Z.to_int NilZero.string_of_int].
  - exists "0"%char, EmptyString. split; [reflexivity|now left].
  - rewrite string_of_uint_pos.
    destruct (is_digit_nonzero_head p) as (c & digits & E & _ & _ & Hd & _).
    exists c, digits. split; [exact E|now left].
  - eexists _, _. split; [reflexivity|now right].
Qed.

(** An integer value is read back with one unit of fuel. *)
Lemma int_reads_back (indent level : nat) (k : string) (z : Z) :
  printable z ->
  value_reads_back indent level 1 (k, JInt z).
Proof.
  intros Hz fuel rest Hfuel Hend. cbn [snd iterencode].
  destruct fuel as [|fuel]; [lia|].
  destruct (intstr_head z) as (c & r & E & Hc).
  pose proof (scan_number_intstr z rest Hz Hend) as Hn.
  rewrite E in *. cbn [append] in *.
  now apply scan_once_number.
Qed.

(** An object whose values are read back with [need] units of fuel is
    read back with one unit more for itself and one for each member. *)
Lemma object_reads_back (indent level need : nat) (kx : string * json)
    (items : list (string * json)) (fuel : nat) (rest : string) :
  Forall (value_reads_back indent level need) (kx :: items) ->
  (S (List.length (kx :: items) + need) <= fuel)%nat ->
  scan_once fuel (skip_ws (iterencode indent level (JObject (kx :: items)) ++ rest))
  = Some (JObject (PyDict.of_pairs (kx :: items)), rest).
Proof.
  intros HF Hfuel. destruct fuel as [|fuel]; [lia|].
  rewrite object_text.
  rewrite (skip_ws_nonws "{") by reflexivity.
  cbn [scan_once].
  simpl (Ascii.eqb "{" dquote). cbv iota. rewrite Ascii.eqb_refl.
  rewrite skip_ws_newline_indent.
  rewrite (skip_ws_nonws dquote) by reflexivity.
  simpl (Ascii.eqb dquote "}"). cbv iota. rewrite Ascii.eqb_refl.
  rewrite (object_members_text indent level need items kx fuel rest HF) by lia.
  reflexivity.
Qed.

(** The record of three integers is read back with five units of fuel. *)
Lemma record_reads_back (k : string) (m : Z * Z * Z) :
  printable_metrics m ->
  value_reads_back 4 0 5 (k, json_of_record (record_of_metrics m)).
Proof.
  destruct m as [[s f] w]. intros (Hs & Hf & Hw) fuel rest Hfuel _. cbn [snd].
  unfold json_of_record, record_of_metrics.
  cbn [rec_stars rec_forks rec_watchers].
  rewrite (object_reads_back 4 1 1).
  - reflexivity.
  - repeat apply Forall_cons; try apply Forall_nil; now apply int_reads_back.
  - simpl. lia.
Qed.

Lemma members_text_length (indent level : nat) (items : list (string * json)) :
  forall (kx : string * json) (close : string),
    (3 * List.length (kx :: items) + 2
     <= String.length (members_text indent level kx items close))%nat.
Proof.
  induction items as [|ky items IH]; intros kx close; cbn [members_text].
  - rewrite !length_append. cbn [String.length List.length].
    rewrite !length_append. unfold newline_indent. cbn [String.length].
    generalize (String.length (escape (fst kx))),
      (String.length (iterencode indent (S level) (snd kx))),
      (String.length (spaces (indent * level))), (String.length close).
    intros. lia.
  - specialize (IH ky close). cbn [List.length] in *.
    repeat (rewrite !length_append; cbn [String.length]). lia.
Qed.

Lemma set_fresh {V} (k : string) (v : V) (d : PyDict.t V) :
  ~ In k (map fst d) -> PyDict.set k v d = (d ++ [(k, v)])%list.
Proof.
  induction d as [|[k' v'] d IH]; simpl; intros H; [reflexivity|].
  destruct (String.eqb_spec k k') as [->|_]; [tauto|].
  rewrite IH; [reflexivity|tauto].
Qed.

Lemma of_pairs_from {V} (items acc : list (string * V)) :
  NoDup (map fst (acc ++ items)%list) ->
  fold_left (fun d kv => PyDict.set (fst kv) (snd kv) d) items acc
  = (acc ++ items)%list.
Proof.
  revert acc. induction items as [|[k v] items IH]; intros acc H; simpl.
  - now rewrite List.app_nil_r.
  - rewrite set_fresh.
    + rewrite IH; rewrite <- List.app_assoc; [reflexivity|exact H].
    + rewrite map_app in H. simpl in H.
      apply NoDup_remove_2 in H. intros Hin. apply H.
      apply in_or_app. now left.
Qed.

(** Assigning pairs with distinct keys keeps them as they are. *)
Lemma of_pairs_NoDup {V} (items : list (string * V)) :
  NoDup (map fst items) -> PyDict.of_pairs items = items.
Proof. intros H. exact (of_pairs_from items [] H). Qed.

Lemma json_of_data_records (d : list (string * (Z * Z * Z))) :
  json_of_data (records_of d) = JObject (map item_of d).
Proof.
  unfold json_of_data, records_of. rewrite map_map. reflexivity.
Qed.

Lemma item_keys (d : list (string * (Z * Z * Z))) :
  map fst (map item_of d) = map fst d.
Proof. rewrite map_map. reflexivity. Qed.

(** [json.loads] reads back the snapshot text of a mapping with distinct
    keys and integers that [int] takes. *)
Lemma loads_dumps_snapshot (d : list (string * (Z * Z * Z))) :
  NoDup (map fst d) ->
  Forall (fun kv => printable_metrics (snd kv)) d ->
  loads (dumps 4 (json_of_data (records_of d))) = Some (JObject (map item_of d)).
Proof.
  intros Hkeys Hdigits. rewrite json_of_data_records.
  destruct d as [|kv d]; [reflexivity|].
  cbn [map]. unfold loads, dumps.
  set (items := map item_of d).
  set (text := iterencode 4 0 (JObject (item_of kv :: items))).
  assert (Htext : text = String "{" (newline_indent 4 1 ++
                    String dquote (members_text 4 0 (item_of kv) items EmptyString))).
  { unfold text. rewrite <- (append_nil_r (iterencode _ _ _)). apply object_text. }
  assert (Hprefix : String.prefix bom text = false) by (rewrite Htext; reflexivity).
  rewrite Hprefix.
  assert (Hfuel : (S (List.length (item_of kv :: items) + 5) <= String.length text)%nat).
  { rewrite Htext. cbn [String.length]. rewrite length_append. cbn [String.length].
    pose proof (members_text_length 4 0 items (item_of kv) EmptyString) as L.
    cbn [List.length] in *. lia. }
  replace (skip_ws text) with (skip_ws (text ++ EmptyString))
    by (now rewrite append_nil_r).
  unfold text at 2.
  rewrite (object_reads_back 4 0 5 (item_of kv) items (String.length text) EmptyString).
  - cbn [skip_ws]. rewrite of_pairs_NoDup; [reflexivity|].
    change (item_of kv :: items) with (map item_of (kv :: d)).
    now rewrite item_keys.
  - change (item_of kv :: items) with (map item_of (kv :: d)).
    apply Forall_forall. intros kx Hin. apply in_map_iff in Hin.
    destruct Hin as (kv' & <- & Hin). apply record_reads_back.
    exact (proj1 (Forall_forall _ _) Hdigits kv' Hin).
  - exact Hfuel.
Qed.

(** *** The chunks of a snapshot *)

Lemma write_each_chunks {A : Type} (f : A -> Written) (g : A -> string)
    (l : list A) :
  Forall (fun x => f x = chunk (g x)) l ->
  write_each f l = chunk (concat_map g l).
Proof.
  induction 1 as [|x l E _ IH]; [reflexivity|].
  cbn [write_each concat_map]. rewrite E, IH. reflexivity.
Qed.

Lemma int_written (indent level : nat) (z : Z) :
  printable z -> iterwrite indent level (JInt z) = chunk (intstr z).
Proof.
  intros H. unfold printable in H. cbn [iterwrite]. unfold int_repr.
  now rewrite H.
Qed.

(** An object whose values are written whole is written whole. *)
Lemma object_written (indent level : nat) (kx : string * json)
    (items : list (string * json)) :
  Forall (fun ky => iterwrite indent (S level) (snd ky)
                    = chunk (iterencode indent (S level) (snd ky))) (kx :: items) ->
  iterwrite indent level (JObject (kx :: items))
  = chunk (iterencode indent level (JObject (kx :: items))).
Proof.
  intros HF. inversion HF as [|? ? E HF']; subst.
  cbn [iterwrite iterencode]. rewrite E.
  rewrite (write_each_chunks _
             (fun ky => "," ++ newline_indent indent (S level)
                        ++ encode_basestring (fst ky) ++ ": "
                        ++ iterencode indent (S level) (snd ky))).
  - unfold and_then_write, chunk. cbn [fst snd].
    f_equal. now rewrite !append_assoc.
  - eapply Forall_impl; [|exact HF']. intros ky Eky. cbn beta.
    rewrite Eky. unfold and_then_write, chunk. cbn [fst snd].
    f_equal. now rewrite !append_assoc.
Qed.

Lemma record_written (m : Z * Z * Z) :
  printable_metrics m ->
  iterwrite 4 1 (json_of_record (record_of_metrics m))
  = chunk (iterencode 4 1 (json_of_record (record_of_metrics m))).
Proof.
  destruct m as [[s f] w]. intros (Hs & Hf & Hw).
  unfold json_of_record, record_of_metrics.
  cbn [rec_stars rec_forks rec_watchers].
  apply object_written.
  repeat apply Forall_cons; try apply Forall_nil; cbn [snd];
    now apply int_written.
Qed.

(** [json.dump] writes the whole text of a snapshot whose integers
    [int.__repr__] takes. *)
Lemma dump_snapshot (d : list (string * (Z * Z * Z))) :
  Forall (fun kv => printable_metrics (snd kv)) d ->
  dump 4 (json_of_data (records_of d))
  = chunk (dumps 4 (json_of_data (records_of d))).
Proof.
  intros Hdigits. rewrite json_of_data_records. unfold dump, dumps.
  destruct d as [|kv d]; [reflexivity|].
  change (map item_of (kv :: d)) with (item_of kv :: map item_of d).
  apply object_written.
  change (item_of kv :: map item_of d) with (map item_of (kv :: d)).
  apply Forall_forall. intros kx Hin. apply in_map_iff in Hin.
  destruct Hin as (kv' & <- & Hin). apply record_written.
  exact (proj1 (Forall_forall _ _) Hdigits kv' Hin).
Qed.

End JsonFacts.

(** ** The round trip of a snapshot *)

Lemma rows_of_items_records (d : list (string * (Z * Z * Z))) :
  rows_of_items (map item_of d) = Some (map row_of_metrics d).
Proof.
  induction d as [|[k [[s f] w]] d IH]; [reflexivity|].
  cbn [map rows_of_items]. rewrite IH. reflexivity.
Qed.

Lemma associations_rows (d : list (string * (Z * Z * Z))) :
  associations (Frame (map row_of_metrics d)) = d.
Proof.
  unfold associations. rewrite map_map.
  induction d as [|[k [[s f] w]] d IH]; [reflexivity|].
  cbn [map]. rewrite IH. reflexivity.
Qed.

(** C6, as the specification states it, fails: [int.__repr__] refuses a
    count of 4301 digits, [json.dump] ends there and the file holds the
    text up to that count, which is not JSON. *)
Lemma snapshot_comes_back_fails : ~ snapshot_comes_back.
Proof.
  intros H.
  destruct (H huge_metrics "out.json" empty_fs) as (df & E & _).
  - repeat constructor; simpl; tauto.
  - reflexivity.
  - assert (L : load_json_data "out.json"
                  (save_to_json (records_of huge_metrics) "out.json" empty_fs)
                = inl ValueError) by (vm_compute; reflexivity).
    rewrite L in E. discriminate E.
Qed.

(** C6, amended.  A mapping from distinct URL keys to triples of integers
    of at most 4300 digits each, written by [save_to_json] to a path that
    can be written and loaded from that path by [load_json_data], gives a
    table with exactly the same associations of URL to (stars, forks,
    watchers), in the same order; the table of the empty mapping has no
    rows and no metric columns. *)
Theorem snapshot_round_trip
    (d : list (string * (Z * Z * Z))) (file_path : string) (fs : FileSystem)
    (Hkeys : NoDup (map fst d))
    (Hdigits : Forall (fun kv => printable_metrics (snd kv)) d)
    (Hwritable : read_only fs file_path = false) :
  exists df,
    load_json_data file_path (save_to_json (records_of d) file_path fs) = inr df /\
    associations df = d /\
    df = match d with
         | [] => NoMetricColumns
         | _ :: _ => Frame (map row_of_metrics d)
         end.
Proof.
  unfold load_json_data, save_to_json. rewrite Hwritable.
  rewrite (JsonFacts.dump_snapshot d Hdigits).
  cbn [files write_file fst JsonText.chunk]. rewrite String.eqb_refl.
  rewrite (JsonFacts.loads_dumps_snapshot d Hkeys Hdigits).
  destruct d as [|kv d].
  - exists NoMetricColumns. repeat split.
  - exists (Frame (map row_of_metrics (kv :: d))).
    split; [|split; [apply associations_rows|reflexivity]].
    unfold frame_of_json.
    rewrite (rows_of_items_records (kv :: d)). reflexivity.
Qed.

Lemma snapshot_round_trip_witness :
  exists df,
    load_json_data "github.com/sindresorhus/awesome.json"
      (save_to_json (records_of sample_metrics)
         "github.com/sindresorhus/awesome.json" empty_fs) = inr df /\
    associations df = sample_metrics /\
    df = Frame (map row_of_metrics sample_metrics).
Proof.
  apply (snapshot_round_trip sample_metrics "github.com/sindresorhus/awesome.json"
           empty_fs).
  - repeat constructor; simpl; intuition discriminate.
  - repeat apply Forall_cons; try apply Forall_nil;
      (split; [|split]); reflexivity.
  - reflexivity.
Defined.

(** The example of the specification goes through the file unchanged. *)
Example save_to_json_sample :
  load_json_data "out.json" (save_to_json (records_of sample_metrics) "out.json" empty_fs)
  = inr (Frame sample_rows).
Proof. reflexivity. Qed.

(* ================================================================== *)
(** * Part III. Further properties of the two programs *)
(* ================================================================== *)

(** ** Filters in sequence *)

Lemma filter_data_twice (rows : list Row) (b b' : Bounds) :
  and_then (filter_data (Frame rows) b) (fun df => filter_data df b')
  = inr (Frame (filter (fun r => within b r && within b' r) rows)).
Proof.
  rewrite filter_data_filter. cbn [and_then].
  rewrite filter_data_filter, filter_filter. reflexivity.
Qed.

(** X1.  Filtering a table with one setting of the bounds and the result
    with another keeps exactly the rows within both, in their input
    order: the two filters can be exchanged, and a filter applied twice
    does what it does once. *)
Theorem filter_data_commutes_idempotent (rows : list Row) (b b' : Bounds) :
  and_then (filter_data (Frame rows) b) (fun df => filter_data df b')
  = inr (Frame (filter (fun r => within b r && within b' r) rows)) /\
  and_then (filter_data (Frame rows) b) (fun df => filter_data df b')
  = and_then (filter_data (Frame rows) b') (fun df => filter_data df b) /\
  and_then (filter_data (Frame rows) b) (fun df => filter_data df b)
  = filter_data (Frame rows) b.
Proof.
  rewrite !filter_data_twice, filter_data_filter. repeat split.
  - do 2 f_equal. apply filter_ext. intros r. apply andb_comm.
  - do 2 f_equal. apply filter_ext. intros r. now destruct (within b r).
Qed.

(** X2.  Without any bound the filter returns the frame it was given,
    also the frame of an empty snapshot, which has no metric column; on
    that frame every filter with a bound raises [KeyError]. *)
Theorem filter_data_without_bounds (df : DataFrame) (b : Bounds) :
  filter_data df no_bounds = inr df /\
  (b <> no_bounds -> exists column, filter_data NoMetricColumns b = inl (KeyError column)).
Proof.
  split.
  - destruct df as [|rows]; [reflexivity|].
    rewrite filter_data_filter. do 2 f_equal.
    induction rows as [|r rows IH]; [reflexivity|]. cbn. now rewrite IH.
  - intros Hb. destruct b as [[a|] [c|] [d|] [e|] [f|] [g|]];
      try (eexists; reflexivity).
    now destruct Hb.
Qed.

Lemma filter_data_without_bounds_witness :
  exists column, filter_data NoMetricColumns stars_from_6 = inl (KeyError column).
Proof.
  apply (proj2 (filter_data_without_bounds NoMetricColumns stars_from_6)).
  discriminate.
Defined.

(** ** Sorting a table that is in order *)

(** Two lists sorted by the same asymmetric relation and holding the same
    members are equal. *)
Lemma StronglySorted_unique {A} (R : A -> A -> Prop) (l l' : list A) :
  (forall x y, R x y -> R y x -> False) ->
  StronglySorted R l -> StronglySorted R l' -> Permutation l l' -> l = l'.
Proof.
  intros Hasym. revert l'. induction l as [|x l IH]; intros l' S S' P.
  - apply Permutation_nil in P. now subst.
  - destruct l' as [|y l'].
    + apply Permutation_sym, Permutation_nil in P. discriminate.
    + apply StronglySorted_inv in S, S'.
      destruct S as [S Hx], S' as [S' Hy].
      rewrite Forall_forall in Hx, Hy.
      assert (Hx' : In x (y :: l')) by (apply (Permutation_in _ P); now left).
      assert (Hy' : In y (x :: l))
        by (apply (Permutation_in _ (Permutation_sym P)); now left).
      assert (E : x = y).
      { destruct Hx' as [E|Hx']; [now symmetry|].
        destruct Hy' as [E|Hy']; [assumption|].
        destruct (Hasym x y (Hx _ Hy') (Hy _ Hx')). }
      subst y. f_equal. apply IH; try assumption.
      now apply Permutation_cons_inv in P.
Qed.

Lemma StronglySorted_seq_by (R : nat -> nat -> Prop) (len : nat) :
  forall start,
    (forall i j, (start <= i < j)%nat -> (j < start + len)%nat -> R i j) ->
    StronglySorted R (seq start len).
Proof.
  induction len as [|len IH]; intros start H; simpl; constructor.
  - apply IH. intros i j Hij Hj. apply H; lia.
  - apply Forall_forall. intros j Hj. apply in_seq in Hj. apply H; lia.
Qed.

Lemma StronglySorted_nth_le (l : list Z) :
  StronglySorted Z.le l ->
  forall i j, (i < j)%nat -> (j < List.length l)%nat ->
              (nth i l 0 <= nth j l 0)%Z.
Proof.
  induction 1 as [|x l _ IH Hx]; intros i j Hij Hj; simpl in Hj; [lia|].
  destruct j as [|j]; [lia|]. destruct i as [|i]; simpl.
  - rewrite Forall_forall in Hx. apply Hx, nth_In. lia.
  - apply IH; lia.
Qed.

Lemma Sorted_ge_rev (l : list Z) : Sorted Z.ge l -> Sorted Z.le (rev l).
Proof.
  intros S. apply StronglySorted_Sorted.
  apply Sorted_StronglySorted in S; [|intros x y z; lia].
  induction S as [|x l _ IH Hx]; simpl; [constructor|].
  apply StronglySorted_snoc; [exact IH|].
  apply Forall_rev. rewrite Forall_forall in *. intros y Hy.
  specialize (Hx y Hy). lia.
Qed.

(** On a column that does not decrease, a kernel that sorts and orders
    ties by position returns the positions in their order. *)
Lemma stable_argsort_of_sorted (items : list Z) (q : list nat) :
  Sorted Z.le items ->
  is_argsort items q = true ->
  ties_in_order items q = true ->
  q = seq 0 (List.length items).
Proof.
  intros S A T. unfold is_argsort in A. apply andb_true_iff in A.
  destruct A as [P N]. apply is_permutation_of_range_Permutation in P.
  rewrite take_map_nth in N by (now apply Permutation_range_Forall).
  pose proof (ties_in_order_Sorted _ _ N T) as L.
  apply Sorted_StronglySorted in L; [|apply lex_lt_trans].
  apply (StronglySorted_unique (lex_lt items)).
  - unfold lex_lt. intros x y. lia.
  - exact L.
  - apply StronglySorted_seq_by. intros i j Hij Hj.
    apply Sorted_StronglySorted in S; [|intros x y z; apply Z.le_trans].
    pose proof (StronglySorted_nth_le items S i j) as H.
    unfold lex_lt. simpl in Hj. lia.
  - exact P.
Qed.

(** X3.  Sorting a table that is already in the requested order leaves
    it as it is, when the kernel sorts and orders ties by position (a
    stable kind). *)
Theorem sort_data_of_ordered
    (argsort : list Z -> list nat) (rows : list Row)
    (sort_by : Column) (ascending : bool)
    (Hordered : ordered_by sort_by ascending rows)
    (Hkernel : is_argsort (kernel_input rows sort_by ascending)
                 (argsort (kernel_input rows sort_by ascending)) = true)
    (Hstable : ties_in_order (kernel_input rows sort_by ascending)
                 (argsort (kernel_input rows sort_by ascending)) = true) :
  sort_data argsort (Frame rows) sort_by ascending = inr (Frame rows).
Proof.
  rewrite sort_data_take. unfold ordered_by, kernel_input in *.
  destruct ascending.
  - rewrite (stable_argsort_of_sorted _ _ Hordered Hkernel Hstable).
    now rewrite length_map, take_seq.
  - apply Sorted_ge_rev in Hordered.
    rewrite (stable_argsort_of_sorted _ _ Hordered Hkernel Hstable).
    rewrite length_rev, length_map, <- (length_rev rows), take_seq.
    now rewrite rev_involutive.
Qed.

Lemma sort_data_of_ordered_witness :
  sort_data insertion_argsort (Frame tied_rows) Stars false = inr (Frame tied_rows).
Proof.
  apply (sort_data_of_ordered insertion_argsort tied_rows Stars false).
  - unfold ordered_by. simpl. repeat constructor; lia.
  - vm_compute. reflexivity.
  - vm_compute. reflexivity.
Defined.

(** ** The analysis run *)

(** X4.  When the snapshot loads as a table of records and the kernel
    sorts the column it is given, the frame the analyzer prints holds
    exactly the loaded rows that meet every given bound, each as often as
    loaded, in non-decreasing order of the sort key with [--ascending] and
    in non-increasing order without. *)
Theorem analyzer_main_shows
    (argsort : list Z -> list nat) (args : AnalyzerArgs) (fs : FileSystem)
    (rows : list Row)
    (Hload : load_json_data (args_input args) fs = inr (Frame rows))
    (Hkernel :
       is_argsort
         (kernel_input (filter (within (args_bounds args)) rows)
            (args_sort_by args) (args_ascending args))
         (argsort
            (kernel_input (filter (within (args_bounds args)) rows)
               (args_sort_by args) (args_ascending args))) = true) :
  exists shown,
    analyzer_main argsort args fs = inr (Frame shown) /\
    Permutation (filter (within (args_bounds args)) rows) shown /\
    ordered_by (args_sort_by args) (args_ascending args) shown /\
    (forall r, In r shown <-> In r rows /\ within (args_bounds args) r = true).
Proof.
  unfold analyzer_main. rewrite Hload, filter_data_filter, sort_data_take.
  eexists. split; [reflexivity|].
  set (kept := filter (within (args_bounds args)) rows) in *.
  assert (H : Permutation kept
                (if args_ascending args
                 then take kept (argsort (map (cell (args_sort_by args)) kept))
                 else rev (take (rev kept)
                             (argsort (rev (map (cell (args_sort_by args)) kept))))) /\
              ordered_by (args_sort_by args) (args_ascending args)
                (if args_ascending args
                 then take kept (argsort (map (cell (args_sort_by args)) kept))
                 else rev (take (rev kept)
                             (argsort (rev (map (cell (args_sort_by args)) kept)))))).
  { unfold kernel_input, ordered_by in *. destruct (args_ascending args).
    - exact (take_permutation_sorted _ _ _ Hkernel).
    - rewrite <- map_rev in *.
      destruct (take_permutation_sorted _ _ _ Hkernel) as [P S]. split.
      + rewrite <- Permutation_rev. rewrite (Permutation_rev kept) at 1. exact P.
      + rewrite map_rev. now apply Sorted_le_rev. }
  destruct H as [P S]. split; [exact P|]. split; [exact S|].
  intros r. split.
  - intros Hin. apply (Permutation_in _ (Permutation_sym P)) in Hin.
    now apply filter_In in Hin.
  - intros [Hin Hw]. apply (Permutation_in _ P). now apply filter_In.
Qed.

Lemma analyzer_main_shows_witness :
  exists shown,
    analyzer_main insertion_argsort
      (mkAnalyzerArgs "out.json" Stars false stars_from_6)
      (save_to_json (records_of sample_metrics) "out.json" empty_fs)
    = inr (Frame shown) /\
    Permutation (filter (within stars_from_6) sample_rows) shown /\
    ordered_by Stars false shown /\
    (forall r, In r shown <-> In r sample_rows /\ within stars_from_6 r = true).
Proof.
  apply (analyzer_main_shows insertion_argsort
           (mkAnalyzerArgs "out.json" Stars false stars_from_6)
           (save_to_json (records_of sample_metrics) "out.json" empty_fs)
           sample_rows).
  - reflexivity.
  - vm_compute. reflexivity.
Defined.

(** The example of the specification, from the file to the frame
    printed. *)
Example analyzer_main_sample :
  analyzer_main insertion_argsort
    (mkAnalyzerArgs "out.json" Stars false stars_from_6)
    (save_to_json (records_of sample_metrics) "out.json" empty_fs)
  = inr (Frame [mkRow "a/b" 10 2 1]).
Proof. reflexivity. Qed.

(** X5.  An analysis run ends with [FileNotFoundError] when the input
    file does not exist, whatever the options; and the snapshot that the
    writer makes of an empty mapping cannot be analysed: the run ends
    with [KeyError], for the sort key when no bound is given. *)
Theorem analyzer_main_fails
    (argsort : list Z -> list nat) (args : AnalyzerArgs) (fs : FileSystem) :
  (files fs (args_input args) = None ->
   analyzer_main argsort args fs = inl (LoadFailure FileNotFoundError)) /\
  (read_only fs (args_input args) = false ->
   exists column,
     analyzer_main argsort args (save_to_json PyDict.empty (args_input args) fs)
     = inl (FrameFailure (KeyError column)) /\
     (args_bounds args = no_bounds -> column = column_name (args_sort_by args))).
Proof.
  split.
  - intros H. unfold analyzer_main, load_json_data. now rewrite H.
  - intros H. unfold analyzer_main, load_json_data, save_to_json. rewrite H.
    cbn [files write_file]. rewrite String.eqb_refl.
    change (JsonText.loads (JsonText.dumps 4 (json_of_data PyDict.empty)))
      with (Some (JObject [])).
    cbn [frame_of_json].
    destruct (args_bounds args) as [[a|] [c|] [d|] [e|] [f|] [g|]];
      try (eexists; split; [reflexivity|discriminate]).
    eexists. split; reflexivity.
Qed.

Lemma analyzer_main_fails_witness :
  analyzer_main insertion_argsort (mkAnalyzerArgs "out.json" Stars false no_bounds)
    (save_to_json PyDict.empty "out.json" empty_fs)
  = inl (FrameFailure (KeyError "stars")).
Proof.
  destruct (proj2 (analyzer_main_fails insertion_argsort
                     (mkAnalyzerArgs "out.json" Stars false no_bounds) empty_fs)
              eq_refl) as (column & Hrun & Hcol).
  cbn [args_input args_bounds args_sort_by] in Hrun, Hcol.
  rewrite Hrun, (Hcol eq_refl). reflexivity.
Defined.

(** ** The dictionary of a fetcher run *)

Module PyDictFacts.

Lemma get_set_same {V} (k : string) (v : V) (d : PyDict.t V) :
  PyDict.get k (PyDict.set k v d) = Some v.
Proof.
  induction d as [|[k' v'] d IH]; simpl.
  - now rewrite String.eqb_refl.
  - destruct (String.eqb_spec k k') as [->|N]; simpl.
    + now rewrite String.eqb_refl.
    + apply String.eqb_neq in N. now rewrite N.
Qed.

Lemma get_set_other {V} (k k' : string) (v : V) (d : PyDict.t V) :
  k' <> k -> PyDict.get k' (PyDict.set k v d) = PyDict.get k' d.
Proof.
  intros N. induction d as [|[k0 v0] d IH]; simpl.
  - apply String.eqb_neq in N. now rewrite N.
  - destruct (String.eqb_spec k k0) as [->|N0]; simpl.
    + apply String.eqb_neq in N. now rewrite N.
    + now rewrite IH.
Qed.

Lemma keys_set {V} (k : string) (v : V) (d : PyDict.t V) :
  PyDict.keys (PyDict.set k v d)
  = if PyStr.elem k (PyDict.keys d) then PyDict.keys d
    else (PyDict.keys d ++ [k])%list.
Proof.
  unfold PyStr.elem, PyDict.keys.
  induction d as [|[k' v'] d IH]; simpl; [reflexivity|].
  destruct (String.eqb_spec k k') as [->|N]; simpl; [reflexivity|].
  rewrite IH. now destruct (existsb (String.eqb k) (map fst d)).
Qed.

Lemma keys_set_NoDup {V} (k : string) (v : V) (d : PyDict.t V) :
  NoDup (PyDict.keys d) -> NoDup (PyDict.keys (PyDict.set k v d)).
Proof.
  intros H. rewrite keys_set.
  destruct (PyStr.elem k (PyDict.keys d)) eqn:E; [exact H|].
  apply NoDup_app; [exact H|repeat constructor; intros []|].
  intros x Hx [<-|[]].
  apply PyStrFacts.elem_In in Hx. congruence.
Qed.

Lemma keys_set_In {V} (k x : string) (v : V) (d : PyDict.t V) :
  In x (PyDict.keys (PyDict.set k v d)) <-> x = k \/ In x (PyDict.keys d).
Proof.
  rewrite keys_set.
  destruct (PyStr.elem k (PyDict.keys d)) eqn:E.
  - apply PyStrFacts.elem_In in E. split; [now right|].
    intros [->|H]; assumption.
  - rewrite in_app_iff. simpl. intuition congruence.
Qed.

Lemma set_length {V} (k : string) (v : V) (d : PyDict.t V) :
  (List.length (PyDict.set k v d) <= S (List.length d))%nat.
Proof.
  induction d as [|[k' v'] d IH]; simpl; [lia|].
  destruct (String.eqb k k'); simpl; lia.
Qed.

End PyDictFacts.

Lemma store_all_cons (p : string * option RepoRecord)
    (passes_made : list (string * option RepoRecord)) (d : PyDict.t RepoRecord) :
  store_all (p :: passes_made) d
  = store_all passes_made
      (match snd p with
       | Some r => PyDict.set (fst p) r d
       | None => d
       end).
Proof. reflexivity. Qed.

Lemma store_all_keys (passes_made : list (string * option RepoRecord)) :
  forall d : PyDict.t RepoRecord,
    NoDup (PyDict.keys d) ->
    NoDup (PyDict.keys (store_all passes_made d)) /\
    (forall x, In x (PyDict.keys (store_all passes_made d)) ->
               In x (PyDict.keys d) \/ In x (map fst passes_made)) /\
    (List.length (store_all passes_made d)
     <= List.length d + List.length passes_made)%nat.
Proof.
  induction passes_made as [|[k o] rest IH]; intros d Hd.
  - simpl. repeat split; [exact Hd|tauto|lia].
  - rewrite store_all_cons. cbn [fst snd]. destruct o as [r|].
    + destruct (IH (PyDict.set k r d) (PyDictFacts.keys_set_NoDup k r d Hd))
        as (H1 & H2 & H3).
      repeat split; [exact H1| |].
      * intros x Hx. destruct (H2 x Hx) as [H|H].
        -- apply PyDictFacts.keys_set_In in H. simpl. intuition.
        -- simpl. tauto.
      * pose proof (PyDictFacts.set_length k r d). simpl. lia.
    + destruct (IH d Hd) as (H1 & H2 & H3).
      repeat split; [exact H1| |simpl; lia].
      intros x Hx. destruct (H2 x Hx); simpl; tauto.
Qed.

Lemma get_store_all (u : string) (passes_made : list (string * option RepoRecord)) :
  forall d : PyDict.t RepoRecord,
    PyDict.get u (store_all passes_made d)
    = match last_success u passes_made with
      | Some r => Some r
      | None => PyDict.get u d
      end.
Proof.
  induction passes_made as [|[k o] rest IH]; intros d; [reflexivity|].
  rewrite store_all_cons, IH. cbn [last_success fst snd].
  destruct (last_success u rest) as [r|]; [reflexivity|].
  destruct (String.eqb_spec u k) as [->|N].
  - destruct o as [r|]; [apply PyDictFacts.get_set_same|reflexivity].
  - destruct o as [r|]; [now apply PyDictFacts.get_set_other|reflexivity].
Qed.

Section RunFacts.

Variable urlparse : string -> option ParseResult.
Variable int_of_str : string -> option Z.
Variable max_failures : Z.
Variable hdrs : list (string * string).

Lemma iteration_dict u st w :
  let res := fetch_metrics urlparse int_of_str hdrs u w in
  repo_popularity (fst (fst (iteration urlparse int_of_str max_failures hdrs u st w)))
  = match stored (fst res) with
    | Some r => PyDict.set u r (repo_popularity st)
    | None => repo_popularity st
    end.
Proof.
  unfold iteration. simpl.
  destruct (fetch_metrics urlparse int_of_str hdrs u w) as [[[r|]|] w']; reflexivity.
Qed.

(** Whatever the budget, the loop makes the passes of a prefix of the
    list and stores their successes. *)
Lemma fetch_loop_prefix urls :
  forall st w,
  exists k,
    (k <= List.length urls)%nat /\
    repo_popularity (fst (fetch_loop urlparse int_of_str max_failures hdrs urls st w))
    = store_all (firstn k (combine urls (outcomes urlparse int_of_str hdrs urls w)))
        (repo_popularity st) /\
    snd (fetch_loop urlparse int_of_str max_failures hdrs urls st w)
    = world_after urlparse int_of_str hdrs (firstn k urls) w.
Proof.
  induction urls as [|u urls IH]; intros st w.
  - exists O. repeat split. simpl. lia.
  - cbn [fetch_loop outcomes].
    pose proof (iteration_dict u st w) as Hd.
    pose proof (iteration_world urlparse int_of_str max_failures hdrs u st w) as Hw.
    destruct (iteration urlparse int_of_str max_failures hdrs u st w)
      as [[st' brk] w'] eqn:It.
    cbn [fst snd] in Hd, Hw.
    destruct (fetch_metrics urlparse int_of_str hdrs u w) as [res w1] eqn:Hres.
    cbn [fst snd] in Hd, Hw. subst w'.
    destruct brk.
    + exists 1%nat. cbn [firstn combine world_after fst snd List.length].
      rewrite Hres. cbn [snd]. repeat split; [lia|].
      rewrite store_all_cons. cbn [fst snd store_all fold_left]. exact Hd.
    + destruct (IH st' w1) as (k & Hk & Hrun & Hworld).
      exists (S k). cbn [firstn combine world_after List.length].
      rewrite Hres. cbn [snd]. repeat split; [lia| |exact Hworld].
      rewrite store_all_cons. cbn [fst snd]. rewrite Hrun, Hd. reflexivity.
Qed.

End RunFacts.

Lemma In_firstn {A} (k : nat) (l : list A) (x : A) :
  In x (firstn k l) -> In x l.
Proof.
  revert l. induction k as [|k IH]; intros [|y l]; simpl; try tauto.
  intros [->|H]; [now left|right; now apply IH].
Qed.

(** X6.  The dictionary a run returns has one entry for each URL
    fetched with success: its keys are distinct, each is a URL of the
    input, and there are at most as many as URLs given, whatever the
    budget and the answers of the API. *)
Theorem fetcher_result_keys
    (urlparse : string -> option ParseResult) (int_of_str : string -> option Z)
    (github_urls : list string) (max_failures : Z) (w : World) :
  let data := fst (get_github_repo_popularity urlparse int_of_str
                     github_urls max_failures w) in
  NoDup (PyDict.keys data) /\
  incl (PyDict.keys data) github_urls /\
  (List.length data <= List.length github_urls)%nat.
Proof.
  unfold get_github_repo_popularity.
  destruct (fetch_loop_prefix urlparse int_of_str max_failures
              (auth_headers (auth_token w)) github_urls
              (mkLoopState PyDict.empty 0) w) as (k & Hk & Hrun & _).
  destruct (fetch_loop _ _ _ _ _ _ _) as [st w']. cbn [fst snd] in *.
  rewrite Hrun. cbn [repo_popularity].
  destruct (store_all_keys
              (firstn k (combine github_urls
                           (outcomes urlparse int_of_str
                              (auth_headers (auth_token w)) github_urls w)))
              PyDict.empty (NoDup_nil _)) as (H1 & H2 & H3).
  repeat split; [exact H1| |].
  - intros x Hx. destruct (H2 x Hx) as [[]|H].
    apply in_map_iff in H. destruct H as ([k' o] & <- & Hin).
    apply In_firstn in Hin. now apply in_combine_l in Hin.
  - rewrite length_firstn in H3. simpl in H3. lia.
Qed.

(** X7.  When a URL occurs more than once in the list, the dictionary
    holds for it the record of its last success among the passes made;
    a later failure for the same URL leaves that record in place. *)
Theorem fetcher_keeps_last_success
    (urlparse : string -> option ParseResult) (int_of_str : string -> option Z)
    (github_urls : list string) (max_failures : Z) (w : World) :
  let hdrs := auth_headers (auth_token w) in
  exists k,
    (k <= List.length github_urls)%nat /\
    snd (get_github_repo_popularity urlparse int_of_str github_urls max_failures w)
    = world_after urlparse int_of_str hdrs (firstn k github_urls) w /\
    forall u,
      PyDict.get u (fst (get_github_repo_popularity urlparse int_of_str
                           github_urls max_failures w))
      = last_success u
          (firstn k (combine github_urls
                       (outcomes urlparse int_of_str hdrs github_urls w))).
Proof.
  intros hdrs. unfold get_github_repo_popularity. fold hdrs.
  destruct (fetch_loop_prefix urlparse int_of_str max_failures hdrs github_urls
              (mkLoopState PyDict.empty 0) w) as (k & Hk & Hrun & Hworld).
  destruct (fetch_loop _ _ _ _ _ _ _) as [st w']. cbn [fst snd] in *.
  exists k. repeat split; [exact Hk|exact Hworld|].
  intros u. rewrite Hrun, get_store_all. cbn [repo_popularity].
  now destruct (last_success u _).
Qed.

(** ** What a run sends *)

Lemma prefix_append (p x : string) : String.prefix p (p ++ x)%string = true.
Proof.
  induction p as [|a p IH]; simpl; [now destruct x|].
  destruct (ascii_dec a a); [exact IH|contradiction].
Qed.

Lemma api_url_under_base (path_parts : list string) :
  String.prefix (base_api_url ++ "/")%string (api_url_of path_parts) = true.
Proof.
  unfold api_url_of. rewrite <- (JsonFacts.append_assoc base_api_url "/").
  apply prefix_append.
Qed.

Section RequestFacts.

Variable urlparse : string -> option ParseResult.
Variable int_of_str : string -> option Z.
Variable hdrs : list (string * string).

Lemma fetch_metrics_api_events u w :
  exists evs,
    events (snd (fetch_metrics urlparse int_of_str hdrs u w)) = events w ++ evs /\
    Forall (api_event hdrs) evs.
Proof.
  destruct (urlparse u) as [parsed|] eqn:Hp.
  2:{ exists []. rewrite (proj1 (fetch_metrics_no_request urlparse int_of_str
                                  hdrs u w (or_introl Hp))).
      split; [now rewrite List.app_nil_r|constructor]. }
  destruct (Nat.leb_spec 2 (List.length (PyStr.split "/" (PyStr.strip "/" (path parsed)))))
    as [Hlen|Hlen].
  2:{ exists [].
      rewrite (proj1 (fetch_metrics_no_request urlparse int_of_str hdrs u w
                        (or_intror (ex_intro _ parsed (conj Hp Hlen))))).
      split; [now rewrite List.app_nil_r|constructor]. }
  rewrite (fetch_metrics_request urlparse int_of_str hdrs u w parsed Hp Hlen).
  set (parts := PyStr.split "/" (PyStr.strip "/" (path parsed))).
  set (api := api_url_of parts).
  assert (Hget : api_event hdrs (EvGet api hdrs))
    by (split; [reflexivity|apply api_url_under_base]).
  pose proof (requests_get_api_events api hdrs w) as E1.
  destruct (requests_get_api api hdrs w) as [[response|] w1]; simpl in E1.
  2:{ exists [EvGet api hdrs]. split; [exact E1|now constructor]. }
  destruct (check_rate_limit_cases int_of_str response w1) as [[t C]|[C|C]];
    rewrite C.
  - pose proof (requests_get_api_events api hdrs (slept t w1)) as E2.
    assert (Hsleep : api_event hdrs (EvSleep (Qmax (inject_Z t - now w1) 0)))
      by apply sleep_time_nonneg.
    destruct (requests_get_api api hdrs (slept t w1)) as [[response'|] w3];
      simpl in E2;
      exists [EvGet api hdrs; EvSleep (Qmax (inject_Z t - now w1) 0); EvGet api hdrs];
      (split; [|apply Forall_cons; [exact Hget|];
                 apply Forall_cons; [exact Hsleep|];
                 apply Forall_cons; [exact Hget|constructor]]).
    + rewrite read_metrics_world, E2. simpl. rewrite E1.
      now rewrite <- !app_assoc.
    + simpl. rewrite E2. simpl. rewrite E1. now rewrite <- !app_assoc.
  - exists [EvGet api hdrs]. rewrite read_metrics_world.
    split; [exact E1|now constructor].
  - exists [EvGet api hdrs]. split; [exact E1|now constructor].
Qed.

Lemma fetch_loop_api_events max_failures urls :
  forall st w,
  exists evs,
    events (snd (fetch_loop urlparse int_of_str max_failures hdrs urls st w))
    = events w ++ evs /\
    Forall (api_event hdrs) evs.
Proof.
  induction urls as [|u urls IH]; intros st w; simpl.
  - exists []. split; [now rewrite List.app_nil_r|constructor].
  - pose proof (iteration_world urlparse int_of_str max_failures hdrs u st w) as Ew.
    destruct (fetch_metrics_api_events u w) as (evs & Eevs & Hevs).
    destruct (iteration urlparse int_of_str max_failures hdrs u st w)
      as [[st' brk] w'] eqn:It.
    simpl in Ew. rewrite <- Ew in Eevs.
    destruct brk.
    + exists evs. now split.
    + destruct (IH st' w') as (evs' & Eg & Hg).
      exists (evs ++ evs')%list. split.
      * rewrite Eg, Eevs. now rewrite <- app_assoc.
      * apply Forall_app. now split.
Qed.

End RequestFacts.

(** X8.  A run talks to the API only: every request it sends goes to a
    URL under [https://api.github.com/repos/] and carries the headers
    fixed at its start, the [Authorization] header when a non-empty
    token was found and no header otherwise; every sleep has a length
    that is not negative. *)
Theorem fetcher_requests_api_only
    (urlparse : string -> option ParseResult) (int_of_str : string -> option Z)
    (github_urls : list string) (max_failures : Z) (w : World) :
  exists evs,
    events (snd (get_github_repo_popularity urlparse int_of_str
                   github_urls max_failures w)) = events w ++ evs /\
    Forall (api_event (auth_headers (auth_token w))) evs /\
    (auth_headers (auth_token w) = [] <->
     auth_token w = None \/ auth_token w = Some EmptyString) /\
    (forall token,
        auth_token w = Some token -> token <> EmptyString ->
        auth_headers (auth_token w)
        = [("Authorization", ("token " ++ token)%string)]).
Proof.
  unfold get_github_repo_popularity.
  destruct (fetch_loop_api_events urlparse int_of_str
              (auth_headers (auth_token w)) max_failures github_urls
              (mkLoopState PyDict.empty 0) w) as (evs & E & F).
  destruct (fetch_loop _ _ _ _ _ _ _) as [st w']. cbn [snd] in *.
  exists evs. split; [exact E|]. split; [exact F|]. split.
  - destruct (auth_token w) as [[|c t]|]; simpl; split;
      try discriminate; auto; intros [H|H]; discriminate H.
  - intros token -> Hne. destruct token; [contradiction|reflexivity].
Qed.

(** ** Edges of the fetcher *)

(** X9.  With a budget of zero or less the loop stops after its first
    pass, also when that pass succeeds: the run returns at most the
    record of the first URL and leaves the other URLs untouched. *)
Theorem fetcher_budget_not_positive
    (urlparse : string -> option ParseResult) (int_of_str : string -> option Z)
    (u : string) (others : list string) (max_failures : Z) (w : World)
    (Hbudget : (max_failures <= 0)%Z) :
  let res := fetch_metrics urlparse int_of_str (auth_headers (auth_token w)) u w in
  get_github_repo_popularity urlparse int_of_str (u :: others) max_failures w
  = (match stored (fst res) with
     | Some r => [(u, r)]
     | None => []
     end, snd res).
Proof.
  unfold get_github_repo_popularity. cbn [fetch_loop]. unfold iteration.
  destruct (fetch_metrics urlparse int_of_str (auth_headers (auth_token w)) u w)
    as [[[r|]|] w1]; cbn [repo_popularity consecutive_failures];
    match goal with
    | |- context [(max_failures <=? ?c)%Z] =>
        replace (max_failures <=? c)%Z with true
          by (symmetry; apply Z.leb_le; simpl; lia)
    end; reflexivity.
Qed.

Lemma fetcher_budget_not_positive_witness :
  get_github_repo_popularity Urllib.urlparse decimal_int four_urls 0
    (world_of four_exchanges)
  = ([("https://github.com/rocq-prover/rocq",
       mkRepoRecord (JInt 5) (JInt 2) (JInt 5))],
     snd (fetch_metrics Urllib.urlparse decimal_int [] sample_repo_url
            (world_of four_exchanges))).
Proof.
  apply (fetcher_budget_not_positive Urllib.urlparse decimal_int
           "https://github.com/rocq-prover/rocq"
           ["https://github.com/a/gone"; "https://github.com/b/gone";
            "https://github.com/rocq-community/coq-art"]
           0 (world_of four_exchanges)).
  lia.
Defined.

Lemma can_sleep_zero (w : World) (d : Q) : d == 0 -> can_sleep w d = true.
Proof.
  intros E. unfold can_sleep.
  assert (L : 0 <= inject_Z (Z.of_N (sleep_limit w)))
    by (unfold Qle; simpl; lia).
  rewrite !andb_true_iff, negb_true_iff. repeat split.
  - apply Qle_bool_iff. lra.
  - destruct (Qle_bool 9223372036854775808 (d * 1000000000)) eqn:B;
      [|reflexivity].
    apply Qle_bool_iff in B. lra.
  - apply Qle_bool_iff. lra.
Qed.

(** X10.  A response without the three rate-limit headers counts as a
    response with no quota left: the fetcher sleeps and sends the same
    request a second time, unless the sleep is refused, which ends the
    pass after its one request; with a clock that is not negative the
    sleep lasts no time and is never refused. *)
Theorem absent_quota_headers_retry
    (urlparse : string -> option ParseResult) (int_of_str : string -> option Z)
    (hdrs : list (string * string)) (u : string) (w : World)
    (parsed : ParseResult) (x : Exchange) (rest : list Exchange)
    (response : Response)
    (Hparsed : urlparse u = Some parsed)
    (Hparts : (2 <= List.length (PyStr.split "/" (PyStr.strip "/" (path parsed))))%nat)
    (Hnet : network w = x :: rest)
    (Hout : outcome x = Some response)
    (Hlimit : headers_get "X-RateLimit-Limit" (headers response) = None)
    (Hremaining : headers_get "X-RateLimit-Remaining" (headers response) = None)
    (Hreset : headers_get "X-RateLimit-Reset" (headers response) = None) :
  let api := api_url_of (PyStr.split "/" (PyStr.strip "/" (path parsed))) in
  let d := Qmax (inject_Z 0 - (now w + latency x)) 0 in
  events (snd (fetch_metrics urlparse int_of_str hdrs u w))
  = events w ++
    (if can_sleep w d
     then [EvGet api hdrs; EvSleep d; EvGet api hdrs]
     else [EvGet api hdrs]) /\
  (0 <= now w + latency x ->
   d == 0 /\
   events (snd (fetch_metrics urlparse int_of_str hdrs u w))
   = events w ++ [EvGet api hdrs; EvSleep d; EvGet api hdrs]).
Proof.
  intros api d.
  assert (E : events (snd (fetch_metrics urlparse int_of_str hdrs u w))
              = events w ++
                (if can_sleep w d
                 then [EvGet api hdrs; EvSleep d; EvGet api hdrs]
                 else [EvGet api hdrs])).
  { rewrite (fetch_metrics_request urlparse int_of_str hdrs u w parsed Hparsed Hparts).
    fold api. unfold requests_get_api at 1. rewrite Hnet, Hout.
    set (w1 := mkWorld rest (now w + latency x) (auth_token w)
                 (events w ++ [EvGet api hdrs]) (sleep_limit w)).
    rewrite (check_rate_limit_zero_cases int_of_str response w1 60 0)
      by now apply header_int_absent.
    unfold reset_in_reach.
    change (Z.abs 0 <? float_overflow)%Z with true. rewrite andb_true_l.
    change (can_sleep w1 (Qmax (inject_Z 0 - now w1) 0)) with (can_sleep w d).
    destruct (can_sleep w d); [|reflexivity].
    pose proof (requests_get_api_events api hdrs (slept 0 w1)) as E2.
    destruct (requests_get_api api hdrs (slept 0 w1)) as [[r'|] w3];
      simpl in E2; [rewrite read_metrics_world|]; simpl; rewrite E2;
      simpl; now rewrite <- !app_assoc. }
  split; [exact E|].
  intros Hnow.
  assert (Hd : d == 0).
  { unfold d. apply Q.max_r. change (inject_Z 0) with 0. lra. }
  split; [exact Hd|]. rewrite E. now rewrite (can_sleep_zero w d Hd).
Qed.

Lemma absent_quota_headers_retry_witness :
  events (snd (fetch_metrics Urllib.urlparse decimal_int [] sample_repo_url
                 (world_of [mkExchange (1 # 4)
                              (Some (mkResponse 200 [] "{...}"
                                       (Some (metrics_body 5 2 5))))])))
  = [EvGet sample_api_url [];
     EvSleep (Qmax (inject_Z 0 - (inject_Z 1700000000 + (1 # 4))) 0);
     EvGet sample_api_url []].
Proof.
  apply (proj1 (absent_quota_headers_retry Urllib.urlparse decimal_int []
                  sample_repo_url
                  (world_of [mkExchange (1 # 4)
                               (Some (mkResponse 200 [] "{...}"
                                        (Some (metrics_body 5 2 5))))])
                  (mkParseResult "https" "github.com" "/rocq-prover/rocq"
                     EmptyString EmptyString EmptyString)
                  (mkExchange (1 # 4)
                     (Some (mkResponse 200 [] "{...}" (Some (metrics_body 5 2 5)))))
                  []
                  (mkResponse 200 [] "{...}" (Some (metrics_body 5 2 5)))
                  eq_refl (le_n 2) eq_refl eq_refl eq_refl eq_refl eq_refl)).
Defined.

(** X11.  When one of the three rate-limit headers of the first response
    cannot be read as an integer, the pass ends with an exception after
    that one request, without sleep or retry: it stores nothing, whatever
    the status and the body of the response, and counts as a failure. *)
Theorem unreadable_quota_header_fails
    (urlparse : string -> option ParseResult) (int_of_str : string -> option Z)
    (max_failures : Z) (hdrs : list (string * string)) (u : string)
    (st : LoopState) (w : World)
    (parsed : ParseResult) (x : Exchange) (rest : list Exchange)
    (response : Response)
    (Hparsed : urlparse u = Some parsed)
    (Hparts : (2 <= List.length (PyStr.split "/" (PyStr.strip "/" (path parsed))))%nat)
    (Hnet : network w = x :: rest)
    (Hout : outcome x = Some response)
    (Hbad : header_int int_of_str response "X-RateLimit-Limit" 60 = None \/
            header_int int_of_str response "X-RateLimit-Remaining" 0 = None \/
            header_int int_of_str response "X-RateLimit-Reset" 0 = None) :
  let api := api_url_of (PyStr.split "/" (PyStr.strip "/" (path parsed))) in
  let w1 := mkWorld rest (now w + latency x) (auth_token w)
              (events w ++ [EvGet api hdrs]) (sleep_limit w) in
  fetch_metrics urlparse int_of_str hdrs u w = (Raised, w1) /\
  iteration urlparse int_of_str max_failures hdrs u st w
  = (mkLoopState (repo_popularity st) (consecutive_failures st + 1),
     (max_failures <=? consecutive_failures st + 1)%Z, w1).
Proof.
  intros api w1.
  assert (E : fetch_metrics urlparse int_of_str hdrs u w = (Raised, w1)).
  { rewrite (fetch_metrics_request urlparse int_of_str hdrs u w parsed Hparsed Hparts).
    fold api. unfold requests_get_api. rewrite Hnet, Hout. fold w1.
    now rewrite (check_rate_limit_unreadable int_of_str response w1 Hbad). }
  split; [exact E|]. unfold iteration. now rewrite E.
Qed.

Lemma unreadable_quota_header_fails_witness :
  fetch_metrics Urllib.urlparse decimal_int [] sample_repo_url
    (world_of [mkExchange (1 # 4)
                 (Some (mkResponse 200 (quota_headers "many" "1700000100") "{...}"
                          (Some (metrics_body 5 2 5))))])
  = (Raised,
     mkWorld [] (inject_Z 1700000000 + (1 # 4)) None [EvGet sample_api_url []]
       9000000000).
Proof.
  apply (unreadable_quota_header_fails Urllib.urlparse decimal_int 5 []
           sample_repo_url (mkLoopState PyDict.empty 0)
           (world_of [mkExchange (1 # 4)
                        (Some (mkResponse 200 (quota_headers "many" "1700000100")
                                 "{...}" (Some (metrics_body 5 2 5))))])
           (mkParseResult "https" "github.com" "/rocq-prover/rocq"
              EmptyString EmptyString EmptyString)
           (mkExchange (1 # 4)
              (Some (mkResponse 200 (quota_headers "many" "1700000100") "{...}"
                       (Some (metrics_body 5 2 5)))))
           []
           (mkResponse 200 (quota_headers "many" "1700000100") "{...}"
              (Some (metrics_body 5 2 5))));
    try reflexivity.
  right. left. reflexivity.
Defined.




(** ** From the extractor to the fetcher *)

(** X13.  A URL that passes the validity check is never taken for
    malformed by the fetcher: its pass starts with a request for
    [https://api.github.com/repos/owner/repo], where owner and repo are
    the two segments the check found. *)
Theorem valid_url_is_requested
    (urlparse : string -> option ParseResult) (int_of_str : string -> option Z)
    (hdrs : list (string * string)) (u : string) (w : World)
    (Hvalid : is_valid_github_repo_url urlparse u = Some true) :
  exists parsed owner repo more,
    urlparse u = Some parsed /\
    PyStr.split "/" (PyStr.strip "/" (path parsed)) = [owner; repo] /\
    events (snd (fetch_metrics urlparse int_of_str hdrs u w))
    = events w
      ++ EvGet ("https://api.github.com/repos/" ++ owner ++ "/" ++ repo)%string hdrs
         :: more.
Proof.
  destruct (is_valid_true_inv urlparse u Hvalid) as (parsed & owner & repo & Hp & _ & Hs & _).
  assert (Hlen : (2 <= List.length (PyStr.split "/" (PyStr.strip "/" (path parsed))))%nat)
    by (rewrite Hs; simpl; lia).
  exists parsed, owner, repo.
  rewrite (fetch_metrics_request urlparse int_of_str hdrs u w parsed Hp Hlen).
  rewrite Hs. change (api_url_of [owner; repo])
    with ("https://api.github.com/repos/" ++ owner ++ "/" ++ repo)%string.
  set (api := ("https://api.github.com/repos/" ++ owner ++ "/" ++ repo)%string).
  pose proof (requests_get_api_events api hdrs w) as E1.
  destruct (requests_get_api api hdrs w) as [[response|] w1]; simpl in E1.
  2:{ exists []. repeat split; assumption. }
  destruct (check_rate_limit_cases int_of_str response w1) as [[t C]|[C|C]];
    rewrite C.
  - pose proof (requests_get_api_events api hdrs (slept t w1)) as E2.
    destruct (requests_get_api api hdrs (slept t w1)) as [[response'|] w3];
      simpl in E2;
      exists [EvSleep (Qmax (inject_Z t - now w1) 0); EvGet api hdrs];
      repeat split; try assumption.
    + rewrite read_metrics_world, E2. simpl. rewrite E1.
      now rewrite <- !app_assoc.
    + simpl. rewrite E2. simpl. rewrite E1. now rewrite <- !app_assoc.
  - exists []. rewrite read_metrics_world. repeat split; assumption.
  - exists []. repeat split; assumption.
Qed.

Lemma valid_url_is_requested_witness :
  exists parsed owner repo more,
    Urllib.urlparse sample_repo_url = Some parsed /\
    PyStr.split "/" (PyStr.strip "/" (path parsed)) = [owner; repo] /\
    events (snd (fetch_metrics Urllib.urlparse decimal_int [] sample_repo_url
                   (world_of four_exchanges)))
    = events (world_of four_exchanges)
      ++ EvGet ("https://api.github.com/repos/" ++ owner ++ "/" ++ repo)%string []
         :: more.
Proof.
  apply (valid_url_is_requested Urllib.urlparse decimal_int [] sample_repo_url
           (world_of four_exchanges)).
  reflexivity.
Defined.

(** ** The token of the GitHub CLI *)

Module StripFacts.
Import PyText.

Lemma lstrip_decomp (s : t) :
  exists pre, s = pre ++ lstrip s /\ forallb is_space pre = true.
Proof.
  induction s as [|c s (pre & E & H)]; simpl.
  - exists []. now split.
  - destruct (is_space c) eqn:M.
    + exists (c :: pre). simpl. rewrite <- E. split; [reflexivity|].
      now rewrite M.
    + exists []. now split.
Qed.

Lemma rstrip_decomp (s : t) :
  exists post, s = rstrip s ++ post /\ forallb is_space post = true.
Proof.
  induction s as [|c s (post & E & H)]; simpl.
  - exists []. now split.
  - destruct (rstrip s) as [|b r] eqn:R.
    + destruct (is_space c) eqn:M.
      * exists (c :: post). simpl in E. subst s. split; [reflexivity|].
        simpl. now rewrite M.
      * exists post. simpl in E. subst s. now split.
    + exists post. split; [|exact H]. simpl in E |- *. now rewrite <- E.
Qed.

Lemma rstrip_spaces (post : t) :
  forallb is_space post = true -> rstrip post = [].
Proof.
  induction post as [|c post IH]; simpl; [reflexivity|].
  intros H. apply andb_true_iff in H. destruct H as [M H].
  now rewrite (IH H), M.
Qed.

Lemma lstrip_spaces (post : t) :
  forallb is_space post = true -> lstrip post = [].
Proof.
  induction post as [|c post IH]; simpl; [reflexivity|].
  intros H. apply andb_true_iff in H. destruct H as [M H].
  rewrite M. now apply IH.
Qed.

Lemma rstrip_app_spaces (a post : t) :
  forallb is_space post = true -> rstrip (a ++ post) = rstrip a.
Proof.
  intros H. induction a as [|c a IH]; simpl.
  - now apply rstrip_spaces.
  - now rewrite IH.
Qed.

Lemma strip_app_spaces (x post : t) :
  forallb is_space post = true -> strip (x ++ post) = strip x.
Proof.
  intros H. unfold strip. induction x as [|c x IH]; simpl.
  - rewrite (lstrip_spaces _ H). reflexivity.
  - destruct (is_space c); [exact IH|].
    exact (rstrip_app_spaces (c :: x) post H).
Qed.

Lemma after_first_app (sep : N) (pre text : t) :
  forallb (fun c => negb (c =? sep)%N) pre = true ->
  after_first sep (pre ++ text) = after_first sep text.
Proof.
  induction pre as [|c pre IH]; simpl; intros H; [reflexivity|].
  apply andb_true_iff in H. destruct H as [M H].
  apply negb_true_iff in M. rewrite M. now apply IH.
Qed.

Lemma startswith_inv (p s : t) :
  startswith p s = true -> exists x, s = p ++ x.
Proof.
  revert s. induction p as [|a p IH]; intros s H.
  - exists s. reflexivity.
  - destruct s as [|b s]; [discriminate|]. simpl in H.
    apply andb_true_iff in H. destruct H as [E H].
    apply N.eqb_eq in E. subst b.
    destruct (IH s H) as [x ->]. now exists x.
Qed.

Lemma spaces_hold_no_colon (pre : t) :
  forallb is_space pre = true ->
  forallb (fun c => negb (c =? colon)%N) pre = true.
Proof.
  induction pre as [|c pre IH]; cbn [forallb]; [reflexivity|].
  intros H. apply andb_true_iff in H. destruct H as [M H].
  rewrite (IH H), andb_true_r.
  destruct (N.eqb_spec c colon) as [->|]; [discriminate M|reflexivity].
Qed.

(** A line that starts, once stripped, with [- Token:] has a colon, and
    what follows its first colon is what follows [- Token:], up to
    blanks at the end. *)
Lemma token_line (line : t) :
  startswith token_mark (strip line) = true ->
  exists x post,
    strip line = token_mark ++ x /\
    forallb is_space post = true /\
    after_first colon line = Some (x ++ post).
Proof.
  intros H. destruct (startswith_inv _ _ H) as [x Hx].
  unfold strip in *.
  destruct (lstrip_decomp line) as (pre & Epre & Hpre).
  destruct (rstrip_decomp (lstrip line)) as (post & Epost & Hpost).
  exists x, post. repeat split; [exact Hx|exact Hpost|].
  rewrite Epre, Epost, Hx.
  rewrite (after_first_app colon pre _ (spaces_hold_no_colon pre Hpre)).
  reflexivity.
Qed.

(** The loop over the lines does not raise. *)
Lemma token_of_lines_returns (lines : list t) : token_of_lines lines <> Raised.
Proof.
  induction lines as [|line rest IH]; cbn [token_of_lines]; [discriminate|].
  destruct (startswith token_mark (strip line)) eqn:S; [|exact IH].
  destruct (token_line line S) as (x & post & _ & _ & ->).
  discriminate.
Qed.

End StripFacts.

(** X14.  Reading the token of the GitHub CLI raises exactly when running
    the tool raises something other than [FileNotFoundError]; it gives a
    token only when the tool ended with return code 0, and then the text
    that follows [- Token:] on the first line that starts with it once
    stripped, itself stripped of blanks: a token that holds colons is
    kept whole. *)
Theorem get_github_auth_token_reads (gh : GhRun) :
  (get_github_auth_token gh = Raised <-> gh = GhRaised) /\
  forall token,
    get_github_auth_token gh = Ok (Some token) ->
    exists lines before line after x,
      gh = GhExit 0 lines /\
      lines = (before ++ line :: after)%list /\
      Forall (fun l => PyText.startswith token_mark (PyText.strip l) = false) before /\
      PyText.strip line = (token_mark ++ x)%list /\
      token = PyText.strip x.
Proof.
  destruct gh as [| |rc lines]; cbn [get_github_auth_token].
  - split; [split; discriminate|discriminate].
  - split; [split; reflexivity|discriminate].
  - destruct (Z.eqb_spec rc 0) as [->|_];
      [|split; [split; discriminate|discriminate]].
    split.
    + split; [|discriminate].
      intros H. exfalso. revert H. apply StripFacts.token_of_lines_returns.
    + intros token H. exists lines.
      induction lines as [|line rest IH]; cbn [token_of_lines] in H;
        [discriminate|].
      destruct (PyText.startswith token_mark (PyText.strip line)) eqn:S.
      * destruct (StripFacts.token_line line S) as (x & post & Hx & Hpost & Ha).
        rewrite Ha in H. injection H as <-.
        exists [], line, rest, x. repeat split; [constructor|exact Hx|].
        apply StripFacts.strip_app_spaces. exact Hpost.
      * destruct (IH H) as (before & line' & after & x & _ & -> & Hb & Hx & Htok).
        exists (line :: before), line', after, x.
        repeat split; [now constructor|exact Hx|exact Htok].
Qed.

Lemma get_github_auth_token_reads_witness :
  exists lines before line after x,
    GhExit 0 gh_status_lines = GhExit 0 lines /\
    lines = (before ++ line :: after)%list /\
    Forall (fun l => PyText.startswith token_mark (PyText.strip l) = false) before /\
    PyText.strip line = (token_mark ++ x)%list /\
    PyText.of_string "gho_ab:cd" = PyText.strip x.
Proof.
  apply (proj2 (get_github_auth_token_reads (GhExit 0 gh_status_lines))).
  reflexivity.
Defined.

(** ** The default output path *)

Module PathFacts.
Import PyStr.
Local Open Scope string_scope.

Lemma split_no_sep (x : string) :
  mem "/" x = false -> split "/" x = [x].
Proof.
  induction x as [|c x IH]; [reflexivity|].
  cbn [mem split]. rewrite Ascii.eqb_sym. intros H.
  apply orb_false_iff in H. destruct H as [Hc Hx].
  now rewrite Hc, (IH Hx).
Qed.

Lemma split_app_sep (x rest : string) :
  mem "/" x = false -> split "/" (x ++ String "/" rest) = x :: split "/" rest.
Proof.
  induction x as [|c x IH]; [reflexivity|].
  cbn [mem append split]. rewrite Ascii.eqb_sym. intros H.
  apply orb_false_iff in H. destruct H as [Hc Hx].
  now rewrite Hc, (IH Hx).
Qed.

Lemma split_concat (x : string) (segs : list string) :
  Forall (fun s => mem "/" s = false) (x :: segs) ->
  split "/" (String.concat "/" (x :: segs)) = x :: segs.
Proof.
  revert x. induction segs as [|y segs IH]; intros x H.
  - simpl. apply split_no_sep. now inversion H.
  - inversion H as [|? ? Hx H']; subst.
    change (String.concat "/" (x :: y :: segs))
      with (x ++ String "/" (String.concat "/" (y :: segs))).
    rewrite (split_app_sep _ _ Hx), (IH y H'). reflexivity.
Qed.

Lemma filter_plain (segs : list string) :
  Forall plain_segment segs ->
  filter (fun x => negb (String.eqb x EmptyString) && negb (String.eqb x ".")) segs
  = segs.
Proof.
  induction 1 as [|s segs (H1 & H2 & _) _ IH]; [reflexivity|].
  simpl. apply String.eqb_neq in H1, H2. now rewrite H1, H2, IH.
Qed.

Lemma last_char_mem (s : string) (c : ascii) :
  last_char s = Some c -> mem c s = true.
Proof.
  induction s as [|a [|b s] IH]; [discriminate| |].
  - intros [= ->]. simpl. now rewrite Ascii.eqb_refl.
  - intros H. change (mem c (String a (String b s)))
      with (Ascii.eqb c a || mem c (String b s)).
    rewrite (IH H). apply orb_true_r.
Qed.

Lemma strip_not_absolute (p : string) : startswith "/" (strip "/" p) = false.
Proof.
  destruct (strip "/" p) as [|c r] eqn:E; [reflexivity|].
  pose proof (PyStrFacts.strip_head _ _ _ _ E) as M.
  unfold startswith.
  change (prefix "/" (String c r))
    with (if ascii_dec "/" c then prefix EmptyString r else false).
  destruct (ascii_dec "/" c) as [<-|]; [|reflexivity].
  vm_compute in M. discriminate M.
Qed.

(** The path of a plain host and a relative rest. *)
Lemma str_joined_plain (host rest : string) (segs : list string) :
  plain_segment host ->
  startswith "/" rest = false ->
  PosixPath.parts rest = segs ->
  PosixPath.str_joined host rest = String.concat "/" (host :: segs).
Proof.
  intros (Hne & Hdot & Hslash) Hrel Hparts.
  unfold PosixPath.str_joined, PosixPath.join. rewrite Hrel.
  apply String.eqb_neq in Hne. rewrite Hne. cbn [orb].
  assert (Hlast : match last_char host with
                  | Some c => Ascii.eqb c "/"
                  | None => false
                  end = false).
  { destruct (last_char host) as [c|] eqn:L; [|reflexivity].
    apply last_char_mem in L.
    destruct (Ascii.eqb_spec c "/") as [->|]; [congruence|reflexivity]. }
  rewrite Hlast. unfold PosixPath.str.
  assert (Hroot : PosixPath.splitroot (host ++ "/" ++ rest)
                  = (EmptyString, host ++ "/" ++ rest)).
  { destruct host as [|c host]; [discriminate Hne|].
    cbn [mem] in Hslash. apply orb_false_iff in Hslash. destruct Hslash as [Hc _].
    cbn [append PosixPath.splitroot]. rewrite Ascii.eqb_sym in Hc. now rewrite Hc. }
  rewrite Hroot. unfold PosixPath.parts in *.
  cbn [append]. rewrite (split_app_sep host rest Hslash).
  cbn [filter]. apply String.eqb_neq in Hdot. rewrite Hne, Hdot. cbn [negb andb].
  rewrite Hparts. reflexivity.
Qed.

Lemma parts_concat (segs : list string) :
  Forall plain_segment segs ->
  PosixPath.parts (String.concat "/" segs) = segs.
Proof.
  intros H. unfold PosixPath.parts. destruct segs as [|x segs]; [reflexivity|].
  rewrite split_concat.
  - now apply filter_plain.
  - eapply Forall_impl; [|exact H]. now intros s (_ & _ & Hs).
Qed.

End PathFacts.

(** X15.  For a page whose host is a plain name and whose path, stripped
    of slashes, is made of plain segments (not empty, not [.], without
    slash), the default output path is the host and the segments joined
    by slashes, with [.json] at the end: scheme, query and fragment of
    the page and the slashes around its path play no part. *)
Theorem default_output_path
    (urlparse : string -> option ParseResult) (u : string)
    (parsed : ParseResult) (segs : list string)
    (Hparsed : urlparse u = Some parsed)
    (Hhost : plain_segment (netloc parsed))
    (Hsegs : Forall plain_segment segs)
    (Hpath : PyStr.strip "/" (path parsed) = String.concat "/" segs) :
  generate_output_path_from_url urlparse u
  = Some (String.concat "/" (netloc parsed :: segs) ++ ".json")%string.
Proof.
  unfold generate_output_path_from_url. rewrite Hparsed. f_equal. f_equal.
  apply PathFacts.str_joined_plain.
  - exact Hhost.
  - apply PathFacts.strip_not_absolute.
  - rewrite Hpath. now apply PathFacts.parts_concat.
Qed.

Lemma default_output_path_witness :
  generate_output_path_from_url Urllib.urlparse
    "https://github.com/sindresorhus/awesome/?tab=readme#contents"
  = Some "github.com/sindresorhus/awesome.json".
Proof.
  apply (default_output_path Urllib.urlparse
           "https://github.com/sindresorhus/awesome/?tab=readme#contents"
           (mkParseResult "https" "github.com" "/sindresorhus/awesome/"
              EmptyString "tab=readme" "contents")
           ["sindresorhus"; "awesome"]).
  - reflexivity.
  - repeat split; discriminate.
  - repeat constructor; discriminate.
  - reflexivity.
Defined.

(** ** The run of the scraper *)


Lemma fetcher_keys_NoDup
    (urlparse : string -> option ParseResult) (int_of_str : string -> option Z)
    (github_urls : list string) (max_failures : Z) (w : World) :
  NoDup (PyDict.keys (fst (get_github_repo_popularity urlparse int_of_str
                             github_urls max_failures w))).
Proof.
  unfold get_github_repo_popularity.
  destruct (fetch_loop_prefix urlparse int_of_str max_failures
              (auth_headers (auth_token w)) github_urls
              (mkLoopState PyDict.empty 0) w) as (k & Hk & Hrun & _).
  destruct (fetch_loop _ _ _ _ _ _ _) as [st w']. cbn [fst snd] in *.
  rewrite Hrun. cbn [repo_popularity].
  apply (store_all_keys _ PyDict.empty (NoDup_nil _)).
Qed.

Lemma keys_records_of (d : list (string * (Z * Z * Z))) :
  PyDict.keys (records_of d) = map fst d.
Proof. unfold PyDict.keys, records_of. rewrite map_map. reflexivity. Qed.



(** X17.  When the page gives at least one link, the output path can be
    written and the records fetched hold integers of at most 4300
    digits, the run of the scraper changes no file but the output, and
    [load_json_data] of the output gives a table with exactly the fetched
    associations of URL to (stars, forks, watchers), in the order they
    were first stored; when every pass failed the output is the empty
    snapshot, whose table has no metric columns. *)
Theorem scraper_output_loads
    (urlparse : string -> option ParseResult) (int_of_str : string -> option Z)
    (requests_get : string -> Response) (find_all_a_href : string -> list string)
    (args : ScraperArgs) (w : World) (fs : FileSystem)
    (link : string) (links : list string) (output_path : string)
    (d : list (string * (Z * Z * Z)))
    (Hlinks : extract_github_links urlparse requests_get find_all_a_href
                (sargs_url args) = Some (link :: links))
    (Hpath : output_path_of urlparse args = Some output_path)
    (Hwritable : read_only fs output_path = false)
    (Hints : fst (get_github_repo_popularity urlparse int_of_str (link :: links)
                    (sargs_max_failures args) w) = records_of d)
    (Hdigits : Forall (fun kv => printable_metrics (snd kv)) d) :
  exists fs' w' df,
    scraper_main urlparse requests_get find_all_a_href int_of_str args w fs
    = (Ok fs', w') /\
    (forall p, p <> output_path -> files fs' p = files fs p) /\
    load_json_data output_path fs' = inr df /\
    associations df = d /\
    (d = [] -> df = NoMetricColumns).
Proof.
  pose proof (fetcher_keys_NoDup urlparse int_of_str (link :: links)
                (sargs_max_failures args) w) as Hkeys.
  rewrite Hints, keys_records_of in Hkeys.
  unfold scraper_main. rewrite Hlinks.
  destruct (get_github_repo_popularity urlparse int_of_str (link :: links)
              (sargs_max_failures args) w) as [data w'].
  cbn [fst] in Hints. subst data. rewrite Hpath.
  exists (save_to_json (records_of d) output_path fs), w'.
  unfold load_json_data, save_to_json. rewrite Hwritable.
  rewrite (JsonFacts.dump_snapshot d Hdigits).
  cbn [files write_file fst JsonText.chunk]. rewrite String.eqb_refl.
  rewrite (JsonFacts.loads_dumps_snapshot d Hkeys Hdigits).
  destruct d as [|kv d].
  - exists NoMetricColumns. repeat split.
    intros p Hp. apply String.eqb_neq in Hp. now rewrite Hp.
  - exists (Frame (map row_of_metrics (kv :: d))).
    split; [reflexivity|]. split.
    { intros p Hp. apply String.eqb_neq in Hp. now rewrite Hp. }
    split.
    { unfold frame_of_json. rewrite (rows_of_items_records (kv :: d)). reflexivity. }
    split; [apply associations_rows|discriminate].
Qed.

Lemma scraper_output_loads_witness :
  exists fs' w' df,
    scraper_main Urllib.urlparse page_of_two hrefs_of_two decimal_int
      (mkScraperArgs "https://github.com/sindresorhus/awesome" None 5)
      (world_of two_exchanges) empty_fs
    = (Ok fs', w') /\
    (forall p, p <> "github.com/sindresorhus/awesome.json" ->
               files fs' p = files empty_fs p) /\
    load_json_data "github.com/sindresorhus/awesome.json" fs' = inr df /\
    associations df = two_metrics /\
    (two_metrics = [] -> df = NoMetricColumns).
Proof.
  apply (scraper_output_loads Urllib.urlparse decimal_int page_of_two hrefs_of_two
           (mkScraperArgs "https://github.com/sindresorhus/awesome" None 5)
           (world_of two_exchanges) empty_fs
           "https://github.com/rocq-prover/rocq"
           ["https://github.com/rocq-community/coq-art/"]
           "github.com/sindresorhus/awesome.json" two_metrics);
    try reflexivity.
  repeat apply Forall_cons; try apply Forall_nil;
    (split; [|split]); reflexivity.
Defined.
